(** * Selector-driven field extraction and update of the Openbank pages

    A shallow embedding of [server.js]: the field registry, the cheerio
    queries the handlers run, the per-page extract and update functions,
    the three global propagation functions, the two balance routes, the
    recipients route and the date and category helpers.

    A page is kept as its parsed tree.  [cheerio.load] and [$.html()] are
    taken as inverse to one another, so a file holds the tree itself. *)

From Stdlib Require Import String Ascii List Bool Arith Lia.
From stdpp Require Import gmap strings list fin_maps sorting pretty.

Set Warnings "-register-all".

Local Open Scope string_scope.
Local Open Scope list_scope.

(** ** JavaScript string primitives used by the handlers *)

Module JS.

(** [String.prototype.startsWith] *)
Fixpoint startsWith (p s : string) : bool :=
  match p, s with
  | EmptyString, _ => true
  | String a p', String b s' => if Ascii.eqb a b then startsWith p' s' else false
  | String _ _, EmptyString => false
  end.

(** [String.prototype.includes]; also the test behind [:contains(...)] *)
Fixpoint includes (needle hay : string) : bool :=
  startsWith needle hay ||
  match hay with
  | EmptyString => false
  | String _ r => includes needle r
  end.

(** A text is kept as the bytes of its UTF-8 form.  White space as [trim]
    and [parseFloat] skip it: the characters of one byte (TAB, LF, VT, FF,
    CR, SP), of two bytes (U+00A0) and of three bytes (U+1680, U+2000 to
    U+200A, U+2028, U+2029, U+202F, U+205F, U+3000, U+FEFF). *)
Definition isWhiteSpace (c : ascii) : bool :=
  let n := nat_of_ascii c in
  ((n =? 9) || (n =? 10) || (n =? 11) || (n =? 12) || (n =? 13) || (n =? 32))%nat.

Definition isWhiteSpace2 (a b : ascii) : bool :=
  ((nat_of_ascii a =? 194) && (nat_of_ascii b =? 160))%nat.

Definition isWhiteSpace3 (a b c : ascii) : bool :=
  let x := nat_of_ascii a in
  let y := nat_of_ascii b in
  let z := nat_of_ascii c in
  (((x =? 225) && (y =? 154) && (z =? 128))
   || ((x =? 226) && (y =? 128)
       && (((128 <=? z) && (z <=? 138)) || (z =? 168) || (z =? 169) || (z =? 175)))
   || ((x =? 226) && (y =? 129) && (z =? 159))
   || ((x =? 227) && (y =? 128) && (z =? 128))
   || ((x =? 239) && (y =? 187) && (z =? 191)))%nat.

Fixpoint trimStart (s : string) : string :=
  match s with
  | EmptyString => EmptyString
  | String a r =>
      if isWhiteSpace a then trimStart r
      else match r with
           | String b r2 =>
               if isWhiteSpace2 a b then trimStart r2
               else match r2 with
                    | String c r3 => if isWhiteSpace3 a b c then trimStart r3 else s
                    | EmptyString => s
                    end
           | EmptyString => s
           end
  end.

(** White space only. *)
Definition blank (s : string) : bool :=
  match trimStart s with EmptyString => true | String _ _ => false end.

(** The text without the longest end that is white space only. *)
Fixpoint trimEnd (s : string) : string :=
  match s with
  | EmptyString => EmptyString
  | String c r => if blank s then EmptyString else String c (trimEnd r)
  end.

(** [String.prototype.trim] *)
Definition trim (s : string) : string := trimEnd (trimStart s).

(** Truthiness of a string: non-empty. *)
Definition truthy (s : string) : bool :=
  match s with EmptyString => false | String _ _ => true end.

Definition isDigit (c : ascii) : bool :=
  let n := nat_of_ascii c in ((48 <=? n) && (n <=? 57))%nat.

Definition startsWithDigit (s : string) : bool :=
  match s with String c _ => isDigit c | EmptyString => false end.

Definition dropSign (s : string) : string :=
  match s with
  | String c r => if Ascii.eqb c "+" || Ascii.eqb c "-" then r else s
  | EmptyString => s
  end.

(** [isNaN(parseFloat(s))]: [parseFloat] skips leading white space and
    reads the longest prefix that is a decimal literal; the result is a
    number exactly when, after an optional sign, the text begins with
    [Infinity], with a digit, or with a dot followed by a digit. *)
Definition parseFloatIsNaN (s : string) : bool :=
  let t := dropSign (trimStart s) in
  negb (startsWith "Infinity" t
        || startsWithDigit t
        || match t with
           | String c r => Ascii.eqb c "." && startsWithDigit r
           | EmptyString => false
           end).

(** [s.replace(pat, "")] with a string pattern: the first occurrence only. *)
Fixpoint dropPrefix (p s : string) : string :=
  match p, s with
  | String _ p', String _ s' => dropPrefix p' s'
  | _, _ => s
  end.

Fixpoint removeFirst (pat s : string) : string :=
  if startsWith pat s then dropPrefix pat s
  else match s with
       | EmptyString => EmptyString
       | String c r => String c (removeFirst pat r)
       end.

(** [String.prototype.endsWith] *)
Fixpoint endsWith (suffix s : string) : bool :=
  String.eqb suffix s
  || match s with
     | EmptyString => false
     | String _ r => endsWith suffix r
     end.

(** [s.replace(/^\.+/, "")] *)
Fixpoint stripLeadingDots (s : string) : string :=
  match s with
  | String c r => if Ascii.eqb c "." then stripLeadingDots r else s
  | EmptyString => EmptyString
  end.

(** Property read on an object literal.  A key that the literal does not
    own is still found when [Object.prototype] has it. *)
Inductive property (A : Type) : Type :=
| Own (a : A)
| Inherited
| Undefined.
Arguments Own {A} a.
Arguments Inherited {A}.
Arguments Undefined {A}.

Definition objectPrototypeKeys : list string :=
  [ "constructor"; "__defineGetter__"; "__defineSetter__"; "hasOwnProperty";
    "__lookupGetter__"; "__lookupSetter__"; "isPrototypeOf";
    "propertyIsEnumerable"; "toString"; "valueOf"; "__proto__";
    "toLocaleString" ].

Fixpoint assoc {A : Type} (k : string) (l : list (string * A)) : option A :=
  match l with
  | [] => None
  | (k', a) :: r => if String.eqb k k' then Some a else assoc k r
  end.

Definition get {A : Type} (obj : list (string * A)) (k : string) : property A :=
  match assoc k obj with
  | Some a => Own a
  | None => if existsb (String.eqb k) objectPrototypeKeys then Inherited else Undefined
  end.

End JS.

(** ** The parsed page and the cheerio operations *)

Module Cheerio.

(** A node of the parsed tree: a text node, or an element with its tag
    name, its [id] attribute, its class list and its children. *)
Inductive node : Type :=
| Text (data : string)
| Elem (tag : string) (ident : option string) (classes : list string) (children : list node).

(** The page: the children of the document root, in document order. *)
Definition document : Type := list node.

(** An element is referred to by the child indices leading to it. *)
Definition path : Type := list nat.

(** [textContent]: the text of all descendants, in document order. *)
Fixpoint textContent (n : node) : string :=
  match n with
  | Text s => s
  | Elem _ _ _ ks =>
      (fix go (l : list node) : string :=
         match l with
         | [] => EmptyString
         | k :: r => textContent k +:+ go r
         end) ks
  end.

Fixpoint textContents (l : list node) : string :=
  match l with
  | [] => EmptyString
  | k :: r => textContent k +:+ textContents r
  end.

Definition isElem (n : node) : bool :=
  match n with Elem _ _ _ _ => true | Text _ => false end.

Definition kids (n : node) : list node :=
  match n with Elem _ _ _ ks => ks | Text _ => [] end.

Fixpoint nodeAt (p : path) (ns : list node) : option node :=
  match p with
  | [] => None
  | i :: r =>
      match ns !! i with
      | Some n => match r with [] => Some n | _ :: _ => nodeAt r (kids n) end
      | None => None
      end
  end.

(** [$(elem).text()] for one element; the empty string when the reference
    is not an element of the tree. *)
Definition textAt (p : path) (d : document) : string :=
  match nodeAt p d with
  | Some n => textContent n
  | None => EmptyString
  end.

(** [$(elem).text(v)]: the children of the element are replaced by a single
    text node.  A reference that no longer leads to an element of the tree
    (the element was detached when an enclosing element was rewritten)
    leaves the tree as it is. *)
Fixpoint setText (p : path) (v : string) (ns : list node) : list node :=
  match p with
  | [] => ns
  | i :: r =>
      alter (fun n =>
               match n with
               | Text _ => n
               | Elem t a c ks =>
                   Elem t a c (match r with [] => [Text v] | _ :: _ => setText r v ks end)
               end) i ns
  end.

(** One compound selector: [tag#id.c1.c2:last-child:contains("...")],
    every part optional. *)
Record compound : Type := Compound {
  c_tag : option string;
  c_id : option string;
  c_classes : list string;
  c_lastChild : bool;
  c_contains : option string
}.

(** A selector: compounds joined by the descendant combinator, the last
    one matching the selected element itself. *)
Record selector : Type := Selector {
  ancestors : list compound;
  target : compound
}.

Definition optMatches (want : option string) (have : option string) : bool :=
  match want with
  | None => true
  | Some w => match have with Some h => String.eqb w h | None => false end
  end.

Definition hasClass (c : string) (n : node) : bool :=
  match n with
  | Elem _ _ cl _ => existsb (String.eqb c) cl
  | Text _ => false
  end.

(** [lastChild] says that no element follows the node among its siblings. *)
Definition matches (c : compound) (n : node) (lastChild : bool) : bool :=
  match n with
  | Text _ => false
  | Elem t a cl _ =>
      optMatches (c_tag c) (Some t)
      && optMatches (c_id c) a
      && forallb (fun k => existsb (String.eqb k) cl) (c_classes c)
      && implb (c_lastChild c) lastChild
      && match c_contains c with
         | None => true
         | Some phrase => JS.includes phrase (textContent n)
         end
  end.

Definition noElem (l : list node) : bool := forallb (fun n => negb (isElem n)) l.

(** Ancestor compounds still to be matched below an element: each one is
    consumed by the outermost element that matches it. *)
Definition advance (pend : list compound) (n : node) (lastChild : bool) : list compound :=
  match pend with
  | [] => []
  | c :: r => if matches c n lastChild then r else pend
  end.

Definition selfMatch (pend : list compound) (tgt : compound) (n : node) (lastChild : bool) : list path :=
  match pend with
  | [] => if matches tgt n lastChild then [[]] else []
  | _ :: _ => []
  end.

(** A path among the later siblings, seen from one sibling earlier. *)
Definition shift (p : path) : path :=
  match p with
  | [] => []
  | i :: r => S i :: r
  end.

(** The elements below a node that match, as paths relative to the node,
    in document order. *)
Fixpoint walk (pend : list compound) (tgt : compound) (n : node) (lastChild : bool) : list path :=
  match n with
  | Text _ => []
  | Elem _ _ _ ks =>
      selfMatch pend tgt n lastChild
      ++ (fix go (l : list node) : list path :=
            match l with
            | [] => []
            | k :: r =>
                map (cons 0) (walk (advance pend n lastChild) tgt k (noElem r))
                ++ map shift (go r)
            end) ks
  end.

Fixpoint walkAll (pend : list compound) (tgt : compound) (l : list node) : list path :=
  match l with
  | [] => []
  | k :: r => map (cons 0) (walk pend tgt k (noElem r)) ++ map shift (walkAll pend tgt r)
  end.

(** [$(selector)]: the matching elements of the page, in document order. *)
Definition select (s : selector) (d : document) : list path :=
  walkAll (ancestors s) (target s) d.

(** [$(selector).text()]: the texts of the matched elements, concatenated. *)
Definition text (sel : list path) (d : document) : string :=
  fold_right (fun p acc => textAt p d +:+ acc) EmptyString sel.

(** [$(selector).text(v)]: every matched element is rewritten, in order. *)
Definition setTextAll (sel : list path) (v : string) (d : document) : document :=
  fold_left (fun cur p => setText p v cur) sel d.

(** [.text(x)] where [x] may be [undefined]: with [undefined] the call is
    the getter and writes nothing. *)
Definition setTextOpt (sel : list path) (v : option string) (d : document) : document :=
  match v with
  | Some s => setTextAll sel s d
  | None => d
  end.

(** [.first()] *)
Definition first (sel : list path) : list path :=
  match sel with
  | [] => []
  | p :: _ => [p]
  end.

(** The prefixes of a path, the longest first: the element, its parent, ... *)
Fixpoint upwards (p : path) : list path :=
  match p with
  | [] => []
  | i :: r => map (cons i) (upwards r) ++ [[i]]
  end.

Definition closestOne (cl : string) (d : document) (p : path) : option path :=
  List.find (fun q => match nodeAt q d with Some n => hasClass cl n | None => false end)
            (upwards p).

Fixpoint addOnce (q : path) (set : list path) : list path :=
  match set with
  | [] => [q]
  | x :: r => if bool_decide (x = q) then set else x :: addOnce q r
  end.

(** [.closest(".cl")]: for each element the nearest of itself and its
    ancestors carrying the class; an element found twice is kept once. *)
Definition closest (cl : string) (sel : list path) (d : document) : list path :=
  fold_left (fun set p => match closestOne cl d p with
                          | Some q => addOnce q set
                          | None => set
                          end) sel [].

(** Whether no element follows the referenced node among its siblings. *)
Fixpoint lastChildAt (p : path) (ns : list node) : bool :=
  match p with
  | [] => false
  | i :: r =>
      match r with
      | [] => noElem (drop (S i) ns)
      | _ :: _ =>
          match ns !! i with
          | Some n => lastChildAt r (kids n)
          | None => false
          end
      end
  end.

(** The elements [.find(selector)] matches for one context element: they
    lie below the context, and the chain of ancestors is looked for from the
    context element on, so the context itself may be the outermost element
    of the chain. *)
Definition findIn (s : selector) (d : document) (ctx : path) : list path :=
  match nodeAt ctx d with
  | Some (Elem t a c ks) =>
      map (app ctx)
          (walkAll (advance (ancestors s) (Elem t a c ks) (lastChildAt ctx d)) (target s) ks)
  | _ => []
  end.

Definition universal : selector := Selector [] (Compound None None [] false None).

(** [.find(selector)]: the elements matched inside the subtree of one of the
    context elements, in document order. *)
Definition find (s : selector) (ctxs : list path) (d : document) : list path :=
  List.filter (fun q => existsb (fun ctx => bool_decide (q ∈ findIn s d ctx)) ctxs)
         (select universal d).


(** ** Notions used to state facts about the tree operations *)

(** The node-level step of [setText]. *)
Definition setTextN (r : path) (v : string) (n : node) : node :=
  match n with
  | Text _ => n
  | Elem t a c ks => Elem t a c (match r with [] => [Text v] | _ :: _ => setText r v ks end)
  end.

(** Neither reference leads into the other. *)
Definition apart (p q : path) : Prop := ~ p `prefix_of` q /\ ~ q `prefix_of` p.

(** [p] lies strictly below [q]. *)
Definition encloses (q p : path) : Prop := exists i r, p = q ++ i :: r.

(** The node a relative path leads to, the node itself for the empty path. *)
Definition nodeBelow (q : path) (n : node) : option node :=
  match q with
  | [] => Some n
  | _ :: _ => nodeAt q (kids n)
  end.

Definition isElement (o : option node) : Prop := exists t a c ks, o = Some (Elem t a c ks).

(** [inside p q]: the reference [q] leads strictly below [p]. *)
Fixpoint inside (p q : path) : bool :=
  match p, q with
  | [], [] => false
  | [], _ :: _ => true
  | i :: p', j :: q' => (i =? j)%nat && inside p' q'
  | _ :: _, [] => false
  end.

(** Document order on references: an element comes before what is inside
    it and before what follows it. *)
Fixpoint before (p q : path) : bool :=
  match p, q with
  | [], _ :: _ => true
  | i :: p', j :: q' => (i <? j)%nat || ((i =? j)%nat && before p' q')
  | _, [] => false
  end.

(** A selector without [:contains]: whether an element matches does not
    depend on any text. *)
Definition structural (s : selector) : Prop :=
  c_contains (target s) = None /\ Forall (fun c => c_contains c = None) (ancestors s).

(** Rewriting below a node removes from a walk exactly what was inside. *)
Definition stableBelow (tgt : compound) (v : string) (r : path) : Prop :=
  forall n pend lastChild,
    Forall (fun c => c_contains c = None) pend ->
    walk pend tgt (setTextN r v n) lastChild
    = List.filter (fun q => negb (inside r q)) (walk pend tgt n lastChild).

End Cheerio.

Import Cheerio.

(** ** Files, exceptions and the request monad *)

(** What JavaScript can throw here. *)
Inductive exn : Type :=
| Error (message : string)
| ReferenceError (message : string)
| TypeError (message : string)
| SystemError (code : string) (filePath : string).

(** What Node says of a failed [open]. *)
Definition describe (code : string) : string :=
  if String.eqb code "ENOENT" then "no such file or directory" else "permission denied".

(** [error.message]; for a system error Node builds the text from the
    code, its description, the call and the path as it was given. *)
Definition message (e : exn) : string :=
  match e with
  | Error m => m
  | ReferenceError m => m
  | TypeError m => m
  | SystemError code filePath =>
      code +:+ ": " +:+ describe code +:+ ", open '" +:+ filePath +:+ "'"
  end.

(** A file of the project directory: the tree [cheerio.load] makes of its
    text, and whether the process may overwrite it. *)
Record file : Type := File {
  writable : bool;
  content : document
}.

(** A computation reads and writes the files and either returns or throws;
    what was written before a throw stays written. *)
Definition M (A : Type) : Type := gmap string file -> (exn + A) * gmap string file.

Definition ret {A : Type} (a : A) : M A := fun fs => (inr a, fs).

Definition throw {A : Type} (e : exn) : M A := fun fs => (inl e, fs).

Definition bind {A B : Type} (c : M A) (k : A -> M B) : M B :=
  fun fs =>
    match c fs with
    | (inr a, fs') => k a fs'
    | (inl e, fs') => (inl e, fs')
    end.

(** [try { c } catch (error) { h error }] *)
Definition tryCatch {A : Type} (c : M A) (h : exn -> M A) : M A :=
  fun fs =>
    match c fs with
    | (inr a, fs') => (inr a, fs')
    | (inl e, fs') => h e fs'
    end.

Notation "'let*' x ':=' c 'in' k" := (bind c (fun x => k))
  (at level 10, x pattern, c at level 100, k at level 200).

(** [for (const x of xs) { acc = body x acc }] *)
Fixpoint forOf {A S : Type} (xs : list A) (body : A -> S -> M S) (acc : S) : M S :=
  match xs with
  | [] => ret acc
  | x :: r => let* acc' := body x acc in forOf r body acc'
  end.

(** [fs.readFile(path, "utf8")] followed by [cheerio.load] *)
Definition readFile (filePath : string) : M document :=
  fun fs =>
    match fs !! filePath with
    | Some f => (inr (content f), fs)
    | None => (inl (SystemError "ENOENT" filePath), fs)
    end.

(** What [cheerio.load] makes of the text [$.html()] gives for a tree.  The
    serializer and the parser are cheerio's own and are not described here:
    the tree that comes back need not be the tree that was written (a void
    element comes back without children, text put into a table row comes
    back in front of the table), so the round trip is a parameter. *)
Class RoundTrip := reload : document -> document.

Section Server.

Context {html : RoundTrip}.

(** [fs.writeFile(path, $.html(), "utf8")]: the file then holds the text,
    that is the tree the text is parsed to. *)
Definition writeFile (filePath : string) (d : document) : M unit :=
  fun fs =>
    match fs !! filePath with
    | Some f =>
        if writable f then (inr tt, <[filePath := File true (reload d)]> fs)
        else (inl (SystemError "EACCES" filePath), fs)
    | None => (inr tt, <[filePath := File true (reload d)]> fs)
    end.

(** ** The tables of [server.js] *)

(** The currency literal, byte for byte as the source file has it. *)
Definition euro : string := "â‚¬".

Definition HTML_FILES : list (string * string) :=
  [ ("openbank", "Openbank.html");
    ("directDebits", "Openbank-direct-debits.html");
    ("cards", "Openbank-cards.html");
    ("transfers", "Openbank-transfers.html") ].

Definition cls (c : string) : compound := Compound None None [c] false None.
Definition tagged (t : string) : compound := Compound (Some t) None [] false None.
Definition withId (i : string) : compound := Compound None (Some i) [] false None.
Definition span : compound := tagged "span".

(** ".glb-position-financial-card-header-col__amount span span" *)
Definition accountTotalSelector : selector :=
  Selector [cls "glb-position-financial-card-header-col__amount"; span] span.

(** ".glb-position-financial-card-item__amount span span" *)
Definition individualAccountSelector : selector :=
  Selector [cls "glb-position-financial-card-item__amount"; span] span.

(** ".global-position-total-balance__amount span" *)
Definition totalBalanceAmountSelector : selector :=
  Selector [cls "global-position-total-balance__amount"] span.

(** ".expenses-summary-box__header__expenses--total" *)
Definition monthlyExpensesSelector : selector :=
  Selector [] (cls "expenses-summary-box__header__expenses--total").

(** '.glb-all-position-summary__statement:contains("...")' *)
Definition statementSelector (phrase : string) : selector :=
  Selector [] (Compound None None ["glb-all-position-summary__statement"] false (Some phrase)).

Definition totalbalanceSection : string := "glb-all-position-summary__totalbalance-section".

(** ".avatar-component__alias span span" *)
Definition avatarSelector : selector :=
  Selector [cls "avatar-component__alias"; span] span.

(** ".glb-position-financial-card-item__title--small" *)
Definition cardTitleSelector : selector :=
  Selector [] (cls "glb-position-financial-card-item__title--small").

(** ".accounts-balance__amount" *)
Definition accountsBalanceSelector : selector :=
  Selector [] (cls "accounts-balance__amount").

(** ".accounts-box-header__iban" *)
Definition ibanSelector : selector :=
  Selector [] (cls "accounts-box-header__iban").

(** "#lblAvailableAmount0" and "#lblAvailableCurrency0" *)
Definition availableAmountSelector : selector := Selector [] (withId "lblAvailableAmount0").
Definition availableCurrencySelector : selector := Selector [] (withId "lblAvailableCurrency0").

(** ".card__card-number--small.card__card-number--show.card__card-number--only-number span:last-child" *)
Definition cardNumberSelector : selector :=
  Selector
    [Compound None None
       ["card__card-number--small"; "card__card-number--show"; "card__card-number--only-number"]
       false None]
    (Compound (Some "span") None [] true None).

(** ".dropdown-accounts__account-description-iban" *)
Definition dropdownIbanSelector : selector :=
  Selector [] (cls "dropdown-accounts__account-description-iban").

(** ".dropdown-accounts__account-description-amount span" *)
Definition dropdownAmountSelector : selector :=
  Selector [cls "dropdown-accounts__account-description-amount"] span.

(** One entry of [FIELD_CONFIGS]. *)
Record fieldConfig : Type := FieldConfig {
  fc_selector : selector;
  fc_context : string;
  fc_defaultValue : string
}.

Definition FIELD_CONFIGS : list (string * list (string * fieldConfig)) :=
  [ ("openbank",
     [ ("accountTotalBalance",
        FieldConfig
          (Selector [cls "glb-position-financial-card-header-col__amount-object"; span] span)
          "Total balance" "430.26");
       ("individualAccountBalance",
        FieldConfig individualAccountSelector "individual account" "0.00");
       ("totalSavingsBalance",
        FieldConfig totalBalanceAmountSelector "Total savings balance" "0.00");
       ("monthlyExpenses",
        FieldConfig monthlyExpensesSelector "Agosto" ("0.00 " +:+ euro));
       ("savingsInvestmentsTotal",
        FieldConfig
          (Selector [cls "glb-all-position-summary__totalbalance-section";
                     cls "global-position-total-balance__amount"] span)
          "Total savings and investments balance" "0.00");
       ("totalLending",
        FieldConfig
          (Selector [cls "glb-all-position-summary__totalbalance-section";
                     cls "global-position-total-balance__amount"] span)
          "Total Lending" "0.00");
       ("cardLastDigits",
        FieldConfig cardTitleSelector "Card last 4 digits (Global)" "...2150");
       ("avatarName", FieldConfig avatarSelector "User display name" "Alfonso") ]);
    ("directDebits",
     [ ("accountsBalanceAmount",
        FieldConfig accountsBalanceSelector "Balance in your accounts" "0.00");
       ("cardLastDigits", FieldConfig ibanSelector "Card last 4 digits" "...2150");
       ("availableAmount", FieldConfig availableAmountSelector "Available balance" "0.00");
       ("availableCurrency", FieldConfig availableCurrencySelector "Available currency" euro);
       ("avatarName", FieldConfig avatarSelector "User display name" "Alfonso") ]);
    ("cards",
     [ ("cardLastDigits", FieldConfig cardNumberSelector "Card last 4 digits" "1704");
       ("avatarName", FieldConfig avatarSelector "User display name" "Alfonso") ]);
    ("transfers",
     [ ("cardLastDigits",
        FieldConfig dropdownIbanSelector "Card last 4 digits (Global)" "...2150");
       ("avatarName", FieldConfig avatarSelector "User display name" "Alfonso") ]) ].

(** ** Loading and saving a page *)

(** The handler of the [catch] block builds its message from [fileName],
    which is declared with [const] inside the [try] block and is out of
    scope there: evaluating the template throws a [ReferenceError], whatever
    was caught. *)
Definition loadHTMLFile (fileType : string) : M document :=
  tryCatch
    (match JS.get HTML_FILES fileType with
     | JS.Own fileName => readFile fileName
     | JS.Inherited => throw (TypeError "ERR_INVALID_ARG_TYPE")
     | JS.Undefined => throw (Error ("Unknown file type: " +:+ fileType))
     end)
    (fun error => throw (ReferenceError "fileName is not defined")).

Definition saveHTMLFile (d : document) (fileType : string) : M unit :=
  tryCatch
    (match JS.get HTML_FILES fileType with
     | JS.Own fileName => writeFile fileName d
     | JS.Inherited => throw (TypeError "ERR_INVALID_ARG_TYPE")
     | JS.Undefined => throw (Error ("Unknown file type: " +:+ fileType))
     end)
    (fun error =>
       throw (Error ("Failed to save " +:+ fileType +:+ " file: " +:+ message error))).

(** ** The loops over matched elements *)

(** [text && !isNaN(parseFloat(text)) && text !== "â‚¬"] *)
Definition numericText (text : string) : bool :=
  JS.truthy text && negb (JS.parseFloatIsNaN text) && negb (String.eqb text euro).

(** The element at which an [each] loop that returns [false] on its first
    numeric text stops. *)
Fixpoint firstNumeric (elements : list path) (d : document) : option path :=
  match elements with
  | [] => None
  | elem :: r =>
      if numericText (JS.trim (textAt elem d)) then Some elem else firstNumeric r d
  end.

(** An [each] loop that rewrites an element when a test on its trimmed text
    holds and goes on to the next one.  The elements were collected before
    the loop, in document order, so when the callback reaches an element
    nothing inside it was rewritten yet: its text is the one it had when
    the loop started, also when an enclosing element was rewritten in the
    meantime (the element is then detached and its rewriting does not show
    in the page).  The flag tells whether the test held at least once. *)
Definition eachWhere (test : string -> bool) (elements : list path) (v : string)
    (d : document) : document * bool :=
  fold_left
    (fun '(cur, hit) elem =>
       if test (JS.trim (textAt elem d)) then (setText elem v cur, true) else (cur, hit))
    elements (d, false).

(** [!formattedDigits.startsWith("...")] and the rewriting that follows *)
Definition formattedDigits (newCardDigits : string) : string :=
  if negb (JS.startsWith "..." newCardDigits)
  then "..." +:+ JS.stripLeadingDots newCardDigits
  else newCardDigits.

Definition isEmpty {A : Type} (l : list A) : bool :=
  match l with [] => true | _ :: _ => false end.

(** ** Global propagation *)

(** The body of the loop of [updateCardDigitsGlobally] for one page, once
    the page is loaded: the page after the update and the [updated] flag. *)
Definition cardDigitsIn (fileType newCardDigits : string) (d : document) : document * bool :=
  if String.eqb fileType "openbank" then
    let cardDigitsElement := select cardTitleSelector d in
    if negb (isEmpty cardDigitsElement)
    then (setTextAll cardDigitsElement (formattedDigits newCardDigits) d, true)
    else (d, false)
  else if String.eqb fileType "transfers" then
    let cardDigitsElement := select dropdownIbanSelector d in
    if negb (isEmpty cardDigitsElement)
    then (setTextAll cardDigitsElement (formattedDigits newCardDigits) d, true)
    else (d, false)
  else (d, false).

(** The counters are what the function logs when it is done; its return
    value is [true].  A target that throws is counted in neither. *)
Definition updateCardDigitsGlobally (newCardDigits : string) : M (nat * nat) :=
  forOf ["openbank"; "transfers"]
    (fun fileType '(updatedCount, skippedCount) =>
       tryCatch
         (let* d := loadHTMLFile fileType in
          let '(d', updated) := cardDigitsIn fileType newCardDigits d in
          if updated
          then let* _ := saveHTMLFile d' fileType in ret (S updatedCount, skippedCount)
          else ret (updatedCount, S skippedCount))
         (fun fileError => ret (updatedCount, skippedCount)))
    (0, 0).

Definition accountBalanceIn (fileType newAccountBalance : string) (d : document)
  : document * bool :=
  if String.eqb fileType "openbank" then
    match firstNumeric (select accountTotalSelector d) d with
    | Some elem => (setText elem newAccountBalance d, true)
    | None => (d, false)
    end
  else if String.eqb fileType "transfers" then
    eachWhere numericText (select dropdownAmountSelector d) newAccountBalance d
  else (d, false).

(** Here a target that throws is counted as skipped. *)
Definition updateAccountBalanceGlobally (newAccountBalance : string) : M (nat * nat) :=
  forOf ["openbank"; "transfers"]
    (fun fileType '(updatedCount, skippedCount) =>
       tryCatch
         (let* d := loadHTMLFile fileType in
          let '(d', updated) := accountBalanceIn fileType newAccountBalance d in
          if updated
          then let* _ := saveHTMLFile d' fileType in ret (S updatedCount, skippedCount)
          else ret (updatedCount, S skippedCount))
         (fun fileError => ret (updatedCount, S skippedCount)))
    (0, 0).

(** The [ignore] list of the glob. *)
Definition ignored (filePath : string) : bool :=
  JS.startsWith "node_modules/" filePath
  || JS.includes "/node_modules/" filePath
  || String.eqb filePath "admin-dashboard.html"
  || String.eqb filePath "integration-example.html"
  || JS.includes "_files/" filePath.

(** [s.split(sep)] for a separator of one character. *)
Fixpoint splitOn (sep : ascii) (s : string) : list string :=
  match s with
  | EmptyString => [EmptyString]
  | String c r =>
      if Ascii.eqb c sep then EmptyString :: splitOn sep r
      else match splitOn sep r with
           | p :: ps => String c p :: ps
           | [] => [String c EmptyString]
           end
  end.

(** The pattern ["**/*.{html,htm}"], for a path relative to the working
    directory: the name of the file ends in [.html] or [.htm], and neither
    it nor a directory on the way begins with a dot ([glob] leaves such
    entries out unless asked for them). *)
Definition globbed (filePath : string) : bool :=
  let segments := splitOn "/" filePath in
  forallb (fun segment => negb (JS.startsWith "." segment)) segments
  && (JS.endsWith ".html" (List.last segments EmptyString)
      || JS.endsWith ".htm" (List.last segments EmptyString)).

(** [glob.sync("**/*.{html,htm}", { ignore })] *)
Definition htmlFiles (fs : gmap string file) : list string :=
  List.filter (fun filePath => globbed filePath && negb (ignored filePath))
              (map fst (map_to_list fs)).

(** [oldName && oldName !== newAvatarName] *)
Definition staleName (newAvatarName oldName : string) : bool :=
  JS.truthy oldName && negb (String.eqb oldName newAvatarName).

(** The body of the loop of [updateAvatarNameGlobally] for one file. *)
Definition avatarInFile (newAvatarName filePath : string) (counts : nat * nat)
  : M (nat * nat) :=
  let '(updatedCount, skippedCount) := counts in
  tryCatch
    (let* d := readFile filePath in
     let avatarNameElements := select avatarSelector d in
     if negb (isEmpty avatarNameElements) then
       let '(d', elementUpdated) :=
         eachWhere (staleName newAvatarName) avatarNameElements newAvatarName d in
       if elementUpdated
       then let* _ := writeFile filePath d' in ret (S updatedCount, skippedCount)
       else ret (updatedCount, S skippedCount)
     else ret (updatedCount, S skippedCount))
    (fun fileError => ret (updatedCount, S skippedCount)).

Definition updateAvatarNameGlobally (newAvatarName : string) : M (nat * nat) :=
  fun fs => forOf (htmlFiles fs) (avatarInFile newAvatarName) (0, 0) fs.

(** ** Local rules of the four pages *)

(** [newBalances.k && newBalances.k !== ""] *)
Definition given (newBalances : gmap string string) (k : string) : option string :=
  match newBalances !! k with
  | Some v => if JS.truthy v then Some v else None
  | None => None
  end.

(** The three loops of [updateOpenbankValues] that stop at the first
    numeric text.  The value is read off [newBalances] without a test; when
    the field is missing [.text(undefined)] only reads. *)
Definition writeFirstNumeric (s : selector) (v : option string) (d : document) : document :=
  match firstNumeric (select s d) d with
  | Some elem => setTextOpt [elem] v d
  | None => d
  end.

(** // Update Account Total Balance *)
Definition updateAccountTotal (newBalances : gmap string string) (d : document) : document :=
  writeFirstNumeric accountTotalSelector (newBalances !! "accountTotalBalance") d.

(** // Update Individual Account Balance *)
Definition updateIndividualAccount (newBalances : gmap string string) (d : document)
  : document :=
  writeFirstNumeric individualAccountSelector (newBalances !! "individualAccountBalance") d.

(** // Update Total Savings Balance *)
Definition updateTotalSavings (newBalances : gmap string string) (d : document) : document :=
  writeFirstNumeric totalBalanceAmountSelector (newBalances !! "totalSavingsBalance") d.

(** The template [`${newBalances.monthlyExpenses} â‚¬`] *)
Definition expensesText (newBalances : gmap string string) : string :=
  match newBalances !! "monthlyExpenses" with
  | Some v => v
  | None => "undefined"
  end +:+ " " +:+ euro.

(** // Update Monthly Expenses (Agosto): every matched element, no test. *)
Definition updateMonthlyExpenses (newBalances : gmap string string) (d : document)
  : document :=
  setTextAll (select monthlyExpensesSelector d) (expensesText newBalances) d.

(** The two blocks that go through a statement text: the first amount
    inside the section of the statement. *)
Definition sectionAmount (phrase : string) (d : document) : list path :=
  first (find totalBalanceAmountSelector
              (closest totalbalanceSection (select (statementSelector phrase) d) d) d).

Definition updateSection (phrase : string) (v : option string) (d : document) : document :=
  if negb (isEmpty (closest totalbalanceSection (select (statementSelector phrase) d) d))
  then setTextOpt (sectionAmount phrase d) v d
  else d.

Definition updateOpenbankValues (d : document) (newBalances : gmap string string)
  : document :=
  let d := updateAccountTotal newBalances d in
  let d := updateIndividualAccount newBalances d in
  let d := updateTotalSavings newBalances d in
  let d := updateMonthlyExpenses newBalances d in
  let d := updateSection "Total savings and investments"
                         (newBalances !! "savingsInvestmentsTotal") d in
  updateSection "Total Lending" (newBalances !! "totalLending") d.

(** The blocks of the other pages: [if (field given) { const e = $(sel);
    if (e.length > 0) e.text(value) }]. *)
Definition writeGiven (s : selector) (v : option string) (d : document) : document :=
  match v with
  | Some value =>
      let element := select s d in
      if negb (isEmpty element) then setTextAll element value d else d
  | None => d
  end.

Definition updateDirectDebitsValues (d : document) (newBalances : gmap string string)
  : document :=
  let d := writeGiven accountsBalanceSelector (given newBalances "accountsBalanceAmount") d in
  let d := writeGiven ibanSelector
                      (formattedDigits <$> given newBalances "cardLastDigits") d in
  let d := writeGiven availableAmountSelector (given newBalances "availableAmount") d in
  writeGiven availableCurrencySelector (given newBalances "availableCurrency") d.

Definition updateCardsValues (d : document) (newBalances : gmap string string) : document :=
  writeGiven cardNumberSelector (given newBalances "cardLastDigits") d.

(** // Update Account Balance amounts: every numeric element. *)
Definition updateAccountAmounts (newBalances : gmap string string) (d : document)
  : document :=
  match given newBalances "accountBalance" with
  | Some v => fst (eachWhere numericText (select dropdownAmountSelector d) v d)
  | None => d
  end.

Definition updateTransfersValues (d : document) (newBalances : gmap string string)
  : document :=
  let d := updateAccountAmounts newBalances d in
  writeGiven dropdownIbanSelector (formattedDigits <$> given newBalances "cardLastDigits") d.

(** ** The update entry point *)

(** Lines 688 to 722: the three global steps.  The result is the value of
    [newBalances] when the local rules start. *)
Definition globalSteps (newBalances : gmap string string) (fileType : string)
  : M (gmap string string) :=
  let* newBalances :=
    match given newBalances "cardLastDigits" with
    | Some digits =>
        if String.eqb fileType "openbank" || String.eqb fileType "transfers"
        then let* _ := updateCardDigitsGlobally digits in
             ret (delete "cardLastDigits" newBalances)
        else ret newBalances
    | None => ret newBalances
    end in
  let* _ :=
    match given newBalances "accountTotalBalance" with
    | Some balance =>
        if String.eqb fileType "openbank"
        then let* _ := updateAccountBalanceGlobally balance in ret tt
        else ret tt
    | None => ret tt
    end in
  match given newBalances "avatarName" with
  | Some name =>
      let* _ := updateAvatarNameGlobally name in
      ret (delete "avatarName" newBalances)
  | None => ret newBalances
  end.

(** [$] is the page the caller loaded; the local rules rewrite it in place.
    The result is that page after the call. *)
Definition updateBalanceValues (d : document) (newBalances : gmap string string)
    (fileType : string) : M document :=
  let* newBalances := globalSteps newBalances fileType in
  if String.eqb fileType "openbank" then ret (updateOpenbankValues d newBalances)
  else if String.eqb fileType "directDebits" then ret (updateDirectDebitsValues d newBalances)
  else if String.eqb fileType "cards" then ret (updateCardsValues d newBalances)
  else if String.eqb fileType "transfers" then ret (updateTransfersValues d newBalances)
  else throw (Error ("Unknown file type: " +:+ fileType)).

(** ** Extraction *)

(** The loops that keep the first numeric text, else the initial value. *)
Definition readFirstNumeric (s : selector) (initial : string) (d : document) : string :=
  match firstNumeric (select s d) d with
  | Some elem => JS.trim (textAt elem d)
  | None => initial
  end.

(** [a || b] on strings *)
Definition orElse (a b : string) : string := if JS.truthy a then a else b.

(** The avatar block shared by the four extract functions. *)
Definition readAvatarName (d : document) : string :=
  let avatarNameElement := first (select avatarSelector d) in
  if negb (isEmpty avatarNameElement)
  then orElse (JS.trim (text avatarNameElement d)) "Alfonso"
  else "Alfonso".

Definition readMonthlyExpenses (d : document) : string :=
  let monthlyExpensesElements := select monthlyExpensesSelector d in
  if negb (isEmpty monthlyExpensesElements) then
    let t := JS.removeFirst (" " +:+ euro)
                            (JS.trim (text (first monthlyExpensesElements) d)) in
    if JS.truthy t && negb (JS.parseFloatIsNaN t) then t else "0.00"
  else "0.00".

Definition readSection (phrase : string) (d : document) : string :=
  if negb (isEmpty (closest totalbalanceSection (select (statementSelector phrase) d) d))
  then
    let amountText := JS.trim (text (sectionAmount phrase d) d) in
    if numericText amountText then amountText else "0.00"
  else "0.00".

Definition readCardTitle (d : document) : string :=
  let cardDigitsElement := select cardTitleSelector d in
  if negb (isEmpty cardDigitsElement)
  then orElse (JS.trim (text cardDigitsElement d)) "...2150"
  else "...2150".

(** The cheerio calls of the model do not throw, so the [catch] blocks of
    the extract functions, which return the same initial values, are never
    entered. *)
Definition extractOpenbankValues (d : document) : gmap string string :=
  <["cardLastDigits" := readCardTitle d]>
  (<["avatarName" := readAvatarName d]>
  (<["totalLending" := readSection "Total Lending" d]>
  (<["savingsInvestmentsTotal" := readSection "Total savings and investments" d]>
  (<["monthlyExpenses" := readMonthlyExpenses d]>
  (<["totalSavingsBalance" := readFirstNumeric totalBalanceAmountSelector "0.00" d]>
  (<["individualAccountBalance" := readFirstNumeric individualAccountSelector "0.00" d]>
  (<["accountTotalBalance" := readFirstNumeric accountTotalSelector "430.26" d]> ∅))))))).

Definition readOr (s : selector) (initial : string) (d : document) : string :=
  orElse (JS.trim (text (select s d) d)) initial.

Definition extractDirectDebitsValues (d : document) : gmap string string :=
  <["avatarName" := readAvatarName d]>
  (<["availableCurrency" := readOr availableCurrencySelector euro d]>
  (<["availableAmount" := readOr availableAmountSelector "0.00" d]>
  (<["cardLastDigits" := readOr ibanSelector "...2150" d]>
  (<["accountsBalanceAmount" := readOr accountsBalanceSelector "0.00" d]> ∅)))).

Definition extractCardsValues (d : document) : gmap string string :=
  <["avatarName" := readAvatarName d]>
  (<["cardLastDigits" := readOr cardNumberSelector "1704" d]> ∅).

Definition extractTransfersValues (d : document) : gmap string string :=
  <["avatarName" := readAvatarName d]>
  (<["accountBalance" := readFirstNumeric dropdownAmountSelector "0.00" d]>
  (<["cardLastDigits" := readOr dropdownIbanSelector "...2150" d]> ∅)).

(** The generic loop at the end of [extractBalanceValues]: the first
    non-empty trimmed text, else the registered default. *)
Fixpoint firstText (elements : list path) (d : document) : option string :=
  match elements with
  | [] => None
  | elem :: r =>
      if JS.truthy (JS.trim (textAt elem d)) then Some (JS.trim (textAt elem d))
      else firstText r d
  end.

Definition extractGeneric (entries : list (string * fieldConfig)) (d : document)
  : gmap string string :=
  fold_left
    (fun balances '(fieldName, config) =>
       <[fieldName := default (fc_defaultValue config)
                              (firstText (select (fc_selector config) d) d)]> balances)
    entries ∅.

(** [FIELD_CONFIGS[fileType]] is read through the prototype chain, so the
    test [!fieldConfig] lets the keys of [Object.prototype] through; the
    value found there has no own enumerable entries. *)
Definition extractBalanceValues (d : document) (fileType : string)
  : exn + gmap string string :=
  match JS.get FIELD_CONFIGS fileType with
  | JS.Undefined => inl (Error ("Unknown file type: " +:+ fileType))
  | fieldConfig =>
      if String.eqb fileType "openbank" then inr (extractOpenbankValues d)
      else if String.eqb fileType "directDebits" then inr (extractDirectDebitsValues d)
      else if String.eqb fileType "cards" then inr (extractCardsValues d)
      else if String.eqb fileType "transfers" then inr (extractTransfersValues d)
      else inr (extractGeneric
                  (match fieldConfig with JS.Own entries => entries | _ => [] end) d)
  end.

(** ** The two balance routes *)

(** [GET /api/current-balances]: answers 500 with the message of what was
    thrown, else the extracted record.  The argument is the [fileType] of
    the query, the empty text when the query has none: both count as not
    given, [req.query.fileType || "openbank"]. *)
Definition getCurrentBalances (query : string) : M (gmap string string) :=
  let fileType := orElse query "openbank" in
  let* d := loadHTMLFile fileType in
  match extractBalanceValues d fileType with
  | inr balances => ret balances
  | inl e => throw e
  end.

(** [POST /api/update-balances] with a [balances] object and a [fileType]
    in the body. *)
Definition postUpdateBalances (balances : gmap string string) (fileType : string)
  : M unit :=
  let* d := loadHTMLFile fileType in
  let* d' := updateBalanceValues d balances fileType in
  saveHTMLFile d' fileType.

(** The files after a computation, and what it answered. *)
Definition filesAfter {A : Type} (c : M A) (fs : gmap string file) : gmap string file :=
  snd (c fs).

Definition answer {A : Type} (c : M A) (fs : gmap string file) : exn + A :=
  fst (c fs).

End Server.

(** ** Sample pages and notions used to state the properties *)

(** The children of an element that shows a text: a parsed page has no
    empty text node. *)
Definition shown (s : string) : list node :=
  match s with
  | EmptyString => []
  | String _ _ => [Text s]
  end.

Definition spanOf (s : string) : node := Elem "span" None [] (shown s).

Definition divOf (class : string) (children : list node) : node :=
  Elem "div" None [class] children.

Definition avatarOf (name : string) : node :=
  divOf "avatar-component__alias" [Elem "span" None [] [spanOf name]].

(** A main page: a total balance, an account balance, the card digits,
    the expenses of the month and the user name. *)
Definition mainPage : document :=
  [ divOf "glb-position-financial-card-header-col__amount"
      [Elem "span" None [] [spanOf "430.26"; spanOf euro]];
    divOf "glb-position-financial-card-item__amount"
      [Elem "span" None [] [spanOf "120.00"; spanOf euro]];
    divOf "glb-position-financial-card-item__title--small" [Text "...9999"];
    divOf "expenses-summary-box__header__expenses--total" [Text ("15.00 " +:+ euro)];
    avatarOf "Alfonso" ].

Definition directDebitsPage : document :=
  [ divOf "accounts-balance__amount" [Text "50.00"];
    divOf "accounts-box-header__iban" [Text "...9999"];
    avatarOf "Alfonso" ].

Definition cardsPage : document :=
  [ Elem "div" None
      ["card__card-number--small"; "card__card-number--show"; "card__card-number--only-number"]
      [spanOf "****"; spanOf "9876"];
    avatarOf "Alfonso" ].

(** A transfers page with two account rows. *)
Definition transfersPage : document :=
  [ divOf "dropdown-accounts__account-description-iban" [Text "...9999"];
    divOf "dropdown-accounts__account-description-amount" [spanOf "430.26"; spanOf euro];
    divOf "dropdown-accounts__account-description-amount" [spanOf "75.10"; spanOf euro];
    avatarOf "Alfonso" ].

Definition projectFiles : gmap string file :=
  <["Openbank.html" := File true mainPage]>
  (<["Openbank-direct-debits.html" := File true directDebitsPage]>
  (<["Openbank-cards.html" := File true cardsPage]>
  (<["Openbank-transfers.html" := File true transfersPage]> ∅))).

(** The page a file holds, [] when the file is missing. *)
Definition pageOf (fs : gmap string file) (filePath : string) : document :=
  match fs !! filePath with
  | Some f => content f
  | None => []
  end.

(** A string of dots only. *)
Fixpoint onlyDots (s : string) : bool :=
  match s with
  | EmptyString => true
  | String c r => Ascii.eqb c "." && onlyDots r
  end.

Section Notions.

Context {html : RoundTrip}.

(** The page a writable file holds after one target of a global update
    went over it: what the changed page is parsed back to when the change
    reports a hit, else the page as it was. *)
Definition saved (change : document -> document * bool) (d : document) : document :=
  if snd (change d) then reload (fst (change d)) else d.

(** What one target of a global update does to the files: the page of the file
    is changed and written back when the change reports a hit and the file
    can be written; in every other case the files stay as they are. *)
Definition rewriteFile (filePath : string) (change : document -> document * bool)
    (fs : gmap string file) : gmap string file :=
  match fs !! filePath with
  | Some f =>
      if snd (change (content f)) && writable f
      then <[filePath := File true (reload (fst (change (content f))))]> fs
      else fs
  | None => fs
  end.

(** Whether that target ends up rewritten, skipped (nothing to change) or
    failed (the file cannot be read or written). *)
Inductive outcome : Type := Rewritten | Skipped | Failed.

Definition outcomeOf (filePath : string) (change : document -> document * bool)
    (fs : gmap string file) : outcome :=
  match fs !! filePath with
  | Some f =>
      if snd (change (content f))
      then if writable f then Rewritten else Failed
      else Skipped
  | None => Failed
  end.

(** The counters after a target, in a function that counts a failure as
    skipped and in one that does not count it. *)
Definition tally (countFailure : bool) (o : outcome) (counts : nat * nat) : nat * nat :=
  match o with
  | Rewritten => (S (fst counts), snd counts)
  | Skipped => (fst counts, S (snd counts))
  | Failed => if countFailure then (fst counts, S (snd counts)) else counts
  end.

(** The change the name update makes to one page. *)
Definition avatarChange (newAvatarName : string) (d : document) : document * bool :=
  eachWhere (staleName newAvatarName) (select avatarSelector d) newAvatarName d.

(** Whether the card digits of a request are propagated: the field is
    given and the request is for the main or the transfers page. *)
Definition propagatesDigits (newBalances : gmap string string) (fileType : string) : bool :=
  match given newBalances "cardLastDigits" with
  | Some _ => String.eqb fileType "openbank" || String.eqb fileType "transfers"
  | None => false
  end.

(** The record the local rules receive. *)
Definition workingSet (newBalances : gmap string string) (fileType : string)
  : gmap string string :=
  let nb := if propagatesDigits newBalances fileType
            then delete "cardLastDigits" newBalances else newBalances in
  match given nb "avatarName" with
  | Some _ => delete "avatarName" nb
  | None => nb
  end.

(** The files after each global update and after the global steps. *)
Definition cardDigitsFiles (v : string) (fs : gmap string file) : gmap string file :=
  rewriteFile "Openbank-transfers.html" (cardDigitsIn "transfers" v)
    (rewriteFile "Openbank.html" (cardDigitsIn "openbank" v) fs).

Definition accountBalanceFiles (v : string) (fs : gmap string file) : gmap string file :=
  rewriteFile "Openbank-transfers.html" (accountBalanceIn "transfers" v)
    (rewriteFile "Openbank.html" (accountBalanceIn "openbank" v) fs).

Definition avatarFiles (name : string) (fs : gmap string file) : gmap string file :=
  fold_left (fun fs' p => rewriteFile p (avatarChange name) fs') (htmlFiles fs) fs.

Definition globalFiles (newBalances : gmap string string) (fileType : string)
    (fs : gmap string file) : gmap string file :=
  let fs1 := match given newBalances "cardLastDigits" with
             | Some digits =>
                 if String.eqb fileType "openbank" || String.eqb fileType "transfers"
                 then cardDigitsFiles digits fs else fs
             | None => fs
             end in
  let fs2 := match given newBalances "accountTotalBalance" with
             | Some balance =>
                 if String.eqb fileType "openbank" then accountBalanceFiles balance fs1 else fs1
             | None => fs1
             end in
  match given (if propagatesDigits newBalances fileType
               then delete "cardLastDigits" newBalances else newBalances) "avatarName" with
  | Some name => avatarFiles name fs2
  | None => fs2
  end.

(** The selectors the extract function of a page queries. *)
Definition locators (fileType : string) : list selector :=
  if String.eqb fileType "openbank" then
    [ accountTotalSelector; individualAccountSelector; totalBalanceAmountSelector;
      monthlyExpensesSelector; statementSelector "Total savings and investments";
      statementSelector "Total Lending"; avatarSelector; cardTitleSelector ]
  else if String.eqb fileType "directDebits" then
    [ accountsBalanceSelector; ibanSelector; availableAmountSelector;
      availableCurrencySelector; avatarSelector ]
  else if String.eqb fileType "cards" then [ cardNumberSelector; avatarSelector ]
  else if String.eqb fileType "transfers" then
    [ dropdownIbanSelector; dropdownAmountSelector; avatarSelector ]
  else [].

(** The default [FIELD_CONFIGS] registers for a field of a page. *)
Definition registeredDefault (fileType field : string) : option string :=
  match JS.assoc fileType FIELD_CONFIGS with
  | Some entries => fc_defaultValue <$> JS.assoc field entries
  | None => None
  end.

(** The initial values of the extract functions, which are also the records
    their [catch] blocks return. *)
Definition initialValues (fileType : string) : gmap string string :=
  if String.eqb fileType "openbank" then
    <["accountTotalBalance" := "430.26"]>
    (<["individualAccountBalance" := "0.00"]>
    (<["totalSavingsBalance" := "0.00"]>
    (<["monthlyExpenses" := "0.00"]>
    (<["savingsInvestmentsTotal" := "0.00"]>
    (<["totalLending" := "0.00"]>
    (<["avatarName" := "Alfonso"]>
    (<["cardLastDigits" := "...2150"]> ∅)))))))
  else if String.eqb fileType "directDebits" then
    <["accountsBalanceAmount" := "0.00"]>
    (<["cardLastDigits" := "...2150"]>
    (<["availableAmount" := "0.00"]>
    (<["availableCurrency" := euro]>
    (<["avatarName" := "Alfonso"]> ∅))))
  else if String.eqb fileType "cards" then
    <["cardLastDigits" := "1704"]> (<["avatarName" := "Alfonso"]> ∅)
  else if String.eqb fileType "transfers" then
    <["cardLastDigits" := "...2150"]>
    (<["accountBalance" := "0.00"]>
    (<["avatarName" := "Alfonso"]> ∅))
  else ∅.

Definition registeredTypes : list string := ["openbank"; "directDebits"; "cards"; "transfers"].

(** A page on which none of the selectors finds anything. *)
Definition maintenancePage : document := [Elem "p" None [] [Text "Back soon"]].

(** The local rules of the page of a request. *)
Definition localRules (fileType : string) (d : document) (working : gmap string string)
  : document :=
  if String.eqb fileType "openbank" then updateOpenbankValues d working
  else if String.eqb fileType "directDebits" then updateDirectDebitsValues d working
  else if String.eqb fileType "cards" then updateCardsValues d working
  else if String.eqb fileType "transfers" then updateTransfersValues d working
  else d.

(** A matched name element that the name update rewrites. *)
Definition stale (name : string) (d : document) (p : path) : bool :=
  staleName name (JS.trim (textAt p d)).

Definition isRewritten (o : outcome) : bool :=
  match o with Rewritten => true | _ => false end.

(** Two pages with name elements that show nothing. *)
Definition blankNamePage : document := [avatarOf ""].
Definition mixedNamesPage : document := [avatarOf "Bob"; avatarOf ""].

Definition nameFiles : gmap string file :=
  <["blank.html" := File true blankNamePage]>
  (<["mixed.html" := File true mixedNamesPage]> ∅).

(** A main page that shows two totals. *)
Definition twoTotalsPage : document :=
  [ divOf "glb-position-financial-card-header-col__amount"
      [Elem "span" None [] [spanOf "430.26"; spanOf euro]];
    divOf "glb-position-financial-card-header-col__amount"
      [Elem "span" None [] [spanOf "99.00"; spanOf euro]] ].

(** No matched element lies inside another one. *)
Definition unnested (sel : list path) : Prop :=
  forall p q, p ∈ sel -> q ∈ sel -> ~ encloses p q.

(** A main file whose page shows two totals. *)
Definition twoTotalsFiles : gmap string file :=
  {[ "Openbank.html" := File true twoTotalsPage ]}.

(** The file exists and can be overwritten. *)
Definition canWrite (fs : gmap string file) (filePath : string) : Prop :=
  exists f, fs !! filePath = Some f /\ writable f = true.

End Notions.

(** ** The round trip of the examples *)

Definition voidTags : list string :=
  [ "area"; "base"; "br"; "col"; "embed"; "hr"; "img"; "input"; "link"; "meta";
    "param"; "source"; "track"; "wbr" ].

(** What the round trip does to the pages of the examples, which are made
    of [div], [span], [p] and table elements around texts that are not
    empty: they come back as they are.  A void element comes back without
    children. *)
Fixpoint withoutVoidChildren (n : node) : node :=
  match n with
  | Text s => Text s
  | Elem t a c ks =>
      if existsb (String.eqb t) voidTags then Elem t a c []
      else Elem t a c (map withoutVoidChildren ks)
  end.

Definition exampleRoundTrip : RoundTrip := map withoutVoidChildren.

(** ** Notions used for the further properties *)

(** The six amounts of the main page. *)
Definition mainAmounts : list string :=
  [ "accountTotalBalance"; "individualAccountBalance"; "totalSavingsBalance";
    "monthlyExpenses"; "savingsInvestmentsTotal"; "totalLending" ].

(** A project directory that also holds the two pages the name update
    leaves out, a page that cannot be written and a page without a name. *)
Definition sideFiles : gmap string file :=
  <["admin-dashboard.html" := File true [avatarOf "Alfonso"]]>
  (<["locked.html" := File false [avatarOf "Alfonso"]]>
  (<["about.html" := File true maintenancePage]>
  (<["Openbank-cards.html" := File true cardsPage]> ∅))).

(** The selectors whose matches the local rules of a page rewrite (the
    three pages whose rules go by structure only). *)
Definition rewrittenBy (fileType : string) : list selector :=
  if String.eqb fileType "directDebits" then
    [ accountsBalanceSelector; ibanSelector; availableAmountSelector;
      availableCurrencySelector ]
  else if String.eqb fileType "cards" then [ cardNumberSelector ]
  else if String.eqb fileType "transfers" then [ dropdownAmountSelector; dropdownIbanSelector ]
  else [].

(** An amount written with digits and dots only, beginning with a digit. *)
Fixpoint digitsAndDots (s : string) : bool :=
  match s with
  | EmptyString => true
  | String c r => (JS.isDigit c || Ascii.eqb c ".") && digitsAndDots r
  end.

Definition plainAmount (s : string) : bool := JS.startsWithDigit s && digitsAndDots s.

(** The amounts of the main page other than the monthly expenses. *)
Definition otherAmounts : list string :=
  [ "accountTotalBalance"; "individualAccountBalance"; "totalSavingsBalance";
    "savingsInvestmentsTotal"; "totalLending" ].

(** ** The recipients route *)

Record recipient : Type := Recipient {
  r_id : string;
  r_alias : string;
  r_account : string;
  r_currency : string;
  r_country : string
}.

Definition summarySelector : selector := Selector [] (cls "transfers-agenda-summary").

(** [table tbody tr] *)
Definition rowSelector : selector :=
  Selector [tagged "table"; tagged "tbody"] (tagged "tr").

(** [.transfers-agenda-table-row__alias-column p] *)
Definition aliasSelector : selector :=
  Selector [cls "transfers-agenda-table-row__alias-column"] (tagged "p").

Definition accountSelector : selector :=
  Selector [] (cls "transfers-agenda-table-row__account-column").

Definition currencySelector : selector :=
  Selector [] (cls "transfers-agenda-table-row__currency-column").

Definition countrySelector : selector :=
  Selector [] (cls "transfers-agenda-table-row__country-column").

(** [$row.find(selector).text().trim()] *)
Definition cellText (s : selector) (row : path) (d : document) : string :=
  JS.trim (text (find s [row] d) d).

(** [`recipient_${Date.now()}_${i}`]: both numbers are integers that
    print in plain decimal notation. *)
Definition recipientId (now i : nat) : string :=
  "recipient_" +:+ pretty now +:+ "_" +:+ pretty i.

(** The callback of the [each] loop for the row of index [i]; [now] is what
    [Date.now()] answers when the row is pushed. *)
Definition recipientOfRow (now i : nat) (row : path) (d : document) : option recipient :=
  let alias := cellText aliasSelector row d in
  let account := cellText accountSelector row d in
  let currency := cellText currencySelector row d in
  let country := cellText countrySelector row d in
  if JS.truthy alias && JS.truthy account
  then Some (Recipient (recipientId now i) alias account
                       (orElse currency euro) (orElse country "ES"))
  else None.

(** The loop over the rows, from index [i] on; [clock i] is the time at the
    callback of index [i]. *)
Fixpoint eachRow (clock : nat -> nat) (i : nat) (rows : list path) (d : document)
  : list recipient :=
  match rows with
  | [] => []
  | row :: r =>
      match recipientOfRow (clock i) i row d with
      | Some rec => rec :: eachRow clock (S i) r d
      | None => eachRow clock (S i) r d
      end
  end.

(** The rows of the first summary of the page. *)
Definition recipientRows (d : document) : list path :=
  find rowSelector (first (select summarySelector d)) d.

(** [GET /api/transfer-recipients]: the recipients of the answer, or the
    error of the 500 answer.  The argument is the [fileType] of the query,
    the empty text when the query has none,
    [req.query.fileType || "transfers"]. *)
Definition getTransferRecipients (clock : nat -> nat) (query : string)
  : M (list recipient) :=
  let fileType := orElse query "transfers" in
  let* d := loadHTMLFile fileType in
  ret (eachRow clock 0 (recipientRows d) d).

(** A transfers page with an agenda: two complete rows, one without an
    alias, and a second summary that repeats the first row. *)
Definition cellOf (column : string) (children : list node) : node :=
  Elem "td" None ["transfers-agenda-table-row__" +:+ column] children.

Definition rowOf (alias account currency country : string) : node :=
  Elem "tr" None []
    [ cellOf "alias-column" [Elem "p" None [] (shown alias)];
      cellOf "account-column" (shown account);
      cellOf "currency-column" (shown currency);
      cellOf "country-column" (shown country) ].

Definition agendaOf (rows : list node) : node :=
  divOf "transfers-agenda-summary"
    [Elem "table" None [] [Elem "tbody" None [] rows]].

Definition agendaPage : document :=
  [ agendaOf [ rowOf "Ana" "ES12 3456" "EUR" "ES";
               rowOf "" "ES99 0000" "EUR" "ES";
               rowOf "Luis" "PT50 0002" "" "" ];
    agendaOf [ rowOf "Ana" "ES12 3456" "EUR" "ES" ] ].

Definition agendaFiles : gmap string file :=
  {[ "Openbank-transfers.html" := File true agendaPage ]}.

(** A text of decimal digits only. *)
Fixpoint digitsOnly (s : string) : bool :=
  match s with
  | EmptyString => true
  | String c r => JS.isDigit c && digitsOnly r
  end.

(** ** The date and category helpers *)

Definition months : list (string * string) :=
  [ ("Jan", "01"); ("Feb", "02"); ("Mar", "03"); ("Apr", "04"); ("May", "05");
    ("Jun", "06"); ("Jul", "07"); ("Aug", "08"); ("Sep", "09"); ("Oct", "10");
    ("Nov", "11"); ("Dec", "12") ].

(** The UTF-16 code units of the character a byte of the text begins: none
    for a continuation byte, two for the first byte of a four-byte
    sequence. *)
Definition codeUnits (c : ascii) : nat :=
  let n := nat_of_ascii c in
  if (n <? 128)%nat then 1
  else if (n <? 192)%nat then 0
  else if (n <? 240)%nat then 1
  else 2.

(** [s.length] *)
Fixpoint jsLength (s : string) : nat :=
  match s with
  | EmptyString => 0
  | String c r => codeUnits c + jsLength r
  end.

(** [s.padStart(2, "0")] *)
Definition padStart2 (s : string) : string :=
  match jsLength s with
  | 0 => "00"
  | 1 => "0" +:+ s
  | _ => s
  end.

Section Builtins.

(** The text a template literal prints for the value an object literal
    inherits under a key of [Object.prototype]; for a built-in function it
    is the source text the engine chooses. *)
Variable builtinText : string -> string.

(** [`${months[key]}`] *)
Definition monthText (key : string) : string :=
  match JS.get months key with
  | JS.Own month => month
  | JS.Inherited => builtinText key
  | JS.Undefined => "undefined"
  end.

Definition convertDateToISO (dateText : string) : string :=
  match splitOn " " dateText with
  | [month; day] => monthText month +:+ "-" +:+ padStart2 day
  | _ => "01-01"
  end.

End Builtins.

(** How often a character occurs in a text. *)
Fixpoint occurrences (c : ascii) (s : string) : nat :=
  match s with
  | EmptyString => 0
  | String a r => (if Ascii.eqb a c then 1 else 0) + occurrences c r
  end.

Definition categoryIcon (n : string) : string :=
  "https://www.openbank.es/assets/static/images/categories/icons/category_" +:+ n +:+ ".png".

Definition categoryMap : list (string * string) :=
  [ ("category_1", categoryIcon "1"); ("category_5", categoryIcon "5");
    ("category_9", categoryIcon "9"); ("category_12", categoryIcon "12") ].

(** The value [getCategoryIconUrl] returns: the address of an icon, or the
    built-in function found under a key of [Object.prototype], which is
    truthy and so is returned as it is. *)
Inductive iconValue : Type :=
| Icon (url : string)
| Builtin (key : string).

(** [categoryMap[category] || categoryMap["category_9"]] *)
Definition getCategoryIconUrl (category : string) : iconValue :=
  match JS.get categoryMap category with
  | JS.Own url => if JS.truthy url then Icon url else Icon (categoryIcon "9")
  | JS.Inherited => Builtin category
  | JS.Undefined => Icon (categoryIcon "9")
  end.

(** The longest run of digits a text begins with, and what follows it. *)
Fixpoint takeDigits (s : string) : string * string :=
  match s with
  | String c r =>
      if JS.isDigit c then let '(ds, rest) := takeDigits r in (String c ds, rest)
      else (EmptyString, s)
  | EmptyString => (EmptyString, EmptyString)
  end.

(** A match of [/category_(\d+)\.png/] that begins where the text begins:
    the digits captured. *)
Definition matchCategoryHere (s : string) : option string :=
  if JS.startsWith "category_" s then
    let '(ds, rest) := takeDigits (JS.dropPrefix "category_" s) in
    if JS.truthy ds && JS.startsWith ".png" rest then Some ds else None
  else None.

(** [src.match(/category_(\d+)\.png/)]: the leftmost match. *)
Fixpoint matchCategory (s : string) : option string :=
  match matchCategoryHere s with
  | Some ds => Some ds
  | None =>
      match s with
      | EmptyString => None
      | String _ r => matchCategory r
      end
  end.

(** The category the direct-debits route reads off the address of the icon
    of a row; [None] stands for a row without an image address. *)
Definition categoryOfIcon (categoryImg : option string) : string :=
  match categoryImg with
  | Some src =>
      if JS.truthy src then
        match matchCategory src with
        | Some ds => "category_" +:+ ds
        | None => "category_9"
        end
      else "category_9"
  | None => "category_9"
  end.

(** ** The update functions as lists of writes *)

(** A run of [.text(v)] calls, one element each, in order. *)
Definition setEach (writes : list (path * string)) (d : document) : document :=
  fold_left (fun cur w => setText (fst w) (snd w) cur) writes d.

(** A block of an update function collects its elements on the page as it
    is when the block starts and then writes them: a rule gives the writes
    of a block for the page it starts on. *)
Definition rule : Type := document -> list (path * string).

Definition applyRule (r : rule) (d : document) : document := setEach (r d) d.

Definition applyRules (rs : list rule) (d : document) : document :=
  fold_left (fun cur r => applyRule r cur) rs d.

(** The writes a list of rules makes on a page, each rule taken on the
    page itself. *)
Definition writesOn (d : document) (rs : list rule) : list (path * string) :=
  flat_map (fun r : rule => r d) rs.

Definition withValue (v : string) (sel : list path) : list (path * string) :=
  map (fun p => (p, v)) sel.

Definition targets (writes : list (path * string)) : list path := map fst writes.

(** Every matched element. *)
Definition toAll (s : selector) (value : option string) : rule :=
  fun d =>
    match value with
    | Some v => withValue v (select s d)
    | None => []
    end.

(** Every matched element whose trimmed text passes a test. *)
Definition toEach (test : string -> bool) (s : selector) (value : option string) : rule :=
  fun d =>
    match value with
    | Some v => withValue v (List.filter (fun e => test (JS.trim (textAt e d))) (select s d))
    | None => []
    end.

(** The first matched element with a numeric text. *)
Definition toFirstNumeric (s : selector) (value : option string) : rule :=
  fun d =>
    match value with
    | Some v => withValue v (option_list (firstNumeric (select s d) d))
    | None => []
    end.

(** The first amount of the section of a statement. *)
Definition toSection (phrase : string) (value : option string) : rule :=
  fun d =>
    match value with
    | Some v => withValue v (sectionAmount phrase d)
    | None => []
    end.

Definition openbankRules (newBalances : gmap string string) : list rule :=
  [ toFirstNumeric accountTotalSelector (newBalances !! "accountTotalBalance");
    toFirstNumeric individualAccountSelector (newBalances !! "individualAccountBalance");
    toFirstNumeric totalBalanceAmountSelector (newBalances !! "totalSavingsBalance");
    toAll monthlyExpensesSelector (Some (expensesText newBalances));
    toSection "Total savings and investments" (newBalances !! "savingsInvestmentsTotal");
    toSection "Total Lending" (newBalances !! "totalLending") ].

Definition directDebitsRules (newBalances : gmap string string) : list rule :=
  [ toAll accountsBalanceSelector (given newBalances "accountsBalanceAmount");
    toAll ibanSelector (formattedDigits <$> given newBalances "cardLastDigits");
    toAll availableAmountSelector (given newBalances "availableAmount");
    toAll availableCurrencySelector (given newBalances "availableCurrency") ].

Definition cardsRules (newBalances : gmap string string) : list rule :=
  [ toAll cardNumberSelector (given newBalances "cardLastDigits") ].

Definition transfersRules (newBalances : gmap string string) : list rule :=
  [ toEach numericText dropdownAmountSelector (given newBalances "accountBalance");
    toAll dropdownIbanSelector (formattedDigits <$> given newBalances "cardLastDigits") ].

Definition rulesOf (fileType : string) (newBalances : gmap string string) : list rule :=
  if String.eqb fileType "openbank" then openbankRules newBalances
  else if String.eqb fileType "directDebits" then directDebitsRules newBalances
  else if String.eqb fileType "cards" then cardsRules newBalances
  else if String.eqb fileType "transfers" then transfersRules newBalances
  else [].

(** The rules of the global updates for one page. *)
Definition cardDigitsRule (fileType newCardDigits : string) : list rule :=
  if String.eqb fileType "openbank"
  then [toAll cardTitleSelector (Some (formattedDigits newCardDigits))]
  else if String.eqb fileType "transfers"
  then [toAll dropdownIbanSelector (Some (formattedDigits newCardDigits))]
  else [].

Definition accountBalanceRule (fileType newAccountBalance : string) : list rule :=
  if String.eqb fileType "openbank"
  then [toFirstNumeric accountTotalSelector (Some newAccountBalance)]
  else if String.eqb fileType "transfers"
  then [toEach numericText dropdownAmountSelector (Some newAccountBalance)]
  else [].

Definition avatarRule (newAvatarName : string) : rule :=
  toEach (staleName newAvatarName) avatarSelector (Some newAvatarName).

(** ** Pages on which the rules do not get in each other's way *)

Fixpoint prefixb (p q : path) : bool :=
  match p, q with
  | [], _ => true
  | i :: p', j :: q' => (i =? j)%nat && prefixb p' q'
  | _ :: _, [] => false
  end.

Definition apartb (p q : path) : bool := negb (prefixb p q) && negb (prefixb q p).

(** No two entries of the list are the same element or lie inside one
    another. *)
Fixpoint scattered (l : list path) : bool :=
  match l with
  | [] => true
  | p :: r => forallb (apartb p) r && scattered r
  end.

(** The statement elements, whatever they say. *)
Definition statementNodes : selector :=
  Selector [] (cls "glb-all-position-summary__statement").

(** The selectors whose elements are written when their text is numeric. *)
Definition amountSelectors : list selector :=
  [ accountTotalSelector; individualAccountSelector; totalBalanceAmountSelector;
    dropdownAmountSelector ].

(** The selectors whose elements are written whatever they show, or when
    they show another name. *)
Definition plainSelectors : list selector :=
  [ monthlyExpensesSelector; cardTitleSelector; avatarSelector; accountsBalanceSelector;
    ibanSelector; availableAmountSelector; availableCurrencySelector; cardNumberSelector;
    dropdownIbanSelector ].

Definition writeSelectors : list selector := amountSelectors ++ plainSelectors.

Definition matched (selectors : list selector) (d : document) : list path :=
  flat_map (fun s => select s d) selectors.

(** The elements the update functions may write are pairwise apart: none
    is matched by two of the selectors or twice, none lies inside another
    one; and no statement is one of them, lies inside one or has one
    inside. *)
Definition tidy (d : document) : bool :=
  scattered (matched writeSelectors d)
  && forallb (fun q => forallb (apartb q) (matched writeSelectors d)) (select statementNodes d).

(** The amount a section rule would write shows a number. *)
Definition sectionShowsNumber (phrase : string) (d : document) : bool :=
  forallb (fun p => numericText (JS.trim (textAt p d))) (sectionAmount phrase d).

(** The amounts of a request fit the page: a value that goes to an
    element chosen for its numeric text is numeric itself, and where a
    section rule writes, the amount it replaces is numeric too.  The main
    page takes a field as it comes, the transfers page when it is given. *)
Definition numericIfSent (value : option string) : bool :=
  match value with
  | Some v => numericText (JS.trim v)
  | None => true
  end.

Definition sectionFits (phrase : string) (value : option string) (d : document) : bool :=
  match value with
  | Some v => numericText (JS.trim v) && sectionShowsNumber phrase d
  | None => true
  end.

Definition amountsFit (fileType : string) (newBalances : gmap string string)
    (d : document) : bool :=
  if String.eqb fileType "openbank" then
    numericIfSent (newBalances !! "accountTotalBalance")
    && numericIfSent (newBalances !! "individualAccountBalance")
    && numericIfSent (newBalances !! "totalSavingsBalance")
    && sectionFits "Total savings and investments"
                   (newBalances !! "savingsInvestmentsTotal") d
    && sectionFits "Total Lending" (newBalances !! "totalLending") d
  else if String.eqb fileType "transfers" then
    numericIfSent (given newBalances "accountBalance")
  else true.

(** A write the development follows: a non-empty text put into one of the
    elements the rules may write, numeric where it replaces the text of an
    amount element, which was numeric too. *)
Definition allowed (x : document) (w : path * string) : Prop :=
  fst w ∈ matched writeSelectors x
  /\ snd w <> ""
  /\ (fst w ∈ matched amountSelectors x ->
      numericText (JS.trim (snd w)) = true
      /\ numericText (JS.trim (textAt (fst w) x)) = true).

(** A rule that makes the same writes after any such writes, and whose own
    writes are such writes. *)
Definition steady (x : document) (r : rule) : Prop :=
  (forall writes, Forall (allowed x) writes -> r (setEach writes x) = r x)
  /\ Forall (allowed x) (r x).

(** A page with two sections and their amounts. *)
Definition sectionOf (phrase amount : string) : node :=
  divOf "glb-all-position-summary__totalbalance-section"
    [ divOf "glb-all-position-summary__statement" [Text phrase];
      divOf "global-position-total-balance__amount" [spanOf amount; spanOf euro] ].

Definition summaryPage : document :=
  [ divOf "glb-position-financial-card-header-col__amount"
      [Elem "span" None [] [spanOf "430.26"; spanOf euro]];
    divOf "global-position-total-balance__amount" [spanOf "900.00"; spanOf euro];
    sectionOf "Total savings and investments" "700.00";
    sectionOf "Total Lending" "200.00";
    avatarOf "Alfonso" ].

(** No void element in the page. *)
Fixpoint noVoid (n : node) : bool :=
  match n with
  | Text _ => true
  | Elem t _ _ ks =>
      negb (existsb (String.eqb t) voidTags)
      && (fix go (l : list node) : bool :=
            match l with
            | [] => true
            | k :: r => noVoid k && go r
            end) ks
  end.

Definition noVoids (d : document) : bool := forallb noVoid d.

(** The children of an element after a run of writes, when every write
    goes to the element or apart from it. *)
Definition kidsAfter (q : path) (writes : list (path * string)) (ks : list node) : list node :=
  fold_left (fun cur w => if bool_decide (fst w = q) then [Text (snd w)] else cur) writes ks.

(** Whether the text of a node holds a phrase, and a compound selector
    without its [:contains]. *)
Definition shows (phrase : string) (o : option node) : bool :=
  match o with
  | Some n => JS.includes phrase (textContent n)
  | None => false
  end.

Definition withoutPhrase (c : compound) : compound :=
  Compound (c_tag c) (c_id c) (c_classes c) (c_lastChild c) None.

(** The page type of the two files the card digits and the balance are
    propagated to. *)
Definition typeOfPath (filePath : string) : string :=
  if String.eqb filePath "Openbank.html" then "openbank"
  else if String.eqb filePath "Openbank-transfers.html" then "transfers"
  else "".

(** The rules the card-digit and the balance propagation of a request
    apply to the page of a file. *)
Definition globalRules (newBalances : gmap string string) (fileType filePath : string)
  : list rule :=
  match given newBalances "cardLastDigits" with
  | Some digits =>
      if String.eqb fileType "openbank" || String.eqb fileType "transfers"
      then cardDigitsRule (typeOfPath filePath) digits else []
  | None => []
  end
  ++ match given newBalances "accountTotalBalance" with
     | Some balance =>
         if String.eqb fileType "openbank"
         then accountBalanceRule (typeOfPath filePath) balance else []
     | None => []
     end.

(** The name the name update of a request writes into the pages the glob
    finds. *)
Definition globalName (newBalances : gmap string string) (fileType filePath : string)
  : option string :=
  match given (if propagatesDigits newBalances fileType
               then delete "cardLastDigits" newBalances else newBalances) "avatarName" with
  | Some name => if globbed filePath && negb (ignored filePath) then Some name else None
  | None => None
  end.

(** All the writes of the global steps on a page. *)
Definition globalWrites (newBalances : gmap string string) (fileType filePath : string)
    (x : document) : list (path * string) :=
  let writes := writesOn x (globalRules newBalances fileType filePath) in
  writes ++ match globalName newBalances fileType filePath with
            | Some name => avatarRule name (setEach writes x)
            | None => []
            end.

Section Files.

Context {html : RoundTrip}.

(** What one target of a global update makes of a file. *)
Definition rewriteOne (change : document -> document * bool) (f : file) : file :=
  if snd (change (content f)) && writable f
  then File true (reload (fst (change (content f))))
  else f.

(** What the global steps of a request make of the file at a path. *)
Definition globalFile (newBalances : gmap string string) (fileType filePath : string)
    (f : file) : file :=
  let f1 := match given newBalances "cardLastDigits" with
            | Some digits =>
                if String.eqb fileType "openbank" || String.eqb fileType "transfers"
                then rewriteOne (cardDigitsIn (typeOfPath filePath) digits) f else f
            | None => f
            end in
  let f2 := match given newBalances "accountTotalBalance" with
            | Some balance =>
                if String.eqb fileType "openbank"
                then rewriteOne (accountBalanceIn (typeOfPath filePath) balance) f1 else f1
            | None => f1
            end in
  match globalName newBalances fileType filePath with
  | Some name => rewriteOne (avatarChange name) f2
  | None => f2
  end.

End Files.

(** The project with a main page that has sections. *)
Definition summaryFiles : gmap string file :=
  <["Openbank.html" := File true summaryPage]> projectFiles.

(** A request for the main page with the card digits, a name and three
    amounts. *)
Definition fullRequest : gmap string string :=
  <["cardLastDigits" := "2150"]>
  (<["avatarName" := "Ana"]>
  (<["accountTotalBalance" := "1000.50"]>
  (<["totalSavingsBalance" := "950.00"]>
  (<["savingsInvestmentsTotal" := "800.00"]> ∅)))).

(** The selectors of the main page that the rules after the total balance
    write through: the account balance, the amounts of the summary (also
    those of its two sections) and the expenses of the month. *)
Definition laterMainSelectors : list selector :=
  [ individualAccountSelector; totalBalanceAmountSelector; monthlyExpensesSelector ].

(** A main page with two totals, the expenses of the month and the
    savings. *)
Definition totalsPage : document :=
  twoTotalsPage
  ++ [ divOf "expenses-summary-box__header__expenses--total" [Text ("15.00 " +:+ euro)];
       divOf "global-position-total-balance__amount" [spanOf "900.00"; spanOf euro] ].

(** A request for the transfers page with a balance and card digits. *)
Definition transfersRequest : gmap string string :=
  <["accountBalance" := "1000.50"]> (<["cardLastDigits" := "2150"]> ∅).

(** * Facts about the tree operations *)

Section TreeFacts.

(** Induction on a node with the hypothesis on every child. *)
Lemma node_rect_children (P : node -> Prop) :
  (forall s, P (Text s)) ->
  (forall t a c ks, Forall P ks -> P (Elem t a c ks)) ->
  forall n, P n.
Proof.
  intros HT HE.
  fix IH 1. intros [s | t a c ks].
  - apply HT.
  - apply HE. induction ks as [| k r IHr]; constructor; [apply IH | exact IHr].
Qed.

Lemma walk_Elem pend tgt t a c ks lastChild :
  walk pend tgt (Elem t a c ks) lastChild
  = selfMatch pend tgt (Elem t a c ks) lastChild
    ++ walkAll (advance pend (Elem t a c ks) lastChild) tgt ks.
Proof.
  cbn [walk]. f_equal.
  generalize (advance pend (Elem t a c ks) lastChild) as pend'. intros pend'.
  induction ks as [| k r IHr]; simpl; [reflexivity |].
  now rewrite IHr.
Qed.

Lemma setText_cons i r v ns : setText (i :: r) v ns = alter (setTextN r v) i ns.
Proof. reflexivity. Qed.

Lemma setText_here r v k ns : setText (0 :: r) v (k :: ns) = setTextN r v k :: ns.
Proof. reflexivity. Qed.

Lemma setText_later i r v k ns : setText (S i :: r) v (k :: ns) = k :: setText (i :: r) v ns.
Proof. reflexivity. Qed.

Lemma nodeAt_one i ns : nodeAt [i] ns = ns !! i.
Proof. simpl. now destruct (ns !! i). Qed.

Lemma nodeAt_deeper i j r ns :
  nodeAt (i :: j :: r) ns = match ns !! i with Some n => nodeAt (j :: r) (kids n) | None => None end.
Proof. reflexivity. Qed.

Lemma kids_setTextN i r v n : kids (setTextN (i :: r) v n) = setText (i :: r) v (kids n).
Proof. destruct n as [x | t a c ks]; [| reflexivity]. simpl. by destruct i. Qed.

Lemma nodeAt_alter_deeper f i j r ns :
  nodeAt (i :: j :: r) (alter f i ns)
  = match ns !! i with Some n => nodeAt (j :: r) (kids (f n)) | None => None end.
Proof. rewrite nodeAt_deeper, list_lookup_alter_eq. by destruct (ns !! i). Qed.

Lemma apart_cons i p q : apart (i :: p) (i :: q) -> apart p q.
Proof.
  intros [H1 H2]. split; intros Hp.
  - apply H1. by apply prefix_cons.
  - apply H2. by apply prefix_cons.
Qed.

Lemma apart_sym p q : apart p q -> apart q p.
Proof. intros [H1 H2]. by split. Qed.

(** Rewriting an element leaves every node that is neither inside it nor
    around it as it was. *)
Lemma nodeAt_setText_apart q : forall p v d,
  apart q p -> nodeAt p (setText q v d) = nodeAt p d.
Proof.
  induction q as [| i r IH]; intros p v d [H1 H2].
  - exfalso. apply H1. apply prefix_nil.
  - destruct p as [| j s]; [exfalso; apply H2; apply prefix_nil |].
    rewrite setText_cons. destruct (decide (i = j)) as [-> | Hne].
    + assert (Hap : apart r s) by (apply (apart_cons j); by split).
      destruct s as [| j' s'].
      { exfalso. apply H2. apply prefix_cons. apply prefix_nil. }
      destruct r as [| i' r'].
      { exfalso. apply H1. apply prefix_cons. apply prefix_nil. }
      rewrite nodeAt_alter_deeper, nodeAt_deeper.
      destruct (d !! j) as [n |]; [| reflexivity].
      rewrite kids_setTextN. by apply IH.
    + cbn [nodeAt]. by rewrite list_lookup_alter_ne.
Qed.

Lemma nodeAt_setText_same p : forall v d t a c ks,
  nodeAt p d = Some (Elem t a c ks) ->
  nodeAt p (setText p v d) = Some (Elem t a c [Text v]).
Proof.
  induction p as [| i r IH]; intros v d t a c ks H; [discriminate |].
  rewrite setText_cons. destruct r as [| j r'].
  - rewrite nodeAt_one in *. by rewrite list_lookup_alter_eq, H.
  - rewrite nodeAt_alter_deeper. rewrite nodeAt_deeper in H.
    destruct (d !! i) as [n |]; [| discriminate].
    rewrite kids_setTextN. by eapply IH.
Qed.

(** A reference that does not lead to an element: nothing is written. *)
Lemma setText_dangling p : forall v d,
  (forall t a c ks, nodeAt p d <> Some (Elem t a c ks)) -> setText p v d = d.
Proof.
  induction p as [| i r IH]; intros v d H; [reflexivity |].
  rewrite setText_cons. apply list_eq. intros j.
  destruct (decide (i = j)) as [<- | Hne]; [| by rewrite list_lookup_alter_ne].
  rewrite list_lookup_alter_eq.
  destruct (d !! i) as [n |] eqn:Hi; [| reflexivity].
  cbn [fmap option_fmap option_map]. f_equal.
  destruct n as [x | t a c ks]; [reflexivity |].
  destruct r as [| j r'].
  - exfalso. apply (H t a c ks). by rewrite nodeAt_one.
  - cbn [setTextN]. f_equal. apply IH. intros t' a' c' ks' Hn. apply (H t' a' c' ks').
    by rewrite nodeAt_deeper, Hi.
Qed.

(** Writing a text the element already shows: nothing changes. *)
Lemma setText_again p : forall v d t a c,
  nodeAt p d = Some (Elem t a c [Text v]) -> setText p v d = d.
Proof.
  induction p as [| i r IH]; intros v d t a c H; [reflexivity |].
  rewrite setText_cons. apply list_eq. intros j.
  destruct (decide (i = j)) as [<- | Hne]; [| by rewrite list_lookup_alter_ne].
  rewrite list_lookup_alter_eq. destruct r as [| j r'].
  - rewrite nodeAt_one in H. by rewrite H.
  - rewrite nodeAt_deeper in H. destruct (d !! i) as [n |]; [| discriminate].
    cbn [fmap option_fmap option_map]. f_equal.
    destruct n as [x | t' a' c' ks']; [reflexivity |].
    cbn [setTextN kids] in *. f_equal. by eapply IH.
Qed.

(** Rewriting an element below [p] keeps [p] an element. *)
Lemma nodeAt_setText_below p : forall i r v d t a c ks,
  nodeAt p d = Some (Elem t a c ks) ->
  nodeAt p (setText (p ++ i :: r) v d) = Some (Elem t a c (setText (i :: r) v ks)).
Proof.
  induction p as [| j s IH]; intros i r v d t a c ks H; [discriminate |].
  change ((j :: s) ++ i :: r) with (j :: (s ++ i :: r)).
  rewrite setText_cons. destruct s as [| j' s'].
  - rewrite nodeAt_one in *. by rewrite list_lookup_alter_eq, H.
  - change ((j' :: s') ++ i :: r) with (j' :: (s' ++ i :: r)).
    rewrite nodeAt_alter_deeper. rewrite nodeAt_deeper in H.
    destruct (d !! j) as [n |]; [| discriminate].
    rewrite kids_setTextN. by apply (IH i r v (kids n)).
Qed.

Lemma setText_single_text i r v w : setText (i :: r) v [Text w] = [Text w].
Proof. rewrite setText_cons. by destruct i. Qed.

(** How two references lie to one another. *)
Lemma path_cases (p q : path) :
  q = p \/ (exists i r, q = p ++ i :: r) \/ (exists i r, p = q ++ i :: r) \/ apart q p.
Proof.
  destruct (decide (p `prefix_of` q)) as [[k Hk] | Hpq].
  - destruct k as [| i r]; [left; by rewrite app_nil_r in Hk | right; left; eauto].
  - destruct (decide (q `prefix_of` p)) as [[k Hk] | Hqp].
    + destruct k as [| i r]; [left; by rewrite app_nil_r in Hk | right; right; left; eauto].
    + right; right; right. by split.
Qed.

Lemma setTextAll_cons q sel v d : setTextAll (q :: sel) v d = setTextAll sel v (setText q v d).
Proof. reflexivity. Qed.

(** Once an element shows the text, the rest of the loop keeps it so. *)
Lemma setTextAll_keeps p v t a c : forall sel d,
  (forall q, q ∈ sel -> ~ encloses q p) ->
  nodeAt p d = Some (Elem t a c [Text v]) ->
  nodeAt p (setTextAll sel v d) = Some (Elem t a c [Text v]).
Proof.
  induction sel as [| q sel IH]; intros d Hout H; [exact H |].
  rewrite setTextAll_cons. apply IH.
  - intros q' Hq'. apply Hout. by right.
  - destruct (path_cases p q) as [-> | [(i & r & ->) | [(i & r & ->) | Hap]]].
    + by rewrite (setText_again p v d t a c).
    + rewrite (nodeAt_setText_below p i r v d t a c [Text v] H).
      by rewrite setText_single_text.
    + exfalso. apply (Hout q); [by left | by exists i, r].
    + by rewrite nodeAt_setText_apart.
Qed.

(** [$(sel).text(v)]: every matched element that no other matched element
    encloses shows [v] afterwards. *)
Lemma setTextAll_written p v t a c : forall sel d ks,
  p ∈ sel ->
  (forall q, q ∈ sel -> ~ encloses q p) ->
  nodeAt p d = Some (Elem t a c ks) ->
  nodeAt p (setTextAll sel v d) = Some (Elem t a c [Text v]).
Proof.
  induction sel as [| q sel IH]; intros d ks Hin Hout H; [by apply elem_of_nil in Hin |].
  rewrite setTextAll_cons.
  assert (Hout' : forall q', q' ∈ sel -> ~ encloses q' p) by (intros q' Hq'; apply Hout; by right).
  destruct (path_cases p q) as [-> | [(i & r & ->) | [(i & r & ->) | Hap]]].
  - apply setTextAll_keeps; [exact Hout' |]. by eapply nodeAt_setText_same.
  - apply elem_of_cons in Hin as [Heq | Hin].
    { exfalso. apply (f_equal length) in Heq. rewrite length_app in Heq. simpl in Heq. lia. }
    eapply IH; [exact Hin | exact Hout' |].
    by apply nodeAt_setText_below.
  - exfalso. apply (Hout q); [by left | by exists i, r].
  - apply elem_of_cons in Hin as [-> | Hin].
    { exfalso. destruct Hap as [Hap _]. by apply Hap. }
    eapply IH; [exact Hin | exact Hout' |].
    rewrite nodeAt_setText_apart; [exact H | exact Hap].
Qed.

(** What lies apart from every rewritten element is left as it was. *)
Lemma setTextAll_apart p v : forall sel d,
  (forall q, q ∈ sel -> apart q p) ->
  nodeAt p (setTextAll sel v d) = nodeAt p d.
Proof.
  induction sel as [| q sel IH]; intros d Hap; [reflexivity |].
  rewrite setTextAll_cons, IH.
  - apply nodeAt_setText_apart, Hap. by left.
  - intros q' Hq'. apply Hap. by right.
Qed.

Lemma textAt_node p d n : nodeAt p d = Some n -> textAt p d = textContent n.
Proof. unfold textAt. by intros ->. Qed.

(** The loop that rewrites where a test holds, as one rewriting of the
    elements that pass the test. *)
Lemma eachWhere_filter test v d : forall sel,
  eachWhere test sel v d
  = (setTextAll (List.filter (fun e => test (JS.trim (textAt e d))) sel) v d,
     negb (isEmpty (List.filter (fun e => test (JS.trim (textAt e d))) sel))).
Proof.
  intros sel. unfold eachWhere.
  assert (G : forall sel cur hit,
    fold_left (fun '(cur, hit) elem =>
                 if test (JS.trim (textAt elem d)) then (setText elem v cur, true) else (cur, hit))
              sel (cur, hit)
    = (setTextAll (List.filter (fun e => test (JS.trim (textAt e d))) sel) v cur,
       hit || negb (isEmpty (List.filter (fun e => test (JS.trim (textAt e d))) sel)))).
  { clear sel. induction sel as [| e sel IH]; intros cur hit; simpl.
    - by rewrite orb_false_r.
    - destruct (test (JS.trim (textAt e d))); rewrite IH; simpl; [| reflexivity].
      by rewrite orb_true_r. }
  by rewrite G.
Qed.

Lemma nodeAt_cons i r ns : nodeAt (i :: r) ns = ns !! i ≫= nodeBelow r.
Proof. simpl. destruct (ns !! i); [| reflexivity]. by destruct r. Qed.

Lemma walkAll_elements tgt l :
  Forall (fun k => forall pend lastChild q,
            q ∈ walk pend tgt k lastChild -> isElement (nodeBelow q k)) l ->
  forall pend q, q ∈ walkAll pend tgt l -> isElement (nodeAt q l).
Proof.
  induction 1 as [| k rest Hk _ IH]; intros pend q Hq; [by apply elem_of_nil in Hq |].
  simpl in Hq. apply elem_of_app in Hq as [Hq | Hq].
  - apply list_elem_of_fmap in Hq as (q' & -> & Hq').
    rewrite nodeAt_cons. simpl. by eapply Hk.
  - apply list_elem_of_fmap in Hq as (q' & -> & Hq').
    specialize (IH _ _ Hq'). destruct q' as [| i r].
    { destruct IH as (t & a & c & ks & HH). discriminate. }
    exact IH.
Qed.

Lemma walk_elements tgt n : forall pend lastChild q,
  q ∈ walk pend tgt n lastChild -> isElement (nodeBelow q n).
Proof.
  induction n as [s | t a c ks IH] using node_rect_children; intros pend lastChild q Hq.
  - by apply elem_of_nil in Hq.
  - rewrite walk_Elem in Hq. apply elem_of_app in Hq as [Hq | Hq].
    + unfold selfMatch in Hq. destruct pend; [| by apply elem_of_nil in Hq].
      destruct (matches _ _ _); [| by apply elem_of_nil in Hq].
      apply list_elem_of_singleton in Hq as ->. by exists t, a, c, ks.
    + pose proof (walkAll_elements tgt ks IH _ _ Hq) as HH.
      destruct q as [| i r]; [destruct HH as (? & ? & ? & ? & ?); discriminate |].
      exact HH.
Qed.

(** What [$(selector)] returns are elements of the page. *)
Lemma select_elements s d q : q ∈ select s d -> isElement (nodeAt q d).
Proof.
  unfold select. apply walkAll_elements.
  apply Forall_forall. intros k _ pend lastChild q'. apply walk_elements.
Qed.

Lemma inside_encloses p : forall q, inside p q = true <-> encloses p q.
Proof.
  induction p as [| i p IH]; intros [| j q]; simpl.
  - split; [discriminate |]. intros (i & r & H). discriminate.
  - split; [| done]. intros _. by exists j, q.
  - split; [discriminate |]. intros (k & r & H). discriminate.
  - rewrite andb_true_iff, Nat.eqb_eq, IH. split.
    + intros [-> (k & r & ->)]. by exists k, r.
    + intros (k & r & H). simplify_eq/=. split; [done | by exists k, r].
Qed.

Lemma matches_structural c t a cl ks ks' lastChild :
  c_contains c = None ->
  matches c (Elem t a cl ks) lastChild = matches c (Elem t a cl ks') lastChild.
Proof. intros H. unfold matches. by rewrite H. Qed.

Lemma advance_structural pend t a cl ks ks' lastChild :
  Forall (fun c => c_contains c = None) pend ->
  advance pend (Elem t a cl ks) lastChild = advance pend (Elem t a cl ks') lastChild.
Proof.
  intros H. destruct pend as [| c r]; [reflexivity |]. cbn [advance].
  by rewrite (matches_structural c t a cl ks ks') by (by inversion H).
Qed.

Lemma advance_Forall (P : compound -> Prop) pend n lastChild :
  Forall P pend -> Forall P (advance pend n lastChild).
Proof.
  intros H. destruct pend as [| c r]; [done |]. cbn [advance].
  destruct (matches c n lastChild); [by inversion H | done].
Qed.

Lemma selfMatch_structural pend tgt t a cl ks ks' lastChild :
  c_contains tgt = None ->
  selfMatch pend tgt (Elem t a cl ks) lastChild = selfMatch pend tgt (Elem t a cl ks') lastChild.
Proof.
  intros H. unfold selfMatch. destruct pend; [| reflexivity].
  by rewrite (matches_structural tgt t a cl ks ks').
Qed.

Lemma isElem_setTextN r v n : isElem (setTextN r v n) = isElem n.
Proof. by destruct n. Qed.

Lemma noElem_setText p v : forall l, noElem (setText p v l) = noElem l.
Proof.
  destruct p as [| i r]; [reflexivity |]. intros l. rewrite setText_cons.
  revert i. induction l as [| k rest IH]; intros i; [reflexivity |].
  destruct i as [| i]; simpl.
  - by rewrite isElem_setTextN.
  - f_equal. apply IH.
Qed.

Lemma filter_map_swap {A B : Type} (f : B -> bool) (g : A -> B) (l : list A) :
  List.filter f (map g l) = map g (List.filter (fun x => f (g x)) l).
Proof.
  induction l as [| x l IH]; simpl; [reflexivity |].
  destruct (f (g x)); simpl; by rewrite IH.
Qed.

Lemma filter_all {A : Type} (f : A -> bool) (l : list A) :
  (forall x, x ∈ l -> f x = true) -> List.filter f l = l.
Proof.
  induction l as [| x l IH]; intros H; simpl; [reflexivity |].
  rewrite (H x) by (by left). f_equal. apply IH. intros y Hy. apply H. by right.
Qed.

Lemma filter_none {A : Type} (f : A -> bool) (l : list A) :
  (forall x, x ∈ l -> f x = false) -> List.filter f l = [].
Proof.
  induction l as [| x l IH]; intros H; simpl; [reflexivity |].
  rewrite (H x) by (by left). apply IH. intros y Hy. apply H. by right.
Qed.

Lemma filter_same {A : Type} (f g : A -> bool) (l : list A) :
  (forall x, x ∈ l -> f x = g x) -> List.filter f l = List.filter g l.
Proof.
  induction l as [| x l IH]; intros H; simpl; [reflexivity |].
  rewrite (H x) by (by left). rewrite IH; [reflexivity |]. intros y Hy. apply H. by right.
Qed.

Lemma walkAll_nonempty pend tgt l q : q ∈ walkAll pend tgt l -> q <> [].
Proof.
  intros Hq ->.
  assert (HH : isElement (nodeAt [] l)).
  { eapply walkAll_elements; [| exact Hq].
    apply Forall_forall. intros k _ pend' lastChild q'. apply walk_elements. }
  destruct HH as (? & ? & ? & ? & ?). discriminate.
Qed.

Section Stability.

Variable tgt : compound.
Variable v : string.
Hypothesis tgt_structural : c_contains tgt = None.

Lemma walkAll_setText r :
  stableBelow tgt v r ->
  forall l i pend,
    Forall (fun c => c_contains c = None) pend ->
    walkAll pend tgt (setText (i :: r) v l)
    = List.filter (fun q => negb (inside (i :: r) q)) (walkAll pend tgt l).
Proof.
  intros Hr. induction l as [| k rest IH]; intros i pend Hpend.
  - by destruct i.
  - destruct i as [| i].
    + rewrite setText_here. cbn [walkAll]. rewrite List.filter_app, Hr by done.
      rewrite filter_map_swap. f_equal.
      symmetry. apply filter_all. intros q Hq.
      apply list_elem_of_fmap in Hq as (q' & -> & _). by destruct q'.
    + rewrite setText_later. cbn [walkAll]. rewrite List.filter_app, noElem_setText.
      rewrite (IH i pend Hpend), !filter_map_swap. f_equal.
      * f_equal. symmetry. apply filter_all. intros q _. reflexivity.
      * f_equal. apply filter_same. intros q _. by destruct q.
Qed.

Lemma walk_setTextN r : stableBelow tgt v r.
Proof.
  induction r as [| i r IH]; intros n pend lastChild Hpend.
  - destruct n as [x | t a c ks]; [reflexivity |].
    cbn [setTextN]. rewrite !walk_Elem, List.filter_app.
    rewrite (selfMatch_structural pend tgt t a c [Text v] ks) by done.
    cbn [walkAll walk map app]. rewrite app_nil_r.
    rewrite filter_all, filter_none; [by rewrite app_nil_r | |].
    + intros q Hq. apply walkAll_nonempty in Hq. by destruct q.
    + intros q Hq. unfold selfMatch in Hq. destruct pend; [| by apply elem_of_nil in Hq].
      destruct (matches _ _ _); [| by apply elem_of_nil in Hq].
      by apply list_elem_of_singleton in Hq as ->.
  - destruct n as [x | t a c ks]; [reflexivity |].
    cbn [setTextN]. rewrite !walk_Elem, List.filter_app.
    rewrite (selfMatch_structural pend tgt t a c (setText (i :: r) v ks) ks) by done.
    rewrite (advance_structural pend t a c (setText (i :: r) v ks) ks) by done.
    rewrite (walkAll_setText r IH) by (by apply advance_Forall).
    f_equal. symmetry. apply filter_all. intros q Hq.
    unfold selfMatch in Hq. destruct pend; [| by apply elem_of_nil in Hq].
    destruct (matches _ _ _); [| by apply elem_of_nil in Hq].
    by apply list_elem_of_singleton in Hq as ->.
Qed.

End Stability.

(** Rewriting one element changes what a structural selector matches only
    by removing the elements that were inside it. *)
Lemma select_setText s p v d :
  structural s -> p <> [] ->
  select s (setText p v d) = List.filter (fun q => negb (inside p q)) (select s d).
Proof.
  intros [Ht Ha] Hp. destruct p as [| i r]; [done |]. unfold select.
  apply walkAll_setText; [apply walk_setTextN; exact Ht | exact Ha].
Qed.

End TreeFacts.

(** ** Document order of what a selector returns *)

Lemma before_shift a b : before a b = true -> before (shift a) (shift b) = true.
Proof. destruct a as [| i a], b as [| j b]; done. Qed.

Lemma walkAll_sorted tgt l :
  Forall (fun k => forall pend lastChild,
            StronglySorted (fun p q => before p q = true) (walk pend tgt k lastChild)) l ->
  forall pend, StronglySorted (fun p q => before p q = true) (walkAll pend tgt l).
Proof.
  induction 1 as [| k rest Hk _ IH]; intros pend; [constructor |].
  cbn [walkAll]. apply StronglySorted_app_2.
  - intros x1 x2 H1 H2.
    apply list_elem_of_fmap in H1 as (a & -> & _).
    apply list_elem_of_fmap in H2 as (b & -> & Hb).
    apply walkAll_nonempty in Hb. by destruct b.
  - apply (StronglySorted_fmap (cons 0) (fun p q => before p q = true)); [| apply Hk].
    intros x y Hxy. exact Hxy.
  - apply (StronglySorted_fmap shift (fun p q => before p q = true)); [| apply IH].
    intros x y. apply before_shift.
Qed.

Lemma walk_sorted tgt n : forall pend lastChild,
  StronglySorted (fun p q => before p q = true) (walk pend tgt n lastChild).
Proof.
  induction n as [s | t a c ks IH] using node_rect_children; intros pend lastChild.
  - constructor.
  - rewrite walk_Elem. apply StronglySorted_app_2.
    + intros x1 x2 H1 H2. apply walkAll_nonempty in H2.
      unfold selfMatch in H1. destruct pend; [| by apply elem_of_nil in H1].
      destruct (matches _ _ _); [| by apply elem_of_nil in H1].
      apply list_elem_of_singleton in H1 as ->. by destruct x2.
    + unfold selfMatch. destruct pend; [| constructor].
      destruct (matches _ _ _); repeat constructor.
    + by apply walkAll_sorted.
Qed.

Lemma select_sorted s d : StronglySorted (fun p q => before p q = true) (select s d).
Proof.
  unfold select. apply walkAll_sorted, Forall_forall. intros k _. apply walk_sorted.
Qed.

Lemma before_not_enclosed p : forall q, before p q = true -> ~ encloses q p.
Proof.
  induction p as [| i p IH]; intros [| j q] Hb (k & r & He); try discriminate.
  cbn [before] in Hb. simplify_eq/=.
  rewrite Nat.ltb_irrefl, Nat.eqb_refl in Hb. cbn [orb andb] in Hb.
  apply (IH q Hb). by exists k, r.
Qed.

(** What comes later in a selection does not enclose what came earlier. *)
Lemma select_later s d l1 p l2 q :
  select s d = l1 ++ p :: l2 -> q ∈ l2 -> ~ encloses q p.
Proof.
  intros Hsel Hq. pose proof (select_sorted s d) as Hs. rewrite Hsel in Hs.
  apply StronglySorted_app_1_r, StronglySorted_cons in Hs as [Hp _].
  rewrite Forall_forall in Hp. apply before_not_enclosed. by apply Hp.
Qed.

(** ** A selection after the selection was rewritten *)

Lemma filter_filter_and {A : Type} (f g : A -> bool) (l : list A) :
  List.filter g (List.filter f l) = List.filter (fun x => f x && g x) l.
Proof.
  induction l as [| x l IH]; simpl; [reflexivity |].
  destruct (f x); simpl; [destruct (g x) |]; by rewrite IH.
Qed.

Lemma select_setTextAll s v : forall l d,
  structural s -> (forall p, p ∈ l -> p <> []) ->
  select s (setTextAll l v d)
  = List.filter (fun q => forallb (fun p => negb (inside p q)) l) (select s d).
Proof.
  induction l as [| p l IH]; intros d Hs Hne.
  - cbn [setTextAll fold_left forallb]. symmetry. by apply filter_all.
  - rewrite setTextAll_cons, IH; [| done | intros q Hq; apply Hne; by right].
    rewrite select_setText; [| done | apply Hne; by left].
    rewrite filter_filter_and. reflexivity.
Qed.

Lemma select_nonempty_paths s d p : p ∈ select s d -> p <> [].
Proof. unfold select. apply walkAll_nonempty. Qed.

(** Rewriting again the elements that already show the text changes nothing. *)
Lemma setTextAll_again v : forall l d,
  (forall p, p ∈ l -> exists t a c, nodeAt p d = Some (Elem t a c [Text v])) ->
  setTextAll l v d = d.
Proof.
  induction l as [| p l IH]; intros d H; [reflexivity |].
  rewrite setTextAll_cons.
  destruct (H p) as (t & a & c & Hp); [by left |].
  rewrite (setText_again p v d t a c Hp). apply IH. intros q Hq. apply H. by right.
Qed.

(** [$(sel).text(v)] twice is [$(sel).text(v)] once. *)
Lemma setTextAll_select_idem s v d :
  structural s ->
  setTextAll (select s (setTextAll (select s d) v d)) v (setTextAll (select s d) v d)
  = setTextAll (select s d) v d.
Proof.
  intros Hs. apply setTextAll_again. intros p Hp.
  rewrite select_setTextAll in Hp by (done || apply select_nonempty_paths).
  rewrite list_elem_of_In in Hp. apply List.filter_In in Hp as [Hp Hout].
  rewrite <- list_elem_of_In in Hp. rewrite forallb_forall in Hout.
  destruct (select_elements s d p Hp) as (t & a & c & ks & Hn).
  exists t, a, c. eapply setTextAll_written; [exact Hp | | exact Hn].
  intros q Hq Henc. apply inside_encloses in Henc.
  rewrite list_elem_of_In in Hq. specialize (Hout q Hq). by rewrite Henc in Hout.
Qed.

(** * Facts about texts *)

Lemma append_cons c s t : String c s +:+ t = String c (s +:+ t).
Proof. reflexivity. Qed.

Lemma append_empty_l t : "" +:+ t = t.
Proof. reflexivity. Qed.

Lemma append_empty_r s : s +:+ "" = s.
Proof. induction s as [| c s IH]; [reflexivity |]. by rewrite append_cons, IH. Qed.

Lemma textContent_single t a c w : textContent (Elem t a c [Text w]) = w.
Proof. cbn [textContent]. apply append_empty_r. Qed.

(** * Facts about runs of writes *)

Lemma setEach_nil d : setEach [] d = d.
Proof. reflexivity. Qed.

Lemma setEach_cons w ws d : setEach (w :: ws) d = setEach ws (setText (fst w) (snd w) d).
Proof. reflexivity. Qed.

Lemma setEach_app ws1 ws2 d : setEach (ws1 ++ ws2) d = setEach ws2 (setEach ws1 d).
Proof. unfold setEach. apply fold_left_app. Qed.

Lemma setEach_snoc ws w d : setEach (ws ++ [w]) d = setText (fst w) (snd w) (setEach ws d).
Proof. by rewrite setEach_app. Qed.

Lemma setEach_withValue v sel d : setEach (withValue v sel) d = setTextAll sel v d.
Proof.
  revert d. induction sel as [| p sel IH]; intros d; [reflexivity |].
  cbn [withValue map]. rewrite setEach_cons, setTextAll_cons. apply IH.
Qed.

Lemma targets_withValue v sel : targets (withValue v sel) = sel.
Proof.
  unfold targets, withValue. rewrite map_map. cbn [fst]. apply map_id.
Qed.

Lemma elem_of_withValue w v sel : w ∈ withValue v sel <-> snd w = v /\ fst w ∈ sel.
Proof.
  unfold withValue. rewrite list_elem_of_fmap. split.
  - intros (p & -> & Hp). by split.
  - intros [<- Hp]. exists (fst w). split; [by destruct w | exact Hp].
Qed.

Lemma elem_of_targets p ws : p ∈ targets ws <-> exists v, (p, v) ∈ ws.
Proof.
  unfold targets. rewrite list_elem_of_fmap. split.
  - intros ([q v] & -> & Hw). by exists v.
  - intros (v & Hw). by exists (p, v).
Qed.

(** What lies apart from every written element is as before. *)
Lemma nodeAt_setEach_apart q : forall ws d,
  (forall p, p ∈ targets ws -> apart p q) ->
  nodeAt q (setEach ws d) = nodeAt q d.
Proof.
  induction ws as [| w ws IH]; intros d H; [reflexivity |].
  rewrite setEach_cons, IH.
  - apply nodeAt_setText_apart. apply H. cbn [targets map]. by left.
  - intros p Hp. apply H. cbn [targets map]. by right.
Qed.

(** ** Two writes *)

Lemma setText_twice p : forall v w d, setText p v (setText p w d) = setText p v d.
Proof.
  induction p as [| i r IH]; intros v w d; [reflexivity |].
  rewrite !setText_cons. rewrite list_alter_alter_eq.
  apply list_alter_ext; [| reflexivity]. intros n _. cbn [compose].
  destruct n as [s | t a c ks]; [reflexivity |]. cbn [setTextN].
  destruct r as [| j r]; [reflexivity |]. f_equal. apply IH.
Qed.

Lemma setText_swap p : forall q v w d,
  apart p q -> setText p v (setText q w d) = setText q w (setText p v d).
Proof.
  induction p as [| i r IH]; intros q v w d Hap.
  - exfalso. apply (proj1 Hap). apply prefix_nil.
  - destruct q as [| j s]; [exfalso; apply (proj2 Hap); apply prefix_nil |].
    rewrite !setText_cons.
    destruct (decide (i = j)) as [<- | Hne].
    + rewrite !list_alter_alter_eq.
      apply list_alter_ext; [| reflexivity]. intros n _. cbn [compose].
      destruct n as [x | t a c ks]; [reflexivity |].
      apply apart_cons in Hap.
      destruct r as [| i' r]; [exfalso; apply (proj1 Hap); apply prefix_nil |].
      destruct s as [| j' s]; [exfalso; apply (proj2 Hap); apply prefix_nil |].
      cbn [setTextN]. f_equal. by apply IH.
    + by apply list_alter_alter_ne.
Qed.

(** Writing an element that one of the later writes overwrites, and that
    is apart from the others, does not show. *)
Lemma setEach_overwritten p v : forall ws d,
  p ∈ targets ws ->
  (forall q, q ∈ targets ws -> q = p \/ apart p q) ->
  setEach ws (setText p v d) = setEach ws d.
Proof.
  induction ws as [| [q w] ws IH]; intros d Hin Hall; [by apply elem_of_nil in Hin |].
  rewrite !setEach_cons. cbn [fst snd].
  destruct (Hall q) as [-> | Hap]; [cbn [targets map]; by left | |].
  - by rewrite setText_twice.
  - rewrite <- (setText_swap p q v w d Hap).
    cbn [targets map] in Hin. apply elem_of_cons in Hin as [-> | Hin].
    + exfalso. destruct Hap as [Hap _]. by apply Hap.
    + apply IH; [exact Hin |]. intros q' Hq'. apply Hall. cbn [targets map]. by right.
Qed.

(** The same writes once more change nothing, when no written element
    lies inside another. *)
Lemma setEach_twice : forall ws d,
  (forall p q, p ∈ targets ws -> q ∈ targets ws -> q = p \/ apart p q) ->
  setEach ws (setEach ws d) = setEach ws d.
Proof.
  intros ws. induction ws as [| w ws IH] using rev_ind; intros d Hall; [reflexivity |].
  assert (Hws : forall p q, p ∈ targets ws -> q ∈ targets ws -> q = p \/ apart p q).
  { intros p q Hp Hq. apply Hall; unfold targets; rewrite map_app; apply elem_of_app; by left. }
  assert (Hw : fst w ∈ targets (ws ++ [w])).
  { unfold targets. rewrite map_app. apply elem_of_app. right. cbn [map]. by left. }
  rewrite (setEach_snoc ws w (setEach (ws ++ [w]) d)).
  rewrite (setEach_snoc ws w d) at 2.
  rewrite (setEach_snoc ws w d).
  assert (Hmove : forall z,
            setText (fst w) (snd w) (setEach ws (setText (fst w) (snd w) z))
            = setText (fst w) (snd w) (setEach ws z)).
  { clear IH. intros z. revert z.
    assert (Hone : forall q, q ∈ targets ws -> q = fst w \/ apart (fst w) q).
    { intros q Hq. apply Hall; [exact Hw |].
      unfold targets. rewrite map_app. apply elem_of_app. by left. }
    clear Hall Hws Hw. induction ws as [| [q u] ws IHws]; intros z.
    - rewrite !setEach_nil. apply setText_twice.
    - rewrite !setEach_cons. cbn [fst snd].
      destruct (Hone q) as [-> | Hap]; [cbn [targets map]; by left | |].
      + rewrite setText_twice. reflexivity.
      + rewrite <- (setText_swap (fst w) q (snd w) u z Hap).
        apply IHws. intros q' Hq'. apply Hone. cbn [targets map]. by right. }
  rewrite Hmove. by rewrite IH.
Qed.

(** Writes to elements that are apart from those of another run can be
    made before or after that run. *)
Lemma setEach_swap_one p v : forall ws d,
  (forall q, q ∈ targets ws -> apart p q) ->
  setEach ws (setText p v d) = setText p v (setEach ws d).
Proof.
  induction ws as [| [q w] ws IH]; intros d Hall; [reflexivity |].
  rewrite !setEach_cons. cbn [fst snd].
  rewrite <- (setText_swap p q v w d) by (apply Hall; cbn [targets map]; by left).
  apply IH. intros q' Hq'. apply Hall. cbn [targets map]. by right.
Qed.

Lemma setEach_swap : forall ws1 ws2 d,
  (forall p q, p ∈ targets ws1 -> q ∈ targets ws2 -> apart p q) ->
  setEach ws2 (setEach ws1 d) = setEach ws1 (setEach ws2 d).
Proof.
  induction ws1 as [| [p v] ws1 IH]; intros ws2 d Hall; [reflexivity |].
  rewrite !setEach_cons. cbn [fst snd]. rewrite IH.
  - f_equal. apply setEach_swap_one. intros q Hq. apply Hall; [| exact Hq].
    cbn [targets map]. by left.
  - intros p' q Hp' Hq. apply Hall; [| exact Hq]. cbn [targets map]. by right.
Qed.

(** Writes to elements that already show the text change nothing. *)
Lemma setEach_again : forall ws d,
  (forall w, w ∈ ws -> exists t a c, nodeAt (fst w) d = Some (Elem t a c [Text (snd w)])) ->
  setEach ws d = d.
Proof.
  induction ws as [| w ws IH]; intros d H; [reflexivity |].
  rewrite setEach_cons. destruct (H w) as (t & a & c & Hw); [by left |].
  rewrite (setText_again _ _ _ _ _ _ Hw). apply IH. intros w' Hw'. apply H. by right.
Qed.

(** ** Elements that are pairwise apart *)

Lemma prefixb_spec p : forall q, prefixb p q = true <-> p `prefix_of` q.
Proof.
  induction p as [| i p IH]; intros q; cbn [prefixb].
  - split; [intros _; apply prefix_nil | done].
  - destruct q as [| j q].
    + split; [discriminate |]. intros [k Hk]. discriminate.
    + rewrite andb_true_iff, Nat.eqb_eq, IH. split.
      * intros [-> Hp]. by apply prefix_cons.
      * intros [k Hk]. injection Hk as -> ->. split; [reflexivity | by exists k].
Qed.

Lemma apartb_spec p q : apartb p q = true <-> apart p q.
Proof.
  unfold apartb, apart. rewrite andb_true_iff, !negb_true_iff.
  rewrite <- !not_true_iff_false, !prefixb_spec. reflexivity.
Qed.

Lemma apart_irrefl p : ~ apart p p.
Proof. intros [H _]. by apply H. Qed.

Lemma apart_not_encloses p q : apart p q -> ~ encloses p q.
Proof. intros [H _] (i & r & ->). apply H. by exists (i :: r). Qed.

Lemma scattered_cons p l :
  scattered (p :: l) = true <-> (forall q, q ∈ l -> apart p q) /\ scattered l = true.
Proof.
  cbn [scattered]. rewrite andb_true_iff, forallb_forall. split.
  - intros [H1 H2]. split; [| exact H2]. intros q Hq.
    apply apartb_spec, H1. by apply list_elem_of_In.
  - intros [H1 H2]. split; [| exact H2]. intros q Hq.
    apply apartb_spec, H1. by apply list_elem_of_In.
Qed.

Lemma scattered_app l1 : forall l2,
  scattered (l1 ++ l2) = true
  <-> scattered l1 = true /\ scattered l2 = true
      /\ forall p q, p ∈ l1 -> q ∈ l2 -> apart p q.
Proof.
  induction l1 as [| a l1 IH]; intros l2.
  - cbn [app]. split.
    + intros H. split; [reflexivity |]. split; [exact H |].
      intros p q Hp. by apply elem_of_nil in Hp.
    + by intros (_ & H & _).
  - rewrite <- app_comm_cons, !scattered_cons, IH. split.
    + intros (Ha & H1 & H2 & H12). split; [split; [| exact H1] |]; [| split; [exact H2 |]].
      * intros q Hq. apply Ha. apply elem_of_app. by left.
      * intros p q Hp Hq. apply elem_of_cons in Hp as [-> | Hp].
        -- apply Ha. apply elem_of_app. by right.
        -- by apply H12.
    + intros ((Ha & H1) & H2 & H12). split; [| split; [exact H1 |]; split; [exact H2 |]].
      * intros q Hq. apply elem_of_app in Hq as [Hq | Hq]; [by apply Ha |].
        apply H12; [by left | exact Hq].
      * intros p q Hp Hq. apply H12; [by right | exact Hq].
Qed.

Lemma scattered_elems l p q :
  scattered l = true -> p ∈ l -> q ∈ l -> q = p \/ apart p q.
Proof.
  induction l as [| a l IH]; intros Hs Hp Hq; [by apply elem_of_nil in Hp |].
  apply scattered_cons in Hs as [Ha Hl].
  apply elem_of_cons in Hp as [-> | Hp]; apply elem_of_cons in Hq as [-> | Hq].
  - by left.
  - right. by apply Ha.
  - right. apply apart_sym. by apply Ha.
  - by apply IH.
Qed.

Lemma elem_of_matched p ss d : p ∈ matched ss d <-> exists s, s ∈ ss /\ p ∈ select s d.
Proof.
  unfold matched. rewrite list_elem_of_In, in_flat_map. split.
  - intros (s & Hs & Hp). exists s. by rewrite !list_elem_of_In.
  - intros (s & Hs & Hp). exists s. by rewrite <- !list_elem_of_In.
Qed.

Lemma matched_app ss1 ss2 d : matched (ss1 ++ ss2) d = matched ss1 d ++ matched ss2 d.
Proof. unfold matched. apply flat_map_app. Qed.

(** Elements matched by selectors at two places of the list are apart. *)
Lemma scattered_matched ss d : forall i j s1 s2 p q,
  scattered (matched ss d) = true ->
  ss !! i = Some s1 -> ss !! j = Some s2 -> i <> j ->
  p ∈ select s1 d -> q ∈ select s2 d -> apart p q.
Proof.
  assert (Hlt : forall ss i j s1 s2 p q,
            scattered (matched ss d) = true ->
            ss !! i = Some s1 -> ss !! j = Some s2 -> i < j ->
            p ∈ select s1 d -> q ∈ select s2 d -> apart p q).
  { clear ss. induction ss as [| s ss IH]; intros i j s1 s2 p q Hs Hi Hj Hij Hp Hq;
      [by rewrite lookup_nil in Hi |].
    cbn [matched flat_map] in Hs. apply scattered_app in Hs as (_ & Hrest & Hcross).
    destruct i as [| i].
    - cbn in Hi. injection Hi as ->. destruct j as [| j]; [lia |]. cbn in Hj.
      apply Hcross; [exact Hp |]. apply elem_of_matched. exists s2.
      split; [by eapply list_elem_of_lookup_2 | exact Hq].
    - destruct j as [| j]; [lia |]. cbn in Hi, Hj.
      apply (IH i j s1 s2); try done. lia. }
  intros i j s1 s2 p q Hs Hi Hj Hij Hp Hq.
  destruct (Nat.lt_ge_cases i j) as [Hlt' | Hge].
  - by apply (Hlt ss i j s1 s2).
  - apply apart_sym. apply (Hlt ss j i s2 s1); try done. lia.
Qed.

(** ** Selections after a run of writes *)

Lemma setText_root v d : setText [] v d = d.
Proof. reflexivity. Qed.

Lemma select_setText_same s p v d :
  structural s -> (forall q, q ∈ select s d -> ~ encloses p q) ->
  select s (setText p v d) = select s d.
Proof.
  intros Hs Hout. destruct p as [| i r]; [reflexivity |].
  rewrite select_setText by done. apply filter_all. intros q Hq.
  apply negb_true_iff, not_true_iff_false. intros Hin%inside_encloses. by apply (Hout q).
Qed.

Lemma select_setText_within s p v d q :
  structural s -> q ∈ select s (setText p v d) -> q ∈ select s d.
Proof.
  intros Hs. destruct p as [| i r]; [done |].
  rewrite select_setText by done. rewrite list_elem_of_In, List.filter_In.
  intros [Hq _]. by apply list_elem_of_In.
Qed.

Lemma select_setEach_same s : forall ws d,
  structural s ->
  (forall p q, p ∈ targets ws -> q ∈ select s d -> ~ encloses p q) ->
  select s (setEach ws d) = select s d.
Proof.
  induction ws as [| w ws IH]; intros d Hs Hout; [reflexivity |].
  rewrite setEach_cons.
  assert (Hone : select s (setText (fst w) (snd w) d) = select s d).
  { apply select_setText_same; [exact Hs |]. intros q Hq. apply Hout; [| exact Hq].
    cbn [targets map]. by left. }
  rewrite IH; [exact Hone | exact Hs |].
  intros p q Hp Hq. rewrite Hone in Hq. apply Hout; [| exact Hq]. cbn [targets map]. by right.
Qed.

Lemma select_setEach_within s : forall ws d q,
  structural s -> q ∈ select s (setEach ws d) -> q ∈ select s d.
Proof.
  induction ws as [| w ws IH]; intros d q Hs Hq; [exact Hq |].
  rewrite setEach_cons in Hq. apply IH in Hq; [| exact Hs].
  by eapply select_setText_within.
Qed.

(** ** The element a write goes to *)

Lemma nodeAt_setEach_kids q : forall ws d t a c ks,
  nodeAt q d = Some (Elem t a c ks) ->
  (forall p, p ∈ targets ws -> p = q \/ apart p q) ->
  nodeAt q (setEach ws d) = Some (Elem t a c (kidsAfter q ws ks)).
Proof.
  induction ws as [| [p v] ws IH]; intros d t a c ks Hn Hall; [exact Hn |].
  rewrite setEach_cons. unfold kidsAfter. cbn [fold_left fst snd].
  destruct (Hall p) as [-> | Hap]; [cbn [targets map]; by left | |].
  - rewrite bool_decide_eq_true_2 by done.
    apply IH; [by eapply nodeAt_setText_same |].
    intros p Hp. apply Hall. cbn [targets map]. by right.
  - rewrite bool_decide_eq_false_2 by (intros ->; by apply (apart_irrefl q)).
    apply IH; [by rewrite nodeAt_setText_apart |].
    intros p' Hp'. apply Hall. cbn [targets map]. by right.
Qed.

Lemma kidsAfter_app q ws1 ws2 ks :
  kidsAfter q (ws1 ++ ws2) ks = kidsAfter q ws2 (kidsAfter q ws1 ks).
Proof. unfold kidsAfter. apply fold_left_app. Qed.

Lemma kidsAfter_untouched q : forall ws ks, q ∉ targets ws -> kidsAfter q ws ks = ks.
Proof.
  induction ws as [| [p v] ws IH]; intros ks Hq; [reflexivity |].
  unfold kidsAfter. cbn [fold_left fst snd].
  cbn [targets map fst] in Hq. apply not_elem_of_cons in Hq as [Hne Hq].
  rewrite bool_decide_eq_false_2 by done. by apply IH.
Qed.

(** The last write to an element is what it shows. *)
Lemma textAt_setEach_last q v ws1 ws2 d :
  isElement (nodeAt q d) ->
  (forall p, p ∈ targets (ws1 ++ (q, v) :: ws2) -> p = q \/ apart p q) ->
  q ∉ targets ws2 ->
  textAt q (setEach (ws1 ++ (q, v) :: ws2) d) = v.
Proof.
  intros (t & a & c & ks & Hn) Hall Hlast.
  rewrite (textAt_node _ _ _ (nodeAt_setEach_kids q _ d t a c ks Hn Hall)).
  rewrite kidsAfter_app. unfold kidsAfter at 1. cbn [fold_left fst snd].
  rewrite bool_decide_eq_true_2 by done.
  fold (kidsAfter q ws2 [Text v]). rewrite kidsAfter_untouched by done.
  apply textContent_single.
Qed.

(** An element that no write goes to shows what it showed. *)
Lemma textAt_setEach_untouched q ws d :
  (forall p, p ∈ targets ws -> p = q \/ apart p q) ->
  q ∉ targets ws ->
  textAt q (setEach ws d) = textAt q d.
Proof.
  intros Hall Hq. unfold textAt. rewrite nodeAt_setEach_apart; [reflexivity |].
  intros p Hp. destruct (Hall p Hp) as [-> | Hap]; [done | exact Hap].
Qed.

Lemma truthy_nonempty s : JS.truthy s = true <-> s <> "".
Proof. destruct s; simpl; split; try done. Qed.

Lemma filter_In_elem {A : Type} (f : A -> bool) (l : list A) (x : A) :
  x ∈ List.filter f l <-> x ∈ l /\ f x = true.
Proof. rewrite !list_elem_of_In. apply List.filter_In. Qed.

Lemma firstNumeric_split d : forall sel p,
  firstNumeric sel d = Some p ->
  exists l1 l2,
    sel = l1 ++ p :: l2
    /\ numericText (JS.trim (textAt p d)) = true
    /\ forall q, q ∈ l1 -> numericText (JS.trim (textAt q d)) = false.
Proof.
  induction sel as [| e sel IH]; intros p H; [discriminate |].
  cbn [firstNumeric] in H. destruct (numericText (JS.trim (textAt e d))) eqn:He.
  - injection H as <-. exists [], sel. repeat split; [done |].
    intros q Hq. by apply elem_of_nil in Hq.
  - destruct (IH p H) as (l1 & l2 & -> & Hp & Hl1). exists (e :: l1), l2.
    repeat split; [done |]. intros q Hq. apply elem_of_cons in Hq as [-> | Hq]; auto.
Qed.

Lemma firstNumeric_found d : forall l1 p l2,
  numericText (JS.trim (textAt p d)) = true ->
  (forall q, q ∈ l1 -> numericText (JS.trim (textAt q d)) = false) ->
  firstNumeric (l1 ++ p :: l2) d = Some p.
Proof.
  induction l1 as [| e l1 IH]; intros p l2 Hp Hl1; cbn [app firstNumeric].
  - by rewrite Hp.
  - rewrite (Hl1 e) by (by left). apply IH; [done |]. intros q Hq. apply Hl1. by right.
Qed.

Lemma given_nonempty nb k v : given nb k = Some v -> v <> "".
Proof.
  unfold given. destruct (nb !! k) as [w |]; [| discriminate].
  destruct w; [discriminate |]. by intros [= <-].
Qed.

Lemma formattedDigits_nonempty v : v <> "" -> JS.truthy (formattedDigits v) = true.
Proof.
  intros Hv. unfold formattedDigits. destruct (JS.startsWith "..." v); [| reflexivity].
  by destruct v.
Qed.

Lemma text_single p d : text [p] d = textAt p d.
Proof. unfold text. cbn [fold_right]. apply append_empty_r. Qed.

Lemma apart_of_not_enclosing p q : q <> p -> ~ encloses p q -> ~ encloses q p -> apart p q.
Proof.
  intros Hne H1 H2.
  destruct (path_cases q p) as [-> | [(i & r & ->) | [(i & r & ->) | Hap]]].
  - done.
  - exfalso. apply H2. by exists i, r.
  - exfalso. apply H1. by exists i, r.
  - exact Hap.
Qed.

(** * The update functions as rules *)

Lemma find_no_context s d : find s [] d = [].
Proof. unfold find. apply filter_none. intros q _. reflexivity. Qed.

Lemma writeFirstNumeric_rule s v d :
  writeFirstNumeric s v d = applyRule (toFirstNumeric s v) d.
Proof.
  unfold writeFirstNumeric, applyRule, toFirstNumeric.
  destruct v as [v |]; destruct (firstNumeric (select s d) d) as [p |]; reflexivity.
Qed.

Lemma setTextAll_rule s v d : setTextAll (select s d) v d = applyRule (toAll s (Some v)) d.
Proof. unfold applyRule, toAll. by rewrite setEach_withValue. Qed.

Lemma writeGiven_rule s v d : writeGiven s v d = applyRule (toAll s v) d.
Proof.
  unfold writeGiven, applyRule, toAll. destruct v as [v |]; [| reflexivity].
  rewrite setEach_withValue. by destruct (select s d).
Qed.

Lemma eachWhere_rule test s v d :
  fst (eachWhere test (select s d) v d) = applyRule (toEach test s (Some v)) d.
Proof.
  rewrite eachWhere_filter. cbn [fst]. unfold applyRule, toEach.
  by rewrite setEach_withValue.
Qed.

Lemma updateSection_rule phrase v d :
  updateSection phrase v d = applyRule (toSection phrase v) d.
Proof.
  unfold updateSection, applyRule, toSection. destruct v as [v |].
  - rewrite setEach_withValue. cbn [setTextOpt]. unfold sectionAmount.
    destruct (closest totalbalanceSection (select (statementSelector phrase) d) d);
      [| reflexivity].
    cbn [isEmpty negb]. by rewrite find_no_context.
  - by destruct (negb _).
Qed.

Lemma updateOpenbankValues_rules d nb :
  updateOpenbankValues d nb = applyRules (openbankRules nb) d.
Proof.
  unfold updateOpenbankValues, updateAccountTotal, updateIndividualAccount,
    updateTotalSavings, updateMonthlyExpenses.
  rewrite !updateSection_rule, setTextAll_rule, !writeFirstNumeric_rule. reflexivity.
Qed.

Lemma updateDirectDebitsValues_rules d nb :
  updateDirectDebitsValues d nb = applyRules (directDebitsRules nb) d.
Proof. unfold updateDirectDebitsValues. rewrite !writeGiven_rule. reflexivity. Qed.

Lemma updateCardsValues_rules d nb : updateCardsValues d nb = applyRules (cardsRules nb) d.
Proof. unfold updateCardsValues. rewrite writeGiven_rule. reflexivity. Qed.

Lemma updateAccountAmounts_rule nb d :
  updateAccountAmounts nb d
  = applyRule (toEach numericText dropdownAmountSelector (given nb "accountBalance")) d.
Proof.
  unfold updateAccountAmounts. destruct (given nb "accountBalance") as [v |];
    [apply eachWhere_rule | reflexivity].
Qed.

Lemma updateTransfersValues_rules d nb :
  updateTransfersValues d nb = applyRules (transfersRules nb) d.
Proof.
  unfold updateTransfersValues. rewrite writeGiven_rule, updateAccountAmounts_rule.
  reflexivity.
Qed.

Lemma localRules_rules fileType d nb :
  localRules fileType d nb = applyRules (rulesOf fileType nb) d.
Proof.
  unfold localRules, rulesOf.
  destruct (String.eqb fileType "openbank"); [apply updateOpenbankValues_rules |].
  destruct (String.eqb fileType "directDebits"); [apply updateDirectDebitsValues_rules |].
  destruct (String.eqb fileType "cards"); [apply updateCardsValues_rules |].
  destruct (String.eqb fileType "transfers"); [apply updateTransfersValues_rules |].
  reflexivity.
Qed.

Lemma cardDigitsIn_rule fileType v d :
  fst (cardDigitsIn fileType v d) = applyRules (cardDigitsRule fileType v) d
  /\ (snd (cardDigitsIn fileType v d) = false -> fst (cardDigitsIn fileType v d) = d).
Proof.
  unfold cardDigitsIn, cardDigitsRule.
  destruct (String.eqb fileType "openbank").
  - cbn [applyRules fold_left]. rewrite <- setTextAll_rule.
    by destruct (select cardTitleSelector d).
  - destruct (String.eqb fileType "transfers"); [| done].
    cbn [applyRules fold_left]. rewrite <- setTextAll_rule.
    by destruct (select dropdownIbanSelector d).
Qed.

Lemma accountBalanceIn_rule fileType v d :
  fst (accountBalanceIn fileType v d) = applyRules (accountBalanceRule fileType v) d
  /\ (snd (accountBalanceIn fileType v d) = false -> fst (accountBalanceIn fileType v d) = d).
Proof.
  unfold accountBalanceIn, accountBalanceRule.
  destruct (String.eqb fileType "openbank").
  - cbn [applyRules fold_left]. rewrite <- writeFirstNumeric_rule. unfold writeFirstNumeric.
    by destruct (firstNumeric (select accountTotalSelector d) d).
  - destruct (String.eqb fileType "transfers"); [| done].
    cbn [applyRules fold_left]. rewrite <- eachWhere_rule. split; [reflexivity |].
    rewrite eachWhere_filter. cbn [fst snd].
    by destruct (List.filter _ (select dropdownAmountSelector d)).
Qed.

Lemma avatarChange_rule name d :
  fst (avatarChange name d) = applyRule (avatarRule name) d
  /\ (snd (avatarChange name d) = false -> fst (avatarChange name d) = d).
Proof.
  unfold avatarChange, avatarRule. rewrite <- eachWhere_rule. split; [reflexivity |].
  rewrite eachWhere_filter. cbn [fst snd].
  by destruct (List.filter _ (select avatarSelector d)).
Qed.

(** * Rules that do not get in each other's way *)

Lemma writeSelectors_structural s : s ∈ writeSelectors -> structural s.
Proof.
  unfold writeSelectors, amountSelectors, plainSelectors. cbn [app]. intros H.
  repeat (apply elem_of_cons in H as [-> | H]; [by repeat constructor |]).
  by apply elem_of_nil in H.
Qed.

Lemma firstNumeric_ext d d' : forall l,
  (forall q, q ∈ l ->
     numericText (JS.trim (textAt q d)) = numericText (JS.trim (textAt q d'))) ->
  firstNumeric l d = firstNumeric l d'.
Proof.
  induction l as [| e l IH]; intros H; [reflexivity |].
  cbn [firstNumeric]. rewrite (H e) by (by left).
  destruct (numericText _); [reflexivity |]. apply IH. intros q Hq. apply H. by right.
Qed.

Lemma kidsAfter_cases q : forall ws ks,
  kidsAfter q ws ks = ks \/ exists v, (q, v) ∈ ws /\ kidsAfter q ws ks = [Text v].
Proof.
  induction ws as [| [p v] ws IH]; intros ks; [by left |].
  unfold kidsAfter. cbn [fold_left fst snd].
  fold (kidsAfter q ws (if bool_decide (p = q) then [Text v] else ks)).
  destruct (IH (if bool_decide (p = q) then [Text v] else ks)) as [Hsame | (u & Hu & Hk)].
  - rewrite Hsame. case_bool_decide as Hp; [| by left].
    subst p. right. exists v. split; [by left | reflexivity].
  - right. exists u. split; [by right | exact Hk].
Qed.

Lemma numericText_nonempty v : numericText (JS.trim v) = true -> v <> "".
Proof. intros H ->. discriminate H. Qed.

Section Run.

Variable x : document.
Hypothesis x_tidy : tidy x = true.

Lemma matched_scattered : scattered (matched writeSelectors x) = true.
Proof. unfold tidy in x_tidy. by apply andb_true_iff in x_tidy as [H _]. Qed.

Lemma matched_apart p q :
  p ∈ matched writeSelectors x -> q ∈ matched writeSelectors x -> q = p \/ apart p q.
Proof. apply scattered_elems, matched_scattered. Qed.

Lemma statement_apart p q :
  p ∈ select statementNodes x -> q ∈ matched writeSelectors x -> apart p q.
Proof.
  intros Hp Hq. unfold tidy in x_tidy. apply andb_true_iff in x_tidy as [_ H].
  rewrite forallb_forall in H. apply list_elem_of_In in Hp. specialize (H p Hp).
  rewrite forallb_forall in H. apply apartb_spec, H. by apply list_elem_of_In.
Qed.

Lemma amount_matched q : q ∈ matched amountSelectors x -> q ∈ matched writeSelectors x.
Proof. intros H. unfold writeSelectors. rewrite matched_app. apply elem_of_app. by left. Qed.

Lemma plain_matched q : q ∈ matched plainSelectors x -> q ∈ matched writeSelectors x.
Proof. intros H. unfold writeSelectors. rewrite matched_app. apply elem_of_app. by right. Qed.

Lemma plain_not_amount q :
  q ∈ matched plainSelectors x -> q ∉ matched amountSelectors x.
Proof.
  intros Hp Ha. pose proof matched_scattered as Hs. unfold writeSelectors in Hs.
  rewrite matched_app in Hs. apply scattered_app in Hs as (_ & _ & Hcross).
  by apply (apart_irrefl q), Hcross.
Qed.

Lemma allowed_targets ws p :
  Forall (allowed x) ws -> p ∈ targets ws -> p ∈ matched writeSelectors x.
Proof.
  intros Hws (v & Hp)%elem_of_targets. rewrite Forall_forall in Hws.
  by destruct (Hws _ Hp) as [H _].
Qed.

Lemma select_after ws s :
  Forall (allowed x) ws -> s ∈ writeSelectors ->
  select s (setEach ws x) = select s x.
Proof.
  intros Hws Hs. apply select_setEach_same; [by apply writeSelectors_structural |].
  intros p q Hp Hq.
  destruct (matched_apart p q) as [-> | Hap].
  - by eapply allowed_targets.
  - apply elem_of_matched. by exists s.
  - intros (i & r & Heq). apply (f_equal length) in Heq. rewrite length_app in Heq.
    cbn [length] in Heq. lia.
  - by apply apart_not_encloses.
Qed.

Lemma statements_after ws :
  Forall (allowed x) ws ->
  select statementNodes (setEach ws x) = select statementNodes x.
Proof.
  intros Hws. apply select_setEach_same; [by repeat constructor |].
  intros p q Hp Hq. apply apart_not_encloses, apart_sym, statement_apart; [exact Hq |].
  by eapply allowed_targets.
Qed.

Lemma matched_after ws : forall ss,
  Forall (allowed x) ws -> (forall s, s ∈ ss -> s ∈ writeSelectors) ->
  matched ss (setEach ws x) = matched ss x.
Proof.
  intros ss Hws. induction ss as [| s ss IH]; intros Hss; [reflexivity |].
  cbn [matched flat_map]. rewrite select_after by (done || apply Hss; by left).
  f_equal. apply IH. intros s' Hs'. apply Hss. by right.
Qed.

Lemma targets_apart ws p q :
  Forall (allowed x) ws -> p ∈ targets ws -> q ∈ matched writeSelectors x ->
  p = q \/ apart p q.
Proof.
  intros Hws Hp Hq. destruct (matched_apart p q) as [-> | Hap]; try done.
  - by eapply allowed_targets.
  - by left.
  - by right.
Qed.

(** The text of an element that the rules may write, after the writes. *)
Lemma nodeAt_after ws q :
  Forall (allowed x) ws -> q ∈ matched writeSelectors x ->
  exists t a c ks,
    nodeAt q x = Some (Elem t a c ks)
    /\ nodeAt q (setEach ws x) = Some (Elem t a c (kidsAfter q ws ks)).
Proof.
  intros Hws Hq. apply elem_of_matched in Hq as Hsel. destruct Hsel as (s & Hs & Hsel).
  destruct (select_elements s x q Hsel) as (t & a & c & ks & Hn).
  exists t, a, c, ks. split; [exact Hn |].
  apply nodeAt_setEach_kids; [exact Hn |]. intros p Hp. by apply targets_apart with ws.
Qed.

Lemma numeric_after ws q :
  Forall (allowed x) ws -> q ∈ matched amountSelectors x ->
  numericText (JS.trim (textAt q (setEach ws x))) = numericText (JS.trim (textAt q x)).
Proof.
  intros Hws Hq.
  destruct (nodeAt_after ws q Hws (amount_matched q Hq)) as (t & a & c & ks & Hn & Hn').
  rewrite (textAt_node _ _ _ Hn), (textAt_node _ _ _ Hn').
  destruct (kidsAfter_cases q ws ks) as [-> | (v & Hv & ->)]; [reflexivity |].
  rewrite Forall_forall in Hws. destruct (Hws _ Hv) as (_ & _ & Hnum).
  destruct (Hnum Hq) as [H1 H2]. cbn [fst snd] in H1, H2.
  rewrite (textAt_node _ _ _ Hn) in H2. by rewrite textContent_single, H1, H2.
Qed.

(** The rules that are steady. *)
Lemma steady_nothing (r : rule) : (forall d, r d = []) -> steady x r.
Proof. intros H. split; [intros ws _; by rewrite !H | rewrite H; constructor]. Qed.

Lemma steady_toAll s v : s ∈ plainSelectors -> v <> "" -> steady x (toAll s (Some v)).
Proof.
  intros Hs Hv.
  assert (Hw : s ∈ writeSelectors) by (apply elem_of_app; by right).
  split.
  - intros ws Hws. unfold toAll. by rewrite select_after.
  - apply Forall_forall. intros w [Hval Hp]%elem_of_withValue.
    assert (Hplain : fst w ∈ matched plainSelectors x)
      by (apply elem_of_matched; by exists s).
    split; [by apply plain_matched |]. split; [by rewrite Hval |].
    intros Ha. by apply plain_not_amount in Hplain.
Qed.

Lemma steady_toEachNumeric s v :
  s ∈ amountSelectors -> numericText (JS.trim v) = true ->
  steady x (toEach numericText s (Some v)).
Proof.
  intros Hs Hv.
  assert (Hw : s ∈ writeSelectors) by (apply elem_of_app; by left).
  split.
  - intros ws Hws. unfold toEach. rewrite select_after by done. f_equal.
    apply filter_same. intros q Hq. apply numeric_after; [exact Hws |].
    apply elem_of_matched. by exists s.
  - apply Forall_forall. intros w [Hval Hp]%elem_of_withValue.
    apply filter_In_elem in Hp as [Hp Hnum].
    split; [apply elem_of_matched; by exists s |].
    split; [rewrite Hval; by apply numericText_nonempty |].
    intros _. by rewrite Hval.
Qed.

Lemma steady_toFirstNumeric s v :
  s ∈ amountSelectors -> numericText (JS.trim v) = true ->
  steady x (toFirstNumeric s (Some v)).
Proof.
  intros Hs Hv.
  assert (Hw : s ∈ writeSelectors) by (apply elem_of_app; by left).
  split.
  - intros ws Hws. unfold toFirstNumeric. rewrite select_after by done. do 2 f_equal.
    apply firstNumeric_ext. intros q Hq. apply numeric_after; [exact Hws |].
    apply elem_of_matched. by exists s.
  - apply Forall_forall. intros w [Hval Hp]%elem_of_withValue.
    destruct (firstNumeric (select s x) x) as [p |] eqn:Hfirst;
      [| by apply elem_of_nil in Hp].
    cbn [option_list] in Hp. apply list_elem_of_singleton in Hp.
    apply firstNumeric_split in Hfirst as (l1 & l2 & Hsel & Hnum & _).
    split; [apply elem_of_matched; exists s; split; [done |];
            rewrite Hp, Hsel; apply elem_of_app; right; by left |].
    split; [rewrite Hval; by apply numericText_nonempty |].
    intros _. rewrite Hval, Hp. by split.
Qed.

(** A run of steady rules makes the writes the rules make on the page it
    starts from, also when it starts after other writes. *)
Lemma writesOn_cons r rs : writesOn x (r :: rs) = r x ++ writesOn x rs.
Proof. reflexivity. Qed.

Lemma writesOn_app rs1 rs2 : writesOn x (rs1 ++ rs2) = writesOn x rs1 ++ writesOn x rs2.
Proof. unfold writesOn. apply flat_map_app. Qed.

Lemma writesOn_one r : writesOn x [r] = r x.
Proof. unfold writesOn. cbn [flat_map]. apply app_nil_r. Qed.

Lemma applyRules_after rs : forall ws,
  Forall (steady x) rs -> Forall (allowed x) ws ->
  applyRules rs (setEach ws x) = setEach (ws ++ writesOn x rs) x
  /\ Forall (allowed x) (ws ++ writesOn x rs).
Proof.
  induction rs as [| r rs IH]; intros ws Hrs Hws.
  - cbn [writesOn flat_map applyRules fold_left]. by rewrite app_nil_r.
  - apply Forall_cons in Hrs as [[Hr1 Hr2] Hrs].
    rewrite writesOn_cons. cbn [applyRules fold_left]. fold (applyRules rs).
    unfold applyRule. rewrite (Hr1 ws Hws), <- setEach_app.
    rewrite app_assoc. apply IH; [exact Hrs |]. apply Forall_app. by split.
Qed.

Lemma applyRules_writes rs :
  Forall (steady x) rs ->
  applyRules rs x = setEach (writesOn x rs) x
  /\ Forall (allowed x) (writesOn x rs).
Proof. intros Hrs. apply (applyRules_after rs [] Hrs). constructor. Qed.

Lemma allowed_twice ws :
  Forall (allowed x) ws -> setEach ws (setEach ws x) = setEach ws x.
Proof.
  intros Hws. apply setEach_twice. intros p q Hp Hq.
  apply matched_apart; by eapply allowed_targets.
Qed.

(** Steady rules applied twice are the rules applied once. *)
Lemma applyRules_twice rs :
  Forall (steady x) rs -> applyRules rs (applyRules rs x) = applyRules rs x.
Proof.
  intros Hrs. destruct (applyRules_writes rs Hrs) as [Hrun Hws].
  rewrite Hrun at 1. destruct (applyRules_after rs _ Hrs Hws) as [Hagain _].
  rewrite Hagain, setEach_app, Hrun. by apply allowed_twice.
Qed.

End Run.

(** * What [find] returns *)

(** The elements found below a context element are among those the
    selector matches on the page. *)
Lemma advance_shorter pend n lastChild : advance pend n lastChild `suffix_of` pend.
Proof.
  destruct pend as [| c r]; [done |]. cbn [advance].
  destruct (matches c n lastChild); [by apply suffix_cons_r | done].
Qed.

Lemma advance_suffix pend' pend n lastChild :
  pend' `suffix_of` pend -> advance pend' n lastChild `suffix_of` advance pend n lastChild.
Proof.
  intros [k ->]. destruct k as [| c k]; [done |].
  cbn [app advance].
  pose proof (advance_shorter pend' n lastChild) as Hs.
  destruct (matches c n lastChild).
  - etrans; [exact Hs |]. by apply suffix_app_r.
  - etrans; [exact Hs |]. apply suffix_cons_r. by apply suffix_app_r.
Qed.

Lemma selfMatch_suffix pend' pend tgt n lastChild q :
  pend' `suffix_of` pend ->
  q ∈ selfMatch pend tgt n lastChild -> q ∈ selfMatch pend' tgt n lastChild.
Proof.
  intros [k Hk] Hq. destruct pend as [| c r]; [| by apply elem_of_nil in Hq].
  symmetry in Hk. apply app_eq_nil in Hk as [_ ->]. exact Hq.
Qed.

Lemma walkAll_suffix tgt l :
  Forall (fun k => forall pend pend' lastChild q,
            pend' `suffix_of` pend ->
            q ∈ walk pend tgt k lastChild -> q ∈ walk pend' tgt k lastChild) l ->
  forall pend pend' q,
    pend' `suffix_of` pend -> q ∈ walkAll pend tgt l -> q ∈ walkAll pend' tgt l.
Proof.
  induction 1 as [| k r Hk _ IH]; intros pend pend' q Hs Hq; [exact Hq |].
  cbn [walkAll] in *. apply elem_of_app in Hq as [Hq | Hq]; apply elem_of_app.
  - left. apply list_elem_of_fmap in Hq as (q' & -> & Hq').
    apply list_elem_of_fmap. exists q'. split; [reflexivity |]. by eapply Hk.
  - right. apply list_elem_of_fmap in Hq as (q' & -> & Hq').
    apply list_elem_of_fmap. exists q'. split; [reflexivity |]. by eapply IH.
Qed.

Lemma walk_suffix tgt n : forall pend pend' lastChild q,
  pend' `suffix_of` pend ->
  q ∈ walk pend tgt n lastChild -> q ∈ walk pend' tgt n lastChild.
Proof.
  induction n as [s | t a c ks IH] using node_rect_children;
    intros pend pend' lastChild q Hs Hq; [exact Hq |].
  rewrite walk_Elem in *. apply elem_of_app in Hq as [Hq | Hq]; apply elem_of_app.
  - left. by eapply selfMatch_suffix.
  - right. eapply (walkAll_suffix tgt ks IH); [| exact Hq]. by apply advance_suffix.
Qed.

Lemma walkAll_lookup tgt pend : forall l i n rel,
  l !! i = Some n ->
  rel ∈ walk pend tgt n (noElem (drop (S i) l)) ->
  i :: rel ∈ walkAll pend tgt l.
Proof.
  induction l as [| k r IH]; intros i n rel Hi Hrel; [by rewrite lookup_nil in Hi |].
  cbn [walkAll]. apply elem_of_app. destruct i as [| i].
  - cbn in Hi. injection Hi as ->. left. apply list_elem_of_fmap. by exists rel.
  - cbn in Hi. right. apply list_elem_of_fmap. exists (i :: rel).
    split; [reflexivity |]. by apply (IH i n).
Qed.

Lemma walkAll_below tgt : forall ctx l pend t a c ks rel,
  nodeAt ctx l = Some (Elem t a c ks) ->
  rel ∈ walkAll (advance pend (Elem t a c ks) (lastChildAt ctx l)) tgt ks ->
  ctx ++ rel ∈ walkAll pend tgt l.
Proof.
  induction ctx as [| i r IH]; intros l pend t a c ks rel Hn Hrel; [discriminate |].
  destruct r as [| j r].
  - rewrite nodeAt_one in Hn. cbn [app]. apply (walkAll_lookup tgt pend l i _ rel Hn).
    rewrite walk_Elem. apply elem_of_app. right. exact Hrel.
  - rewrite nodeAt_deeper in Hn. destruct (l !! i) as [n |] eqn:Hi; [| discriminate].
    cbn [lastChildAt] in Hrel. rewrite Hi in Hrel.
    specialize (IH (kids n) pend t a c ks rel Hn Hrel).
    cbn [app]. apply (walkAll_lookup tgt pend l i n); [exact Hi |].
    destruct n as [s | t' a' c' ks']; [by apply elem_of_nil in IH |].
    rewrite walk_Elem. apply elem_of_app. right. cbn [kids] in IH.
    eapply (walkAll_suffix tgt ks'); [| apply advance_shorter | exact IH].
    apply Forall_forall. intros k _. apply walk_suffix.
Qed.

Lemma findIn_select s d ctx q : q ∈ findIn s d ctx -> q ∈ select s d.
Proof.
  unfold findIn, select. destruct (nodeAt ctx d) as [[x | t a c ks] |] eqn:Hn;
    try (by intros H%elem_of_nil).
  intros (rel & -> & Hrel)%list_elem_of_fmap. by eapply walkAll_below.
Qed.

Lemma find_select s ctxs d q : q ∈ find s ctxs d -> q ∈ select s d.
Proof.
  unfold find. intros [_ Hq]%filter_In_elem.
  apply existsb_exists in Hq as (ctx & _ & Hq). apply bool_decide_eq_true_1 in Hq.
  by eapply findIn_select.
Qed.

Lemma sectionAmount_select phrase d q :
  q ∈ sectionAmount phrase d -> q ∈ select totalBalanceAmountSelector d.
Proof.
  unfold sectionAmount. intros Hq.
  destruct (find _ _ d) as [| p l] eqn:Hfind; [by apply elem_of_nil in Hq |].
  cbn [first] in Hq. apply list_elem_of_singleton in Hq as ->.
  eapply find_select. rewrite Hfind. by left.
Qed.

(** * Sections and statements after a write *)

Lemma noElem_drop_setText n : forall l i r v,
  noElem (drop n (setText (i :: r) v l)) = noElem (drop n l).
Proof.
  induction n as [| n IH]; intros l i r v.
  - rewrite !drop_0. apply noElem_setText.
  - destruct l as [| k rest]; [reflexivity |]. destruct i as [| i].
    + rewrite setText_here. reflexivity.
    + rewrite setText_later. cbn [drop]. apply IH.
Qed.

Lemma lastChildAt_setText ctx : forall p v d,
  ~ encloses p ctx -> lastChildAt ctx (setText p v d) = lastChildAt ctx d.
Proof.
  induction ctx as [| i r IH]; intros p v d Hout; [reflexivity |].
  destruct p as [| j s]; [reflexivity |].
  destruct r as [| i' r].
  - cbn [lastChildAt]. apply noElem_drop_setText.
  - cbn [lastChildAt]. rewrite setText_cons.
    destruct (decide (j = i)) as [-> | Hne]; [| by rewrite list_lookup_alter_ne].
    rewrite list_lookup_alter_eq. destruct (d !! i) as [n |]; [| reflexivity].
    cbn [fmap option_fmap option_map].
    destruct s as [| j' s].
    + exfalso. apply Hout. by exists i', r.
    + rewrite kids_setTextN. apply IH. intros (a & b & Heq). apply Hout.
      exists a, b. cbn [app]. by rewrite Heq.
Qed.

(** The classes of an element that is not inside the rewritten one. *)
Lemma classes_setText cl q : forall p v d,
  ~ encloses p q ->
  match nodeAt q (setText p v d) with Some n => hasClass cl n | None => false end
  = match nodeAt q d with Some n => hasClass cl n | None => false end.
Proof.
  induction q as [| i r IH]; intros p v d Hout; [reflexivity |].
  destruct p as [| j s]; [reflexivity |].
  rewrite setText_cons.
  destruct (decide (j = i)) as [-> | Hne]; [| cbn [nodeAt]; by rewrite list_lookup_alter_ne].
  destruct r as [| i' r].
  - rewrite !nodeAt_one, list_lookup_alter_eq. destruct (d !! i) as [n |]; [| reflexivity].
    cbn [fmap option_fmap option_map]. by destruct n.
  - rewrite nodeAt_alter_deeper, nodeAt_deeper. destruct (d !! i) as [n |]; [| reflexivity].
    destruct s as [| j' s].
    + exfalso. apply Hout. by exists i', r.
    + rewrite kids_setTextN. apply IH. intros (a & b & Heq). apply Hout.
      exists a, b. cbn [app]. by rewrite Heq.
Qed.

Lemma elem_of_upwards q : forall p, q ∈ upwards p -> q <> [] /\ q `prefix_of` p.
Proof.
  intros p. revert q. induction p as [| i r IH]; intros q Hq; [by apply elem_of_nil in Hq |].
  cbn [upwards] in Hq. apply elem_of_app in Hq as [Hq | Hq].
  - apply list_elem_of_fmap in Hq as (q' & -> & Hq'). split; [done |].
    apply prefix_cons. by apply IH.
  - apply list_elem_of_singleton in Hq as ->. split; [done |].
    apply prefix_cons, prefix_nil.
Qed.

Lemma find_ext {A : Type} (f g : A -> bool) (l : list A) :
  (forall a, a ∈ l -> f a = g a) -> List.find f l = List.find g l.
Proof.
  induction l as [| a l IH]; intros H; [reflexivity |].
  cbn [List.find]. rewrite (H a) by (by left). destruct (g a); [reflexivity |].
  apply IH. intros b Hb. apply H. by right.
Qed.

Lemma closestOne_setText cl p w v d :
  ~ w `prefix_of` p \/ w = p ->
  closestOne cl (setText w v d) p = closestOne cl d p.
Proof.
  intros Hout. unfold closestOne. apply find_ext. intros q [Hne Hq]%elem_of_upwards.
  apply classes_setText. intros (i & r & ->).
  destruct Hout as [Hout | ->].
  - apply Hout. etrans; [| exact Hq]. by exists (i :: r).
  - destruct Hq as [k Hk]. apply (f_equal length) in Hk.
    rewrite !length_app in Hk. cbn [length] in Hk. lia.
Qed.

Lemma closest_ext cl d d' : forall sel,
  (forall p, p ∈ sel -> closestOne cl d p = closestOne cl d' p) ->
  closest cl sel d = closest cl sel d'.
Proof.
  intros sel. unfold closest. generalize (@nil path) as acc.
  induction sel as [| p sel IH]; intros acc H; [reflexivity |].
  cbn [fold_left]. rewrite (H p) by (by left). apply IH. intros q Hq. apply H. by right.
Qed.

Lemma elem_of_addOnce q x : forall set, x ∈ addOnce q set -> x = q \/ x ∈ set.
Proof.
  induction set as [| y set IH]; intros Hx; cbn [addOnce] in Hx.
  - apply list_elem_of_singleton in Hx. by left.
  - case_bool_decide; [by right |].
    apply elem_of_cons in Hx as [-> | Hx]; [right; by left |].
    destruct (IH Hx) as [-> | Hin]; [by left | right; by right].
Qed.

Lemma elem_of_closest cl d ctx : forall sel,
  ctx ∈ closest cl sel d -> exists p, p ∈ sel /\ ctx `prefix_of` p.
Proof.
  intros sel. unfold closest.
  assert (Hgen : forall acc,
            ctx ∈ fold_left (fun set p => match closestOne cl d p with
                                          | Some q => addOnce q set
                                          | None => set
                                          end) sel acc ->
            ctx ∈ acc \/ exists p, p ∈ sel /\ ctx `prefix_of` p).
  { induction sel as [| p sel IH]; intros acc Hctx; [by left |].
    cbn [fold_left] in Hctx. destruct (IH _ Hctx) as [Hacc | (p' & Hp' & Hpre)].
    - destruct (closestOne cl d p) as [q |] eqn:Hq; [| by left].
      apply elem_of_addOnce in Hacc as [-> | Hacc]; [| by left].
      right. exists p. split; [by left |].
      unfold closestOne in Hq. apply find_some in Hq as [Hq _].
      apply list_elem_of_In in Hq. by apply elem_of_upwards in Hq as [_ Hq].
    - right. exists p'. split; [by right | exact Hpre]. }
  intros Hctx. destruct (Hgen [] Hctx) as [Hnil | H]; [by apply elem_of_nil in Hnil | exact H].
Qed.

Lemma nodeAt_app ctx : forall l i r,
  ctx <> [] ->
  nodeAt (ctx ++ i :: r) l
  = match nodeAt ctx l with Some n => nodeAt (i :: r) (kids n) | None => None end.
Proof.
  induction ctx as [| j s IH]; intros l i r Hne; [done |].
  destruct s as [| j' s].
  - cbn [app]. rewrite nodeAt_deeper, nodeAt_one. reflexivity.
  - change ((j :: j' :: s) ++ i :: r) with (j :: ((j' :: s) ++ i :: r)).
    change ((j' :: s) ++ i :: r) with (j' :: (s ++ i :: r)).
    rewrite !nodeAt_deeper. destruct (l !! j) as [n |]; [| reflexivity].
    change (j' :: (s ++ i :: r)) with ((j' :: s) ++ i :: r). by apply IH.
Qed.

Lemma inside_app ctx : forall p q, inside (ctx ++ p) (ctx ++ q) = inside p q.
Proof.
  induction ctx as [| i ctx IH]; intros p q; [reflexivity |].
  cbn [app inside]. by rewrite Nat.eqb_refl, IH.
Qed.

Lemma inside_apart p q : apart p q -> inside p q = false.
Proof.
  intros Hap. apply not_true_iff_false. intros Hin%inside_encloses.
  by apply (apart_not_encloses p q).
Qed.

(** What is found below a context after an element was rewritten that is
    neither the context nor around it. *)
Lemma findIn_setText s p v d ctx :
  structural s -> p <> [] -> ~ p `prefix_of` ctx ->
  findIn s (setText p v d) ctx
  = List.filter (fun q => negb (inside p q)) (findIn s d ctx).
Proof.
  intros [Ht Ha] Hp Hout. unfold findIn.
  destruct (decide (ctx = [])) as [-> | Hctx]; [reflexivity |].
  destruct (path_cases ctx p) as [-> | [(i & r & ->) | [(i & r & ->) | Hap]]].
  - exfalso. by apply Hout.
  - destruct (nodeAt ctx d) as [[x | t a c ks] |] eqn:Hn.
    + rewrite setText_dangling; [by rewrite Hn |].
      intros t a c ks. by rewrite nodeAt_app, Hn.
    + rewrite (nodeAt_setText_below ctx i r v d t a c ks Hn).
      rewrite lastChildAt_setText.
      2:{ intros (a' & b' & Heq). apply (f_equal length) in Heq.
          rewrite !length_app in Heq. cbn [length] in Heq. lia. }
      rewrite (advance_structural _ t a c (setText (i :: r) v ks) ks) by done.
      rewrite (walkAll_setText (target s) v r (walk_setTextN (target s) v Ht r))
        by (by apply advance_Forall).
      rewrite filter_map_swap. f_equal. apply filter_same. intros q _.
      by rewrite inside_app.
    + rewrite setText_dangling; [by rewrite Hn |].
      intros t a c ks. by rewrite nodeAt_app, Hn.
  - exfalso. apply Hout. by exists (i :: r).
  - rewrite nodeAt_setText_apart by exact Hap.
    rewrite lastChildAt_setText by (by apply apart_not_encloses).
    destruct (nodeAt ctx d) as [[x | t a c ks] |]; try reflexivity.
    symmetry. apply filter_all. intros q (rel & -> & _)%list_elem_of_fmap.
    apply negb_true_iff, not_true_iff_false. intros (i & r & Heq)%inside_encloses.
    destruct Hap as [H1 H2].
    destruct (prefix_weak_total p ctx (ctx ++ rel)) as [Hpre | Hpre];
      [by exists (i :: r) | by exists rel | by apply H1 | by apply H2].
Qed.

Lemma universal_structural : structural universal.
Proof. by repeat constructor. Qed.

Lemma existsb_same {A : Type} (f g : A -> bool) (l : list A) :
  (forall a, a ∈ l -> f a = g a) -> existsb f l = existsb g l.
Proof.
  induction l as [| a l IH]; intros H; [reflexivity |].
  cbn [existsb]. rewrite (H a) by (by left). f_equal. apply IH. intros b Hb. apply H. by right.
Qed.

Lemma find_setText s ctxs p v d :
  structural s -> p <> [] -> (forall ctx, ctx ∈ ctxs -> ~ p `prefix_of` ctx) ->
  find s ctxs (setText p v d) = List.filter (fun q => negb (inside p q)) (find s ctxs d).
Proof.
  intros Hs Hp Hout. unfold find.
  rewrite select_setText by (apply universal_structural || done).
  rewrite !filter_filter_and. apply filter_same. intros q _.
  destruct (negb (inside p q)) eqn:Hq; [| by rewrite andb_false_r].
  rewrite andb_true_r. cbn [andb]. apply existsb_same. intros ctx Hctx.
  rewrite findIn_setText by (done || by apply Hout).
  apply bool_decide_ext. rewrite filter_In_elem. by intuition.
Qed.

Lemma find_setEach s ctxs : forall ws d,
  structural s ->
  (forall w ctx, w ∈ targets ws -> ctx ∈ ctxs -> ~ w `prefix_of` ctx) ->
  (forall w q, w ∈ targets ws -> q ∈ select s d -> ~ encloses w q) ->
  find s ctxs (setEach ws d) = find s ctxs d.
Proof.
  induction ws as [| [p v] ws IH]; intros d Hs Hctx Hout; [reflexivity |].
  rewrite setEach_cons. cbn [fst snd].
  assert (Hone : find s ctxs (setText p v d) = find s ctxs d).
  { destruct (decide (p = [])) as [-> | Hp]; [reflexivity |].
    rewrite find_setText; [| exact Hs | exact Hp |].
    - apply filter_all. intros q Hq%find_select.
      apply negb_true_iff, not_true_iff_false. intros Hin%inside_encloses.
      apply (Hout p q); [cbn [targets map]; by left | exact Hq | exact Hin].
    - intros ctx Hc. apply Hctx; [cbn [targets map]; by left | exact Hc]. }
  rewrite IH; [exact Hone | exact Hs | |].
  - intros w ctx Hw Hc. apply Hctx; [cbn [targets map]; by right | exact Hc].
  - intros w q Hw Hq. apply Hout; [cbn [targets map]; by right |].
    by eapply select_setText_within.
Qed.

Lemma closestOne_setEach cl p : forall ws d,
  (forall w, w ∈ targets ws -> ~ w `prefix_of` p) ->
  closestOne cl (setEach ws d) p = closestOne cl d p.
Proof.
  induction ws as [| [q v] ws IH]; intros d Hout; [reflexivity |].
  rewrite setEach_cons. cbn [fst snd]. rewrite IH.
  - apply closestOne_setText. left. apply Hout. cbn [targets map]. by left.
  - intros w Hw. apply Hout. cbn [targets map]. by right.
Qed.

(** A selector that looks for a phrase keeps, of the elements that match
    without the phrase, those whose text holds it. *)
Section Contains.

Variable tgt : compound.
Variable phrase : string.
Hypothesis tgt_contains : c_contains tgt = Some phrase.



Lemma matches_contains n lastChild :
  matches tgt n lastChild = matches (withoutPhrase tgt) n lastChild && shows phrase (Some n).
Proof.
  destruct n as [x | t a c ks]; [reflexivity |].
  unfold matches, withoutPhrase. cbn [c_tag c_id c_classes c_lastChild c_contains shows].
  rewrite tgt_contains. by rewrite andb_true_r.
Qed.

Lemma walkAll_contains l :
  Forall (fun k => forall pend lastChild,
            walk pend tgt k lastChild
            = List.filter (fun q => shows phrase (nodeBelow q k)) (walk pend (withoutPhrase tgt) k lastChild))
         l ->
  forall pend,
    walkAll pend tgt l
    = List.filter (fun q => shows phrase (nodeAt q l)) (walkAll pend (withoutPhrase tgt) l).
Proof.
  induction 1 as [| k r Hk _ IH]; intros pend; [reflexivity |].
  cbn [walkAll]. rewrite List.filter_app, Hk, IH, !filter_map_swap. f_equal.
  f_equal. apply filter_same. intros q Hq. apply walkAll_nonempty in Hq.
  destruct q as [| i q]; [done |]. cbn [shift]. by rewrite !nodeAt_cons.
Qed.

Lemma walk_contains n : forall pend lastChild,
  walk pend tgt n lastChild
  = List.filter (fun q => shows phrase (nodeBelow q n)) (walk pend (withoutPhrase tgt) n lastChild).
Proof.
  induction n as [x | t a c ks IH] using node_rect_children; intros pend lastChild;
    [reflexivity |].
  rewrite !walk_Elem, List.filter_app. f_equal.
  - unfold selfMatch. destruct pend; [| reflexivity].
    rewrite matches_contains. destruct (matches (withoutPhrase tgt) _ _); [| reflexivity].
    cbn [andb List.filter nodeBelow]. by destruct (shows phrase _).
  - rewrite (walkAll_contains ks IH). apply filter_same. intros q Hq.
    apply walkAll_nonempty in Hq. by destruct q.
Qed.

Lemma select_contains anc d :
  select (Selector anc tgt) d
  = List.filter (fun q => shows phrase (nodeAt q d)) (select (Selector anc (withoutPhrase tgt)) d).
Proof.
  unfold select. cbn [ancestors target]. apply walkAll_contains.
  apply Forall_forall. intros k _. apply walk_contains.
Qed.

End Contains.

Lemma select_statement phrase d :
  select (statementSelector phrase) d
  = List.filter (fun q => JS.includes phrase (textAt q d)) (select statementNodes d).
Proof.
  unfold statementSelector.
  rewrite (select_contains
             (Compound None None ["glb-all-position-summary__statement"] false (Some phrase))
             phrase eq_refl).
  apply filter_same. intros q Hq. unfold textAt.
  apply select_elements in Hq as (t & a & c & ks & Hq). by rewrite Hq.
Qed.

Section Sections.

Variable x : document.
Hypothesis x_tidy : tidy x = true.

Lemma statement_text_after ws q :
  Forall (allowed x) ws -> q ∈ select statementNodes x ->
  textAt q (setEach ws x) = textAt q x.
Proof.
  intros Hws Hq. unfold textAt. rewrite nodeAt_setEach_apart; [reflexivity |].
  intros p Hp. apply apart_sym. apply (statement_apart x x_tidy); [exact Hq |].
  by eapply allowed_targets.
Qed.

Lemma statementSelector_after ws phrase :
  Forall (allowed x) ws ->
  select (statementSelector phrase) (setEach ws x) = select (statementSelector phrase) x.
Proof.
  intros Hws. rewrite !select_statement, (statements_after x x_tidy ws Hws).
  apply filter_same. intros q Hq. by rewrite statement_text_after.
Qed.

Lemma statement_not_below ws w p phrase :
  Forall (allowed x) ws -> w ∈ targets ws -> p ∈ select (statementSelector phrase) x ->
  ~ w `prefix_of` p.
Proof.
  intros Hws Hw Hp Hpre. rewrite select_statement in Hp. apply filter_In_elem in Hp as [Hp _].
  destruct (statement_apart x x_tidy p w Hp) as [_ H]; [by eapply allowed_targets |].
  by apply H.
Qed.

Lemma sections_after ws phrase :
  Forall (allowed x) ws ->
  closest totalbalanceSection (select (statementSelector phrase) (setEach ws x)) (setEach ws x)
  = closest totalbalanceSection (select (statementSelector phrase) x) x.
Proof.
  intros Hws. rewrite statementSelector_after by done. apply closest_ext.
  intros p Hp. apply closestOne_setEach. intros w Hw. by eapply statement_not_below.
Qed.

Lemma sectionAmount_after ws phrase :
  Forall (allowed x) ws -> sectionAmount phrase (setEach ws x) = sectionAmount phrase x.
Proof.
  intros Hws. unfold sectionAmount. rewrite sections_after by done. f_equal.
  apply find_setEach; [by repeat constructor | |].
  - intros w ctx Hw Hctx Hpre. apply elem_of_closest in Hctx as (p & Hp & Hcp).
    apply (statement_not_below ws w p phrase Hws Hw Hp). by etrans.
  - intros w q Hw Hq Henc.
    destruct (targets_apart x x_tidy ws w q Hws Hw) as [-> | Hap].
    + apply elem_of_matched. exists totalBalanceAmountSelector.
      split; [| exact Hq]. unfold writeSelectors, amountSelectors. cbn [app].
      do 2 right. by left.
    + destruct Henc as (i & r & Heq). apply (f_equal length) in Heq.
      rewrite length_app in Heq. cbn [length] in Heq. lia.
    + by apply (apart_not_encloses w q).
Qed.

Lemma steady_toSection phrase v :
  numericText (JS.trim v) = true -> sectionShowsNumber phrase x = true ->
  steady x (toSection phrase (Some v)).
Proof.
  intros Hv Hshown. split.
  - intros ws Hws. unfold toSection. by rewrite sectionAmount_after.
  - apply Forall_forall. intros w [Hval Hp]%elem_of_withValue.
    assert (Hsel : fst w ∈ select totalBalanceAmountSelector x)
      by (by apply sectionAmount_select with phrase).
    split; [| split].
    + apply elem_of_matched. exists totalBalanceAmountSelector.
      split; [| exact Hsel]. unfold writeSelectors, amountSelectors. cbn [app].
      do 2 right. by left.
    + rewrite Hval. by apply numericText_nonempty.
    + intros _. rewrite Hval. split; [exact Hv |].
      unfold sectionShowsNumber in Hshown. rewrite forallb_forall in Hshown.
      apply Hshown. by apply list_elem_of_In.
Qed.

End Sections.

(** * The rules of the four pages and of the global steps are steady *)

Lemma expensesText_nonempty nb : expensesText nb <> "".
Proof.
  unfold expensesText. destruct (nb !! "monthlyExpenses") as [v |]; [| done].
  by destruct v.
Qed.

Lemma formattedDigits_shown v : v <> "" -> formattedDigits v <> "".
Proof. intros Hv. by apply truthy_nonempty, formattedDigits_nonempty. Qed.

Section Steady.

Variable x : document.
Hypothesis x_tidy : tidy x = true.

Lemma steady_given s nb k : s ∈ plainSelectors -> steady x (toAll s (given nb k)).
Proof.
  intros Hs. destruct (given nb k) as [v |] eqn:Hv.
  - apply steady_toAll; [exact x_tidy | exact Hs | by eapply given_nonempty].
  - by apply steady_nothing.
Qed.

Lemma steady_digits s nb k :
  s ∈ plainSelectors -> steady x (toAll s (formattedDigits <$> given nb k)).
Proof.
  intros Hs. destruct (given nb k) as [v |] eqn:Hv; cbn [fmap option_fmap option_map].
  - apply steady_toAll; [exact x_tidy | exact Hs |].
    apply formattedDigits_shown. by eapply given_nonempty.
  - by apply steady_nothing.
Qed.

Lemma steady_firstNumeric s value :
  s ∈ amountSelectors -> numericIfSent value = true -> steady x (toFirstNumeric s value).
Proof.
  intros Hs Hv. destruct value as [v |]; [by apply steady_toFirstNumeric |].
  by apply steady_nothing.
Qed.

Lemma steady_eachNumeric s value :
  s ∈ amountSelectors -> numericIfSent value = true ->
  steady x (toEach numericText s value).
Proof.
  intros Hs Hv. destruct value as [v |]; [by apply steady_toEachNumeric |].
  by apply steady_nothing.
Qed.

Lemma steady_section phrase value :
  sectionFits phrase value x = true -> steady x (toSection phrase value).
Proof.
  intros Hv. destruct value as [v |]; [| by apply steady_nothing].
  apply andb_true_iff in Hv as [Hv Hshown]. by apply steady_toSection.
Qed.

Lemma rulesOf_steady fileType nb :
  amountsFit fileType nb x = true -> Forall (steady x) (rulesOf fileType nb).
Proof.
  unfold amountsFit, rulesOf. intros Hfit.
  destruct (String.eqb fileType "openbank").
  { repeat (apply andb_true_iff in Hfit as [Hfit ?]).
    unfold openbankRules. repeat apply Forall_cons_2; try apply Forall_nil_2.
    - apply steady_firstNumeric; [| done]. unfold amountSelectors. by left.
    - apply steady_firstNumeric; [| done]. unfold amountSelectors. right. by left.
    - apply steady_firstNumeric; [| done]. unfold amountSelectors. do 2 right. by left.
    - apply steady_toAll; [exact x_tidy | | apply expensesText_nonempty].
      unfold plainSelectors. by left.
    - by apply steady_section.
    - by apply steady_section. }
  destruct (String.eqb fileType "directDebits").
  { unfold directDebitsRules, plainSelectors. repeat apply Forall_cons_2; try apply Forall_nil_2.
    - apply steady_given. do 3 right. by left.
    - apply steady_digits. do 4 right. by left.
    - apply steady_given. do 5 right. by left.
    - apply steady_given. do 6 right. by left. }
  destruct (String.eqb fileType "cards").
  { unfold cardsRules, plainSelectors. repeat apply Forall_cons_2; try apply Forall_nil_2.
    apply steady_given. do 7 right. by left. }
  destruct (String.eqb fileType "transfers"); [| apply Forall_nil_2].
  unfold transfersRules, plainSelectors. repeat apply Forall_cons_2; try apply Forall_nil_2.
  - apply steady_eachNumeric; [| done]. unfold amountSelectors. do 3 right. by left.
  - apply steady_digits. do 8 right. by left.
Qed.

Lemma cardDigitsRule_steady pageType v :
  v <> "" -> Forall (steady x) (cardDigitsRule pageType v).
Proof.
  intros Hv. unfold cardDigitsRule, plainSelectors.
  destruct (String.eqb pageType "openbank").
  - repeat apply Forall_cons_2; try apply Forall_nil_2. apply steady_toAll; [exact x_tidy | | by apply formattedDigits_shown].
    right. by left.
  - destruct (String.eqb pageType "transfers"); [| apply Forall_nil_2].
    repeat apply Forall_cons_2; try apply Forall_nil_2. apply steady_toAll; [exact x_tidy | | by apply formattedDigits_shown].
    do 8 right. by left.
Qed.

Lemma accountBalanceRule_steady pageType v :
  numericText (JS.trim v) = true -> Forall (steady x) (accountBalanceRule pageType v).
Proof.
  intros Hv. unfold accountBalanceRule, amountSelectors.
  destruct (String.eqb pageType "openbank").
  - repeat apply Forall_cons_2; try apply Forall_nil_2. apply steady_toFirstNumeric; [exact x_tidy | | exact Hv]. by left.
  - destruct (String.eqb pageType "transfers"); [| apply Forall_nil_2].
    repeat apply Forall_cons_2; try apply Forall_nil_2. apply steady_toEachNumeric; [exact x_tidy | | exact Hv].
    do 3 right. by left.
Qed.

Lemma globalRules_steady nb fileType filePath :
  (String.eqb fileType "openbank" = true ->
   numericIfSent (given nb "accountTotalBalance") = true) ->
  Forall (steady x) (globalRules nb fileType filePath).
Proof.
  intros Hv. unfold globalRules. apply Forall_app. split.
  - destruct (given nb "cardLastDigits") as [digits |] eqn:Hd; [| apply Forall_nil_2].
    destruct (_ || _); [| apply Forall_nil_2].
    apply cardDigitsRule_steady. by eapply given_nonempty.
  - destruct (given nb "accountTotalBalance") as [balance |]; [| apply Forall_nil_2].
    destruct (String.eqb fileType "openbank"); [| apply Forall_nil_2].
    apply accountBalanceRule_steady. by apply Hv.
Qed.

End Steady.

(** * Pages that stay in a class *)

Section Class.

Variable P : document -> Prop.
Hypothesis P_closed :
  forall d p v, P d -> p ∈ matched writeSelectors d -> v <> "" -> P (setText p v d).

Variable x : document.
Hypothesis x_tidy : tidy x = true.
Hypothesis x_in : P x.

Lemma setEach_stays ws : Forall (allowed x) ws -> P (setEach ws x).
Proof.
  induction ws as [| w ws IH] using rev_ind; intros Hws; [exact x_in |].
  apply Forall_app in Hws as [Hws Hw]. apply Forall_singleton in Hw as (Hp & Hv & _).
  rewrite setEach_snoc. apply P_closed; [by apply IH | | exact Hv].
  by rewrite (matched_after x x_tidy ws writeSelectors Hws).
Qed.

End Class.

(** * The name update after the other global steps *)

Lemma toAll_targets s value d w : w ∈ toAll s value d -> fst w ∈ select s d.
Proof.
  unfold toAll. destruct value as [v |]; [| by intros H%elem_of_nil].
  by intros [_ H]%elem_of_withValue.
Qed.

Lemma toEach_targets test s value d w : w ∈ toEach test s value d -> fst w ∈ select s d.
Proof.
  unfold toEach. destruct value as [v |]; [| by intros H%elem_of_nil].
  by intros [_ [H _]%filter_In_elem]%elem_of_withValue.
Qed.

Lemma toFirstNumeric_targets s value d w :
  w ∈ toFirstNumeric s value d -> fst w ∈ select s d.
Proof.
  unfold toFirstNumeric. destruct value as [v |]; [| by intros H%elem_of_nil].
  intros [_ H]%elem_of_withValue.
  destruct (firstNumeric (select s d) d) as [p |] eqn:Hfirst; [| by apply elem_of_nil in H].
  cbn [option_list] in H. apply list_elem_of_singleton in H as ->.
  apply firstNumeric_split in Hfirst as (l1 & l2 & -> & _). apply elem_of_app. right. by left.
Qed.

Lemma kidsAfter_snoc q ws w ks :
  kidsAfter q (ws ++ [w]) ks
  = if bool_decide (fst w = q) then [Text (snd w)] else kidsAfter q ws ks.
Proof. by rewrite kidsAfter_app. Qed.

Lemma kidsAfter_written q : forall ws ks,
  q ∈ targets ws -> exists v, (q, v) ∈ ws /\ kidsAfter q ws ks = [Text v].
Proof.
  induction ws as [| w ws IH] using rev_ind; intros ks Hq; [by apply elem_of_nil in Hq |].
  rewrite kidsAfter_snoc. case_bool_decide as Hw.
  - exists (snd w). split; [| reflexivity]. apply elem_of_app. right.
    rewrite <- Hw. destruct w. by left.
  - unfold targets in Hq. rewrite map_app in Hq. apply elem_of_app in Hq as [Hq | Hq].
    + destruct (IH ks Hq) as (v & Hv & Hk). exists v. split; [| exact Hk].
      apply elem_of_app. by left.
    + cbn [map] in Hq. apply list_elem_of_singleton in Hq. by rewrite Hq in Hw.
Qed.

Section Name.

Variable x : document.
Hypothesis x_tidy : tidy x = true.

Lemma selector_apart i j s1 s2 p q :
  writeSelectors !! i = Some s1 -> writeSelectors !! j = Some s2 -> i <> j ->
  p ∈ select s1 x -> q ∈ select s2 x -> apart p q.
Proof. apply scattered_matched, matched_scattered, x_tidy. Qed.

Lemma not_avatar i s p :
  writeSelectors !! i = Some s -> i <> 6 -> p ∈ select s x -> p ∉ select avatarSelector x.
Proof.
  intros Hi Hne Hp Hq. apply (apart_irrefl p).
  by apply (selector_apart i 6 s avatarSelector).
Qed.

Lemma avatar_plain : avatarSelector ∈ plainSelectors.
Proof. unfold plainSelectors. do 2 right. by left. Qed.

Lemma avatar_allowed ws name :
  Forall (allowed x) ws -> name <> "" ->
  Forall (allowed x) (avatarRule name (setEach ws x)).
Proof.
  intros Hws Hname. unfold avatarRule, toEach.
  rewrite (select_after x x_tidy ws avatarSelector Hws)
    by (apply elem_of_app; right; apply avatar_plain).
  apply Forall_forall. intros w [Hval [Hp _]%filter_In_elem]%elem_of_withValue.
  assert (Hplain : fst w ∈ matched plainSelectors x).
  { apply elem_of_matched. exists avatarSelector. split; [apply avatar_plain | exact Hp]. }
  split; [by apply plain_matched |]. split; [by rewrite Hval |].
  intros Ha. by apply (plain_not_amount x x_tidy) in Hplain.
Qed.

Lemma avatar_targets ws name w :
  Forall (allowed x) ws -> w ∈ avatarRule name (setEach ws x) ->
  fst w ∈ select avatarSelector x.
Proof.
  intros Hws Hw. unfold avatarRule in Hw. apply toEach_targets in Hw.
  by rewrite (select_after x x_tidy ws avatarSelector Hws) in Hw
    by (apply elem_of_app; right; apply avatar_plain).
Qed.

(** The writes of the other steps, made again after the name was written,
    change nothing. *)
Lemma writes_again_after_name ws name :
  Forall (allowed x) ws -> name <> "" ->
  (forall w, w ∈ ws -> fst w ∉ select avatarSelector x) ->
  setEach ((ws ++ avatarRule name (setEach ws x)) ++ ws) x
  = setEach (ws ++ avatarRule name (setEach ws x)) x.
Proof.
  intros Hws Hname Hnot. set (A := avatarRule name (setEach ws x)).
  rewrite !setEach_app. rewrite (setEach_swap A ws).
  - by rewrite (allowed_twice x x_tidy ws Hws).
  - intros p q Hp Hq.
    apply elem_of_targets in Hp as (u & Hp). apply elem_of_targets in Hq as (v & Hq).
    apply (avatar_targets ws name _ Hws) in Hp as Hav. cbn [fst] in Hav.
    destruct (matched_apart x x_tidy p q) as [-> | Hap]; [| | | exact Hap].
    + apply plain_matched. apply elem_of_matched.
      exists avatarSelector. split; [apply avatar_plain | exact Hav].
    + apply (allowed_targets x ws q Hws). apply elem_of_targets. by exists v.
    + exfalso. by apply (Hnot _ Hq).
Qed.

(** Once the name was written the name update finds nothing to write that
    is not there. *)
Lemma name_again ws name :
  Forall (allowed x) ws -> name <> "" ->
  applyRule (avatarRule name) (setEach (ws ++ avatarRule name (setEach ws x)) x)
  = setEach (ws ++ avatarRule name (setEach ws x)) x.
Proof.
  intros Hws Hname. set (A := avatarRule name (setEach ws x)).
  assert (HA : Forall (allowed x) A) by (by apply avatar_allowed).
  assert (Hall : Forall (allowed x) (ws ++ A)) by (apply Forall_app; by split).
  unfold applyRule. apply setEach_again. intros w Hw.
  apply (avatar_targets (ws ++ A) name w Hall) in Hw as Hq.
  unfold avatarRule, toEach in Hw.
  apply elem_of_withValue in Hw as [Hval [_ Hstale]%filter_In_elem].
  rewrite Hval. set (q := fst w) in *.
  assert (Hm : q ∈ matched writeSelectors x).
  { apply plain_matched. apply elem_of_matched.
    exists avatarSelector. split; [apply avatar_plain | exact Hq]. }
  destruct (nodeAt_after x x_tidy (ws ++ A) q Hall Hm) as (t & a & c & ks & Hn & Hn').
  exists t, a, c. rewrite Hn'. do 2 f_equal. rewrite kidsAfter_app.
  destruct (decide (q ∈ targets A)) as [Hin | Hout].
  - destruct (kidsAfter_written q A (kidsAfter q ws ks) Hin) as (v & Hv & ->).
    unfold A, avatarRule, toEach in Hv. apply elem_of_withValue in Hv as [Hv _].
    cbn [snd] in Hv. by rewrite Hv.
  - exfalso. apply Hout. unfold A at 1, avatarRule, toEach. rewrite targets_withValue.
    apply filter_In_elem. split.
    + by rewrite (select_after x x_tidy ws avatarSelector Hws)
        by (apply elem_of_app; right; apply avatar_plain).
    + rewrite <- Hstale. do 2 f_equal. rewrite setEach_app.
      symmetry. apply textAt_setEach_untouched; [| exact Hout].
      intros p Hp. destruct (matched_apart x x_tidy p q) as [Heq | Hap];
        [by apply (allowed_targets x A p HA) | exact Hm | by left | by right].
Qed.

End Name.

(** * The global steps on one page *)

Section Global.

Variable x : document.
Hypothesis x_tidy : tidy x = true.

Variable nb : gmap string string.
Variables fileType filePath : string.
Hypothesis balance_numeric :
  String.eqb fileType "openbank" = true ->
  numericIfSent (given nb "accountTotalBalance") = true.

Lemma globalRules_not_avatar w :
  w ∈ writesOn x (globalRules nb fileType filePath) ->
  fst w ∉ select avatarSelector x.
Proof.
  unfold globalRules. rewrite writesOn_app. intros Hw.
  apply elem_of_app in Hw as [Hw | Hw].
  - destruct (given nb "cardLastDigits") as [digits |]; [| by apply elem_of_nil in Hw].
    destruct (_ || _); [| by apply elem_of_nil in Hw].
    unfold cardDigitsRule in Hw. destruct (String.eqb (typeOfPath filePath) "openbank").
    + rewrite writesOn_one in Hw. apply toAll_targets in Hw.
      by apply (not_avatar x x_tidy 5 cardTitleSelector).
    + destruct (String.eqb (typeOfPath filePath) "transfers");
        [| by apply elem_of_nil in Hw].
      rewrite writesOn_one in Hw. apply toAll_targets in Hw.
      by apply (not_avatar x x_tidy 12 dropdownIbanSelector).
  - destruct (given nb "accountTotalBalance") as [balance |]; [| by apply elem_of_nil in Hw].
    destruct (String.eqb fileType "openbank"); [| by apply elem_of_nil in Hw].
    unfold accountBalanceRule in Hw. destruct (String.eqb (typeOfPath filePath) "openbank").
    + rewrite writesOn_one in Hw. apply toFirstNumeric_targets in Hw.
      by apply (not_avatar x x_tidy 0 accountTotalSelector).
    + destruct (String.eqb (typeOfPath filePath) "transfers");
        [| by apply elem_of_nil in Hw].
      rewrite writesOn_one in Hw. apply toEach_targets in Hw.
      by apply (not_avatar x x_tidy 3 dropdownAmountSelector).
Qed.

Lemma globalRules_allowed :
  Forall (allowed x) (writesOn x (globalRules nb fileType filePath)).
Proof.
  apply (applyRules_writes x). by apply globalRules_steady.
Qed.

Lemma globalName_nonempty name : globalName nb fileType filePath = Some name -> name <> "".
Proof.
  unfold globalName. destruct (given _ "avatarName") as [n |] eqn:Hn; [| discriminate].
  destruct (_ && _); [| discriminate]. intros [= <-]. by eapply given_nonempty.
Qed.

Lemma globalWrites_allowed : Forall (allowed x) (globalWrites nb fileType filePath x).
Proof.
  unfold globalWrites. apply Forall_app. split; [apply globalRules_allowed |].
  destruct (globalName nb fileType filePath) as [name |] eqn:Hname; [| constructor].
  apply (avatar_allowed x x_tidy); [apply globalRules_allowed |].
  by apply globalName_nonempty.
Qed.

(** The card digits and the balance written again over what the global
    steps left change nothing, and nor does the name. *)
Lemma globalWrites_again :
  setEach (globalWrites nb fileType filePath x
           ++ writesOn x (globalRules nb fileType filePath)) x
  = setEach (globalWrites nb fileType filePath x) x.
Proof.
  unfold globalWrites. destruct (globalName nb fileType filePath) as [name |] eqn:Hname.
  - apply (writes_again_after_name x x_tidy); [apply globalRules_allowed | |].
    + by apply globalName_nonempty.
    + apply globalRules_not_avatar.
  - rewrite app_nil_r, setEach_app. apply (allowed_twice x x_tidy), globalRules_allowed.
Qed.

Lemma globalWrites_name_again name :
  globalName nb fileType filePath = Some name ->
  applyRule (avatarRule name) (setEach (globalWrites nb fileType filePath x) x)
  = setEach (globalWrites nb fileType filePath x) x.
Proof.
  intros Hname. unfold globalWrites. rewrite Hname.
  apply (name_again x x_tidy); [apply globalRules_allowed | by apply globalName_nonempty].
Qed.

End Global.

(** * Pages without void elements under the round trip of the examples *)

Lemma withoutVoidChildren_same n : noVoid n = true -> withoutVoidChildren n = n.
Proof.
  induction n as [s | t a c ks IH] using node_rect_children; [reflexivity |].
  cbn [noVoid withoutVoidChildren]. intros [Ht Hks]%andb_true_iff.
  apply negb_true_iff in Ht. rewrite Ht. f_equal.
  induction IH as [| k r Hk _ IHr]; [reflexivity |].
  apply andb_true_iff in Hks as [H1 H2]. cbn [map]. f_equal; [by apply Hk | by apply IHr].
Qed.

Lemma noVoids_reload d : noVoids d = true -> reload (RoundTrip := exampleRoundTrip) d = d.
Proof.
  unfold noVoids, reload, exampleRoundTrip. intros H.
  induction d as [| k r IH]; [reflexivity |].
  cbn [forallb] in H. apply andb_true_iff in H as [H1 H2].
  cbn [map]. f_equal; [by apply withoutVoidChildren_same | by apply IH].
Qed.

Lemma noVoid_children t a c ks :
  noVoid (Elem t a c ks) = negb (existsb (String.eqb t) voidTags) && noVoids ks.
Proof.
  reflexivity.
Qed.

Lemma noVoids_setText p : forall v d, noVoids d = true -> noVoids (setText p v d) = true.
Proof.
  induction p as [| i r IH]; intros v d Hd; [exact Hd |].
  rewrite setText_cons. revert i. induction d as [| k rest IHd]; intros i; [by destruct i |].
  unfold noVoids in Hd. cbn [forallb] in Hd. apply andb_true_iff in Hd as [Hk Hrest].
  destruct i as [| i].
  - cbn [alter list_alter]. unfold noVoids. cbn [forallb]. rewrite Hrest, andb_true_r.
    destruct k as [s | t a c ks]; [reflexivity |].
    cbn [setTextN]. rewrite noVoid_children in *.
    apply andb_true_iff in Hk as [Ht Hks]. rewrite Ht. cbn [andb].
    destruct r as [| j r]; [reflexivity | by apply IH].
  - cbn [alter list_alter]. unfold noVoids. cbn [forallb]. rewrite Hk. cbn [andb].
    by apply IHd.
Qed.

(** A character that begins no white space. *)
Lemma digit_or_dot_plain c :
  JS.isDigit c || Ascii.eqb c "." = true ->
  JS.isWhiteSpace c = false /\ Ascii.eqb " " c = false
  /\ (forall b, JS.isWhiteSpace2 c b = false)
  /\ (forall b d, JS.isWhiteSpace3 c b d = false).
Proof.
  destruct c as [[] [] [] [] [] [] [] []]; cbn; intros H; try discriminate H;
    by repeat split.
Qed.

Lemma trimStart_plain c r :
  JS.isDigit c || Ascii.eqb c "." = true -> JS.trimStart (String c r) = String c r.
Proof.
  intros (Hw & _ & H2 & H3)%digit_or_dot_plain. cbn [JS.trimStart]. rewrite Hw.
  destruct r as [| b [| d r]]; [reflexivity | by rewrite H2 | by rewrite H2, H3].
Qed.

Lemma trim_dotted s : JS.startsWith "." s = true -> JS.trim s <> "".
Proof.
  destruct s as [| c r]; [discriminate |]. cbn [JS.startsWith].
  destruct (Ascii.eqb_spec "." c) as [<- | Hne]; [| discriminate]. intros _.
  unfold JS.trim. rewrite (trimStart_plain "." r eq_refl).
  cbn [JS.trimEnd]. unfold JS.blank. by rewrite (trimStart_plain "." r eq_refl).
Qed.

Lemma formattedDigits_dotted v : JS.startsWith "." (formattedDigits v) = true.
Proof.
  unfold formattedDigits. destruct (JS.startsWith "..." v) eqn:Hv; [| reflexivity].
  cbn [negb]. destruct v as [| c v]; [discriminate Hv |].
  cbn [JS.startsWith] in *. by destruct (Ascii.eqb "." c).
Qed.

(** * Reading a page after a run of writes *)

Section Read.

Variable x : document.
Hypothesis x_tidy : tidy x = true.

Variable ws : list (path * string).
Hypothesis ws_allowed : Forall (allowed x) ws.

Lemma firstNumeric_after s :
  s ∈ amountSelectors ->
  firstNumeric (select s (setEach ws x)) (setEach ws x) = firstNumeric (select s x) x.
Proof.
  intros Hs. rewrite (select_after x x_tidy ws s ws_allowed)
    by (apply elem_of_app; by left).
  apply firstNumeric_ext. intros q Hq. apply (numeric_after x x_tidy ws q ws_allowed).
  apply elem_of_matched. by exists s.
Qed.

Lemma readFirstNumeric_after s initial t :
  s ∈ amountSelectors -> firstNumeric (select s x) x = Some t ->
  readFirstNumeric s initial (setEach ws x) = JS.trim (textAt t (setEach ws x)).
Proof. intros Hs Ht. unfold readFirstNumeric. by rewrite firstNumeric_after, Ht. Qed.

Lemma readOr_single s initial p :
  s ∈ writeSelectors -> select s x = [p] ->
  readOr s initial (setEach ws x) = orElse (JS.trim (textAt p (setEach ws x))) initial.
Proof.
  intros Hs Hp. unfold readOr.
  by rewrite (select_after x x_tidy ws s ws_allowed Hs), Hp, text_single.
Qed.

Lemma readSection_after phrase t :
  sectionAmount phrase x = [t] ->
  readSection phrase (setEach ws x)
  = if numericText (JS.trim (textAt t (setEach ws x)))
    then JS.trim (textAt t (setEach ws x)) else "0.00".
Proof.
  intros Ht. unfold readSection.
  rewrite (sections_after x x_tidy ws phrase ws_allowed).
  rewrite (sectionAmount_after x x_tidy ws phrase ws_allowed), Ht, text_single.
  destruct (closest totalbalanceSection (select (statementSelector phrase) x) x) eqn:Hc;
    [| reflexivity].
  exfalso. unfold sectionAmount in Ht. by rewrite Hc, find_no_context in Ht.
Qed.

(** The element shows what the last write to it put there. *)
Lemma shown_last q v ws1 ws2 :
  ws = ws1 ++ (q, v) :: ws2 -> q ∉ targets ws2 -> textAt q (setEach ws x) = v.
Proof.
  intros Hws Hlast. rewrite Hws.
  assert (Hq : q ∈ matched writeSelectors x).
  { apply (allowed_targets x ws q ws_allowed). rewrite Hws. unfold targets.
    rewrite map_app. apply elem_of_app. right. by left. }
  apply textAt_setEach_last; [| | exact Hlast].
  - apply elem_of_matched in Hq as (s & _ & Hq). by eapply select_elements.
  - rewrite <- Hws. intros p Hp. by apply (targets_apart x x_tidy ws).
Qed.

End Read.

Section Shown.

Variable x : document.
Hypothesis x_tidy : tidy x = true.

Variable ws : list (path * string).
Hypothesis ws_allowed : Forall (allowed x) ws.

(** An element that every write to it gives the same text shows that
    text. *)
Lemma shown_same q v :
  (q, v) ∈ ws -> (forall w, w ∈ ws -> fst w = q -> snd w = v) ->
  textAt q (setEach ws x) = v.
Proof.
  intros Hin Hall.
  assert (Hq : q ∈ targets ws) by (apply elem_of_targets; by exists v).
  destruct (nodeAt_after x x_tidy ws q ws_allowed (allowed_targets x ws q ws_allowed Hq))
    as (t & a & c & ks & _ & Hn).
  rewrite (textAt_node _ _ _ Hn).
  destruct (kidsAfter_written q ws ks Hq) as (u & Hu & ->).
  rewrite textContent_single. by apply (Hall (q, u)).
Qed.

(** Elements matched by another selector of the rules are other
    elements. *)
Lemma other_selector i j s1 s2 t p :
  writeSelectors !! i = Some s1 -> writeSelectors !! j = Some s2 -> i <> j ->
  t ∈ select s1 x -> p ∈ select s2 x -> p <> t.
Proof.
  intros Hi Hj Hne Ht Hp ->. apply (apart_irrefl t).
  by apply (selector_apart x x_tidy i j s1 s2).
Qed.

End Shown.

(** * What a run of rules leaves alone *)

(** Rules that write only elements matched by given selectors leave alone
    every node apart from the elements these selectors match on the page
    the run starts from. *)
Lemma applyRules_frame (ss : list selector) q : forall rs d,
  Forall structural ss ->
  Forall (fun r : rule => forall z w, w ∈ r z -> fst w ∈ matched ss z) rs ->
  (forall o, o ∈ matched ss d -> apart o q) ->
  nodeAt q (applyRules rs d) = nodeAt q d.
Proof.
  induction rs as [| r rs IH]; intros d Hss Hrs Hap; [reflexivity |].
  apply Forall_cons in Hrs as [Hr Hrs]. cbn [applyRules fold_left]. fold (applyRules rs).
  assert (Hone : nodeAt q (applyRule r d) = nodeAt q d).
  { unfold applyRule. apply nodeAt_setEach_apart.
    intros p (v & Hp)%elem_of_targets. apply Hap. by apply (Hr d (p, v)). }
  rewrite IH; [exact Hone | exact Hss | exact Hrs |].
  intros o Ho. apply Hap. apply elem_of_matched in Ho as (s & Hs & Ho).
  apply elem_of_matched. exists s. split; [exact Hs |].
  unfold applyRule in Ho. apply select_setEach_within in Ho; [exact Ho |].
  rewrite Forall_forall in Hss. by apply Hss.
Qed.

Lemma matched_setText_outside ss p v d o :
  Forall structural ss -> p <> [] ->
  o ∈ matched ss (setText p v d) -> o ∈ matched ss d /\ ~ encloses p o.
Proof.
  intros Hss Hp (s & Hs & Ho)%elem_of_matched. rewrite Forall_forall in Hss.
  rewrite select_setText in Ho by (by apply Hss || done).
  apply filter_In_elem in Ho as [Ho Hout]. split.
  - apply elem_of_matched. by exists s.
  - intros Hin%inside_encloses. by rewrite Hin in Hout.
Qed.

Lemma laterMainSelectors_structural : Forall structural laterMainSelectors.
Proof. repeat apply Forall_cons_2; try apply Forall_nil_2; by split; repeat constructor. Qed.

Lemma openbankRules_later nb :
  Forall (fun r : rule => forall z w, w ∈ r z -> fst w ∈ matched laterMainSelectors z)
         (tail (openbankRules nb)).
Proof.
  assert (Hsec : forall phrase value z w,
             w ∈ toSection phrase value z -> fst w ∈ matched laterMainSelectors z).
  { intros phrase value z w Hw. apply elem_of_matched. exists totalBalanceAmountSelector.
    split; [right; by left |]. unfold toSection in Hw.
    destruct value as [v |]; [| by apply elem_of_nil in Hw].
    apply elem_of_withValue in Hw as [_ Hw]. by eapply sectionAmount_select. }
  cbn [openbankRules tail].
  repeat apply Forall_cons_2; try apply Forall_nil_2; try (intros z w; apply Hsec).
  - intros z w Hw%toFirstNumeric_targets. apply elem_of_matched.
    exists individualAccountSelector. split; [by left | exact Hw].
  - intros z w Hw%toFirstNumeric_targets. apply elem_of_matched.
    exists totalBalanceAmountSelector. split; [right; by left | exact Hw].
  - intros z w Hw%toAll_targets. apply elem_of_matched.
    exists monthlyExpensesSelector. split; [right; right; by left | exact Hw].
Qed.

(** The update of the main page, once the total balance found its element. *)
Lemma updateOpenbankValues_first nb d v earlier p later :
  nb !! "accountTotalBalance" = Some v ->
  select accountTotalSelector d = earlier ++ p :: later ->
  numericText (JS.trim (textAt p d)) = true ->
  (forall q, q ∈ earlier -> numericText (JS.trim (textAt q d)) = false) ->
  updateOpenbankValues d nb = applyRules (tail (openbankRules nb)) (setText p v d).
Proof.
  intros Hv Hsel Hp Hearlier. rewrite updateOpenbankValues_rules.
  unfold openbankRules. cbn [applyRules fold_left tail]. f_equal.
  unfold applyRule, toFirstNumeric. rewrite Hv, Hsel.
  by rewrite (firstNumeric_found d earlier p later Hp Hearlier).
Qed.

(** What a selector matches after a loop of rewritings was matched before
    and lies inside none of the rewritten elements. *)
Lemma select_after_written s l v d o p :
  structural s -> (forall x, x ∈ l -> x <> []) -> p ∈ l ->
  o ∈ select s (setTextAll l v d) -> o ∈ select s d /\ ~ encloses p o.
Proof.
  intros Hs Hl Hp Ho. rewrite select_setTextAll in Ho by done.
  apply filter_In_elem in Ho as [Ho Hout]. split; [exact Ho |].
  intros Hin%inside_encloses. rewrite forallb_forall in Hout.
  specialize (Hout p). rewrite <- list_elem_of_In in Hout.
  apply Hout in Hp. by rewrite Hin in Hp.
Qed.

Lemma apart_of_outside o p : o <> p -> ~ encloses o p -> ~ encloses p o -> apart o p.
Proof. intros Hne H1 H2. apply apart_of_not_enclosing; [congruence | exact H1 | exact H2]. Qed.

Lemma apart_outside o p : apart o p -> o <> p /\ ~ encloses o p.
Proof.
  intros [H1 _]. split.
  - intros ->. by apply H1.
  - intros (i & r & ->). apply H1. by exists (i :: r).
Qed.
Section AnyRoundTrip1.

Context {html : RoundTrip}.


(** * Facts about strings *)




Lemma startsWith_spec p : forall s, JS.startsWith p s = true <-> exists r, s = p +:+ r.
Proof.
  induction p as [| a p IH]; intros s; simpl.
  - split; [intros _; by exists s | done].
  - destruct s as [| b s].
    + split; [discriminate | intros (r & H); discriminate].
    + destruct (Ascii.eqb_spec a b) as [-> | Hne].
      * rewrite IH. split; intros (r & H); exists r; [by rewrite H | by injection H].
      * split; [discriminate |]. intros (r & H). injection H as H1 H2. by destruct Hne.
Qed.

Lemma stripLeadingDots_spec s :
  exists dots, s = dots +:+ JS.stripLeadingDots s
               /\ onlyDots dots = true
               /\ JS.startsWith "." (JS.stripLeadingDots s) = false.
Proof.
  induction s as [| c s (dots & H1 & H2 & H3)]; cbn [JS.stripLeadingDots].
  - by exists "".
  - destruct (Ascii.eqb_spec c ".") as [-> | Hne].
    + exists (String "." dots). repeat split;
        [rewrite append_cons; congruence
        | simpl; exact H2 | exact H3].
    + exists "". repeat split. cbn [JS.startsWith].
      destruct (Ascii.eqb_spec "." c) as [<- | _]; [done | reflexivity].
Qed.



Lemma given_singleton k v : v <> "" -> given {[ k := v ]} k = Some v.
Proof.
  intros Hv. unfold given. rewrite lookup_singleton_eq.
  destruct v; [done | reflexivity].
Qed.

Lemma given_singleton_ne k k' (v : string) : k <> k' -> given {[ k := v ]} k' = None.
Proof. intros Hne. unfold given. by rewrite lookup_singleton_ne. Qed.

(** * The dotted prefix of the card digits *)

Lemma writeGiven_written s w d p :
  p ∈ select s d ->
  (forall q, q ∈ select s d -> ~ encloses q p) ->
  textAt p (writeGiven s (Some w) d) = w.
Proof.
  intros Hin Hout. unfold writeGiven.
  destruct (select s d) as [| e sel] eqn:Hsel; [by apply elem_of_nil in Hin |].
  cbn [isEmpty negb]. rewrite <- Hsel in *.
  destruct (select_elements s d p Hin) as (t & a & c & ks & Hn).
  erewrite textAt_node; [| by eapply setTextAll_written].
  apply textContent_single.
Qed.

(** C3. A card-digit value written under a dotted-prefix rule: a value that
    starts with "..." is written as it is; any other value is written as
    "..." followed by the value without its leading dots.  The four places
    of the source that apply the rule (both targets of the global update,
    the direct-debits block and the transfers block) write this one text
    into the elements of their selector. *)
Theorem card_digits_dotted_prefix (v : string) (d : document) :
  v <> "" ->
  ((exists rest, v = "..." +:+ rest) -> formattedDigits v = v)
  /\ ((forall rest, v <> "..." +:+ rest) ->
      exists dots rest,
        v = dots +:+ rest /\ onlyDots dots = true /\ JS.startsWith "." rest = false
        /\ formattedDigits v = "..." +:+ rest)
  /\ fst (cardDigitsIn "openbank" v d) = writeGiven cardTitleSelector (Some (formattedDigits v)) d
  /\ fst (cardDigitsIn "transfers" v d)
     = writeGiven dropdownIbanSelector (Some (formattedDigits v)) d
  /\ updateDirectDebitsValues d {[ "cardLastDigits" := v ]}
     = writeGiven ibanSelector (Some (formattedDigits v)) d
  /\ updateTransfersValues d {[ "cardLastDigits" := v ]}
     = writeGiven dropdownIbanSelector (Some (formattedDigits v)) d
  /\ (forall s p, p ∈ select s d ->
        (forall q, q ∈ select s d -> ~ encloses q p) ->
        textAt p (writeGiven s (Some (formattedDigits v)) d) = formattedDigits v).
Proof.
  intros Hv. repeat split.
  - intros Hpre. apply startsWith_spec in Hpre. unfold formattedDigits. by rewrite Hpre.
  - intros Hno. unfold formattedDigits.
    destruct (JS.startsWith "..." v) eqn:Hs.
    + apply startsWith_spec in Hs as (r & Hr). by destruct (Hno r).
    + destruct (stripLeadingDots_spec v) as (dots & H1 & H2 & H3).
      exists dots, (JS.stripLeadingDots v). by repeat split.
  - unfold cardDigitsIn, writeGiven. cbn [String.eqb Ascii.eqb Bool.eqb].
    by destruct (select cardTitleSelector d).
  - unfold cardDigitsIn, writeGiven. cbn [String.eqb Ascii.eqb Bool.eqb].
    by destruct (select dropdownIbanSelector d).
  - unfold updateDirectDebitsValues.
    rewrite (given_singleton "cardLastDigits" v Hv).
    rewrite !given_singleton_ne by done. reflexivity.
  - unfold updateTransfersValues, updateAccountAmounts.
    rewrite (given_singleton "cardLastDigits" v Hv).
    rewrite !given_singleton_ne by done. reflexivity.
  - intros s p Hin Hout. by apply writeGiven_written.
Qed.

End AnyRoundTrip1.

Section Examples1.

#[local] Existing Instance exampleRoundTrip.


Lemma card_digits_dotted_prefix_witness :
  "2150" <> ""
  /\ formattedDigits "2150" = "...2150"
  /\ updateDirectDebitsValues directDebitsPage {[ "cardLastDigits" := "2150" ]}
     = writeGiven ibanSelector (Some "...2150") directDebitsPage.
Proof.
  assert (H : "2150" <> "") by discriminate.
  split; [exact H |].
  destruct (card_digits_dotted_prefix "2150" directDebitsPage H)
    as (_ & _ & _ & _ & Hdd & _).
  split; [reflexivity | exact Hdd].
Defined.

End Examples1.

Section AnyRoundTrip2.

Context {html : RoundTrip}.


(** * Loading, saving and the global updates *)

Lemma loadHTMLFile_known fileType fileName fs :
  JS.assoc fileType HTML_FILES = Some fileName ->
  loadHTMLFile fileType fs
  = match fs !! fileName with
    | Some f => (inr (content f), fs)
    | None => (inl (ReferenceError "fileName is not defined"), fs)
    end.
Proof.
  intros H. unfold loadHTMLFile, tryCatch, JS.get. rewrite H. unfold readFile.
  by destruct (fs !! fileName).
Qed.

Lemma loadHTMLFile_unknown fileType fs :
  JS.assoc fileType HTML_FILES = None ->
  loadHTMLFile fileType fs = (inl (ReferenceError "fileName is not defined"), fs).
Proof.
  intros H. unfold loadHTMLFile, tryCatch, JS.get. rewrite H.
  by destruct (existsb _ _).
Qed.

Lemma saveHTMLFile_known d fileType fileName fs :
  JS.assoc fileType HTML_FILES = Some fileName ->
  saveHTMLFile d fileType fs
  = match fs !! fileName with
    | Some f =>
        if writable f then (inr tt, <[fileName := File true (reload d)]> fs)
        else (inl (Error ("Failed to save " +:+ fileType +:+ " file: "
                          +:+ message (SystemError "EACCES" fileName))), fs)
    | None => (inr tt, <[fileName := File true (reload d)]> fs)
    end.
Proof.
  intros H. unfold saveHTMLFile, tryCatch, JS.get. rewrite H. unfold writeFile.
  destruct (fs !! fileName) as [f |]; [| reflexivity]. by destruct (writable f).
Qed.

(** One round of the loop of a global update over its targets. *)
Lemma target_round (countFailure : bool) fileType fileName
    (change : document -> document * bool) counts fs :
  JS.assoc fileType HTML_FILES = Some fileName ->
  tryCatch (A := nat * nat)
    (let* d := loadHTMLFile fileType in
     let '(d', updated) := change d in
     if updated
     then let* _ := saveHTMLFile d' fileType in ret (S (fst counts), snd counts)
     else ret (fst counts, S (snd counts)))
    (fun fileError =>
       ret (if countFailure then (fst counts, S (snd counts)) else counts)) fs
  = (inr (tally countFailure (outcomeOf fileName change fs) counts),
     rewriteFile fileName change fs).
Proof.
  intros H. unfold tryCatch, bind, ret, rewriteFile, outcomeOf.
  rewrite (loadHTMLFile_known _ _ _ H).
  destruct (fs !! fileName) as [f |] eqn:Hf; [| reflexivity].
  destruct (change (content f)) as [d' updated]. cbn [fst snd].
  destruct updated; [| reflexivity].
  rewrite (saveHTMLFile_known _ _ _ _ H), Hf.
  by destruct (writable f).
Qed.

Lemma updateCardDigitsGlobally_spec v fs :
  updateCardDigitsGlobally v fs
  = let fs1 := rewriteFile "Openbank.html" (cardDigitsIn "openbank" v) fs in
    (inr (tally false (outcomeOf "Openbank-transfers.html" (cardDigitsIn "transfers" v) fs1)
            (tally false (outcomeOf "Openbank.html" (cardDigitsIn "openbank" v) fs) (0, 0))),
     rewriteFile "Openbank-transfers.html" (cardDigitsIn "transfers" v) fs1).
Proof.
  unfold updateCardDigitsGlobally. cbn [forOf]. unfold bind at 1.
  pose proof (target_round false "openbank" "Openbank.html" (cardDigitsIn "openbank" v)
                (0, 0) fs eq_refl) as H1.
  cbn [fst snd] in H1. rewrite H1. clear H1.
  set (c1 := tally false _ (0, 0)). set (fs1 := rewriteFile "Openbank.html" _ fs).
  unfold bind at 1.
  pose proof (target_round false "transfers" "Openbank-transfers.html"
                (cardDigitsIn "transfers" v) c1 fs1 eq_refl) as H2.
  destruct c1 as [u s]. cbn [fst snd] in H2. rewrite H2. reflexivity.
Qed.

Lemma updateAccountBalanceGlobally_spec v fs :
  updateAccountBalanceGlobally v fs
  = let fs1 := rewriteFile "Openbank.html" (accountBalanceIn "openbank" v) fs in
    (inr (tally true (outcomeOf "Openbank-transfers.html" (accountBalanceIn "transfers" v) fs1)
            (tally true (outcomeOf "Openbank.html" (accountBalanceIn "openbank" v) fs) (0, 0))),
     rewriteFile "Openbank-transfers.html" (accountBalanceIn "transfers" v) fs1).
Proof.
  unfold updateAccountBalanceGlobally. cbn [forOf]. unfold bind at 1.
  pose proof (target_round true "openbank" "Openbank.html" (accountBalanceIn "openbank" v)
                (0, 0) fs eq_refl) as H1.
  cbn [fst snd] in H1. rewrite H1. clear H1.
  set (c1 := tally true _ (0, 0)). set (fs1 := rewriteFile "Openbank.html" _ fs).
  unfold bind at 1.
  pose proof (target_round true "transfers" "Openbank-transfers.html"
                (accountBalanceIn "transfers" v) c1 fs1 eq_refl) as H2.
  destruct c1 as [u s]. cbn [fst snd] in H2. rewrite H2. reflexivity.
Qed.

Lemma rewriteFile_other filePath change fs other :
  filePath <> other -> rewriteFile filePath change fs !! other = fs !! other.
Proof.
  intros Hne. unfold rewriteFile. destruct (fs !! filePath) as [f |]; [| reflexivity].
  destruct (_ && _); [by rewrite lookup_insert_ne | reflexivity].
Qed.

Lemma rewriteFile_same filePath change fs :
  rewriteFile filePath change fs !! filePath
  = match fs !! filePath with
    | Some f =>
        if snd (change (content f)) && writable f
        then Some (File true (reload (fst (change (content f)))))
        else Some f
    | None => None
    end.
Proof.
  unfold rewriteFile. destruct (fs !! filePath) as [f |] eqn:Hf; [| exact Hf].
  destruct (_ && _); [by rewrite lookup_insert_eq | exact Hf].
Qed.

Lemma avatarInFile_spec name filePath counts fs :
  avatarInFile name filePath counts fs
  = (inr (tally true (outcomeOf filePath (avatarChange name) fs) counts),
     rewriteFile filePath (avatarChange name) fs).
Proof.
  destruct counts as [u s].
  unfold avatarInFile, tryCatch, bind, ret, readFile, writeFile, rewriteFile, outcomeOf,
    avatarChange.
  destruct (fs !! filePath) as [f |] eqn:Hf; [| reflexivity].
  destruct (select avatarSelector (content f)) as [| e sel] eqn:Hsel; [reflexivity |].
  cbn [isEmpty negb]. rewrite <- Hsel.
  destruct (eachWhere _ _ _ _) as [d' hit]. cbn [fst snd].
  destruct hit; [| reflexivity]. rewrite Hf. by destruct (writable f).
Qed.

Lemma forOf_avatar name : forall l counts fs,
  exists counts',
    forOf l (avatarInFile name) counts fs
    = (inr counts', fold_left (fun fs' p => rewriteFile p (avatarChange name) fs') l fs).
Proof.
  induction l as [| p l IH]; intros counts fs.
  - by exists counts.
  - cbn [forOf fold_left]. unfold bind at 1. rewrite avatarInFile_spec. apply IH.
Qed.

(** The three global updates always return: a target that fails is logged
    and the loop goes on. *)
Lemma updateAvatarNameGlobally_returns name fs :
  exists counts,
    updateAvatarNameGlobally name fs
    = (inr counts,
       fold_left (fun fs' p => rewriteFile p (avatarChange name) fs') (htmlFiles fs) fs).
Proof. unfold updateAvatarNameGlobally. apply forOf_avatar. Qed.

Lemma fold_rewriteFile_other change : forall l fs other,
  other ∉ l ->
  fold_left (fun fs' p => rewriteFile p change fs') l fs !! other = fs !! other.
Proof.
  induction l as [| p l IH]; intros fs other Hnot; [reflexivity |].
  cbn [fold_left]. rewrite IH by (intros Hin; apply Hnot; by right).
  apply rewriteFile_other. intros ->. apply Hnot. by left.
Qed.

Lemma fold_rewriteFile_same change : forall l fs filePath,
  NoDup l -> filePath ∈ l ->
  fold_left (fun fs' p => rewriteFile p change fs') l fs !! filePath
  = rewriteFile filePath change fs !! filePath.
Proof.
  induction l as [| p l IH]; intros fs filePath Hnd Hin; [by apply elem_of_nil in Hin |].
  cbn [fold_left]. apply NoDup_cons in Hnd as [Hp Hnd].
  apply elem_of_cons in Hin as [-> | Hin].
  - by rewrite fold_rewriteFile_other.
  - rewrite IH by done. rewrite !rewriteFile_same.
    assert (Hne : p <> filePath) by (intros ->; by apply Hp).
    by rewrite rewriteFile_other.
Qed.

Lemma htmlFiles_NoDup fs : NoDup (htmlFiles fs).
Proof.
  unfold htmlFiles. apply NoDup_ListNoDup, List.NoDup_filter, NoDup_ListNoDup.
  apply NoDup_fst_map_to_list.
Qed.

(** C7. Evaluation at the failing input: with the main page missing, the
    card-digit update still rewrites the transfers page and returns, yet its
    counters show one updated and none skipped, so the target that failed is
    counted nowhere; the balance update, on the same files, counts it as
    skipped.  For all files, both updates return and what happens to the
    transfers page does not depend on the main page. *)
Theorem card_digits_failure_not_counted :
  (let fs := delete "Openbank.html" projectFiles in
   answer (updateCardDigitsGlobally "2150") fs = inr (1, 0)
   /\ answer (updateAccountBalanceGlobally "1000.50") fs = inr (1, 1)
   /\ pageOf (filesAfter (updateCardDigitsGlobally "2150") fs) "Openbank-transfers.html"
      = reload (writeGiven dropdownIbanSelector (Some "...2150") transfersPage))
  /\ (forall v fs,
        (exists counts, answer (updateCardDigitsGlobally v) fs = inr counts)
        /\ (exists counts, answer (updateAccountBalanceGlobally v) fs = inr counts)
        /\ filesAfter (updateCardDigitsGlobally v) fs !! "Openbank-transfers.html"
           = rewriteFile "Openbank-transfers.html" (cardDigitsIn "transfers" v) fs
               !! "Openbank-transfers.html"
        /\ filesAfter (updateAccountBalanceGlobally v) fs !! "Openbank-transfers.html"
           = rewriteFile "Openbank-transfers.html" (accountBalanceIn "transfers" v) fs
               !! "Openbank-transfers.html").
Proof.
  split.
  - repeat split; vm_compute; reflexivity.
  - intros v fs. unfold answer, filesAfter.
    rewrite updateCardDigitsGlobally_spec, updateAccountBalanceGlobally_spec.
    cbn [fst snd]. repeat split; try by eexists.
    + rewrite !rewriteFile_same. by rewrite rewriteFile_other.
    + rewrite !rewriteFile_same. by rewrite rewriteFile_other.
Qed.

(** C10. Evaluation at the failing inputs: for a file type that is not
    registered both routes answer with the [ReferenceError] thrown in the
    handler of [loadHTMLFile], not with "Unknown file type"; and
    [extractBalanceValues] called with a key of [Object.prototype] returns
    an empty record instead of throwing. *)
Theorem unknown_file_type_not_reported :
  (forall fs, answer (getCurrentBalances "nope") fs
              = inl (ReferenceError "fileName is not defined"))
  /\ (forall fs balances, answer (postUpdateBalances balances "nope") fs
                          = inl (ReferenceError "fileName is not defined"))
  /\ (forall d, extractBalanceValues d "constructor" = inr ∅).
Proof. repeat split. Qed.

(** * The global steps of an update *)

Lemma given_delete_ne (nb : gmap string string) k k' :
  k <> k' -> given (delete k nb) k' = given nb k'.
Proof. intros Hne. unfold given. by rewrite lookup_delete_ne. Qed.

Lemma bind_returns {A B : Type} (c : M A) (k : A -> M B) (k' : M B) fs fs' :
  (exists a, c fs = (inr a, fs')) -> (forall a, k a = k') -> bind c k fs = k' fs'.
Proof. intros (a & Hc) Hk. unfold bind. by rewrite Hc, Hk. Qed.

Lemma updateCardDigitsGlobally_files v fs :
  exists counts, updateCardDigitsGlobally v fs = (inr counts, cardDigitsFiles v fs).
Proof. rewrite updateCardDigitsGlobally_spec. by eexists. Qed.

Lemma updateAccountBalanceGlobally_files v fs :
  exists counts, updateAccountBalanceGlobally v fs = (inr counts, accountBalanceFiles v fs).
Proof. rewrite updateAccountBalanceGlobally_spec. by eexists. Qed.

Lemma updateAvatarNameGlobally_files name fs :
  exists counts, updateAvatarNameGlobally name fs = (inr counts, avatarFiles name fs).
Proof. apply updateAvatarNameGlobally_returns. Qed.

(** The global steps never throw: they hand [workingSet] to the local
    rules and leave the files as [globalFiles] says. *)
Lemma globalSteps_spec nb fileType fs :
  globalSteps nb fileType fs = (inr (workingSet nb fileType), globalFiles nb fileType fs).
Proof.
  unfold globalSteps, workingSet, globalFiles, propagatesDigits.
  set (nb1 := if match given nb "cardLastDigits" with
                 | Some _ => String.eqb fileType "openbank" || String.eqb fileType "transfers"
                 | None => false
                 end
              then delete "cardLastDigits" nb else nb).
  set (fs1 := match given nb "cardLastDigits" with
              | Some digits =>
                  if String.eqb fileType "openbank" || String.eqb fileType "transfers"
                  then cardDigitsFiles digits fs else fs
              | None => fs
              end).
  assert (H1 : match given nb "cardLastDigits" with
               | Some digits =>
                   if String.eqb fileType "openbank" || String.eqb fileType "transfers"
                   then let* _ := updateCardDigitsGlobally digits in
                        ret (delete "cardLastDigits" nb)
                   else ret nb
               | None => ret nb
               end fs = (inr nb1, fs1)).
  { subst nb1 fs1. destruct (given nb "cardLastDigits") as [digits |]; [| reflexivity].
    destruct (_ || _); [| reflexivity].
    by apply bind_returns; [apply updateCardDigitsGlobally_files |]. }
  unfold bind at 1. rewrite H1. clear H1.
  assert (Hsame : given nb1 "accountTotalBalance" = given nb "accountTotalBalance").
  { subst nb1. destruct (given nb "cardLastDigits"); [| reflexivity].
    destruct (_ || _); [by apply given_delete_ne | reflexivity]. }
  rewrite Hsame.
  set (fs2 := match given nb "accountTotalBalance" with
              | Some balance =>
                  if String.eqb fileType "openbank" then accountBalanceFiles balance fs1 else fs1
              | None => fs1
              end).
  assert (H2 : match given nb "accountTotalBalance" with
               | Some balance =>
                   if String.eqb fileType "openbank"
                   then let* _ := updateAccountBalanceGlobally balance in ret tt
                   else ret tt
               | None => ret tt
               end fs1 = (inr tt, fs2)).
  { subst fs2. destruct (given nb "accountTotalBalance") as [balance |]; [| reflexivity].
    destruct (String.eqb fileType "openbank"); [| reflexivity].
    by apply bind_returns; [apply updateAccountBalanceGlobally_files |]. }
  unfold bind at 1. rewrite H2. clear H2.
  destruct (given nb1 "avatarName") as [name |]; [| reflexivity].
  by apply bind_returns; [apply updateAvatarNameGlobally_files |].
Qed.

Lemma globalSteps_answer nb fileType fs :
  answer (globalSteps nb fileType) fs = inr (workingSet nb fileType).
Proof. unfold answer. by rewrite globalSteps_spec. Qed.

Lemma workingSet_other nb fileType k :
  k <> "cardLastDigits" -> k <> "avatarName" -> workingSet nb fileType !! k = nb !! k.
Proof.
  intros H1 H2. unfold workingSet.
  set (nb1 := if propagatesDigits nb fileType then delete "cardLastDigits" nb else nb).
  assert (Hk : nb1 !! k = nb !! k).
  { subst nb1. destruct (propagatesDigits nb fileType); [by rewrite lookup_delete_ne | done]. }
  destruct (given nb1 "avatarName"); [by rewrite lookup_delete_ne | exact Hk].
Qed.

(** C4, as the code has it.  When the local rules start, [cardLastDigits]
    is gone from the working set if it was propagated (given, on the main or
    the transfers page) and [avatarName] is gone if it was given; every
    other field, [accountTotalBalance] among them, is still there although
    it was propagated, so the local rule of the main page writes the total
    balance once more. *)
Theorem global_fields_in_working_set (nb : gmap string string) (fileType : string)
    (fs : gmap string file) :
  exists working,
    answer (globalSteps nb fileType) fs = inr working
    /\ (forall v, given nb "cardLastDigits" = Some v ->
          fileType = "openbank" \/ fileType = "transfers" ->
          working !! "cardLastDigits" = None)
    /\ (forall v, given nb "avatarName" = Some v -> working !! "avatarName" = None)
    /\ (forall k, k <> "cardLastDigits" -> k <> "avatarName" -> working !! k = nb !! k)
    /\ (forall d, updateAccountTotal working d
                  = writeFirstNumeric accountTotalSelector (nb !! "accountTotalBalance") d).
Proof.
  exists (workingSet nb fileType). split; [apply globalSteps_answer |].
  split; [| split; [| split]].
  - intros v Hv Hft. unfold workingSet, propagatesDigits. rewrite Hv.
    assert (Hb : String.eqb fileType "openbank" || String.eqb fileType "transfers" = true)
      by (destruct Hft as [-> | ->]; reflexivity).
    rewrite Hb.
    destruct (given (delete "cardLastDigits" nb) "avatarName").
    + rewrite lookup_delete_ne by done. apply lookup_delete_eq.
    + apply lookup_delete_eq.
  - intros v Hv. unfold workingSet.
    set (nb1 := if propagatesDigits nb fileType then delete "cardLastDigits" nb else nb).
    destruct (given nb1 "avatarName") as [name |] eqn:Hn; [apply lookup_delete_eq |].
    assert (Hsame : given nb1 "avatarName" = given nb "avatarName").
    { subst nb1. destruct (propagatesDigits nb fileType); [by apply given_delete_ne | done]. }
    congruence.
  - intros k. apply workingSet_other.
  - intros d. unfold updateAccountTotal. by rewrite workingSet_other.
Qed.

End AnyRoundTrip2.

Section Examples2.

#[local] Existing Instance exampleRoundTrip.


Lemma global_fields_in_working_set_witness :
  given (<["cardLastDigits" := "2150"]> {[ "avatarName" := "Ana" ]}) "cardLastDigits"
  = Some "2150"
  /\ given (<["cardLastDigits" := "2150"]> {[ "avatarName" := "Ana" ]}) "avatarName"
     = Some "Ana"
  /\ exists working,
       answer (globalSteps (<["cardLastDigits" := "2150"]> {[ "avatarName" := "Ana" ]})
                 "openbank") projectFiles = inr working
       /\ working !! "cardLastDigits" = None
       /\ working !! "avatarName" = None.
Proof.
  assert (H1 : given (<["cardLastDigits" := "2150"]> {[ "avatarName" := "Ana" ]})
                 "cardLastDigits" = Some "2150") by reflexivity.
  assert (H2 : given (<["cardLastDigits" := "2150"]> {[ "avatarName" := "Ana" ]})
                 "avatarName" = Some "Ana") by reflexivity.
  split; [exact H1 | split; [exact H2 |]].
  destruct (global_fields_in_working_set
              (<["cardLastDigits" := "2150"]> {[ "avatarName" := "Ana" ]})
              "openbank" projectFiles) as (working & Ha & Hc & Hn & _).
  exists working. split; [exact Ha |]. split.
  - apply (Hc "2150" H1). by left.
  - apply (Hn "Ana" H2).
Defined.

(** C4 fails as stated: a total balance sent for the main page is
    propagated (the transfers page is rewritten) and is still in the working
    set afterwards, and the local rule of the main page applies it again to
    the page of the request. *)
Lemma total_balance_applied_twice :
  exists working,
    globalSteps {[ "accountTotalBalance" := "1000.50" ]} "openbank" projectFiles
    = (inr working, accountBalanceFiles "1000.50" projectFiles)
    /\ textAt [1; 0] (pageOf (accountBalanceFiles "1000.50" projectFiles)
                             "Openbank-transfers.html") = "1000.50"
    /\ working !! "accountTotalBalance" = Some "1000.50"
    /\ textAt [0; 0; 0] mainPage = "430.26"
    /\ textAt [0; 0; 0] (updateOpenbankValues mainPage working) = "1000.50".
Proof.
  exists (workingSet {[ "accountTotalBalance" := "1000.50" ]} "openbank").
  split; [by rewrite globalSteps_spec |].
  repeat split; vm_compute; reflexivity.
Qed.

End Examples2.

Section AnyRoundTrip3.

Context {html : RoundTrip}.


(** * Extraction from a page in which nothing is found *)

Lemma readFirstNumeric_none s initial d : select s d = [] -> readFirstNumeric s initial d = initial.
Proof. intros H. unfold readFirstNumeric. by rewrite H. Qed.

Lemma readAvatarName_none d : select avatarSelector d = [] -> readAvatarName d = "Alfonso".
Proof. intros H. unfold readAvatarName. by rewrite H. Qed.

Lemma readMonthlyExpenses_none d :
  select monthlyExpensesSelector d = [] -> readMonthlyExpenses d = "0.00".
Proof. intros H. unfold readMonthlyExpenses. by rewrite H. Qed.

Lemma readSection_none phrase d :
  select (statementSelector phrase) d = [] -> readSection phrase d = "0.00".
Proof. intros H. unfold readSection. by rewrite H. Qed.

Lemma readCardTitle_none d : select cardTitleSelector d = [] -> readCardTitle d = "...2150".
Proof. intros H. unfold readCardTitle. by rewrite H. Qed.

Lemma readOr_none s initial d : initial <> "" -> select s d = [] -> readOr s initial d = initial.
Proof. intros Hi H. unfold readOr. rewrite H. by destruct initial. Qed.

Lemma extract_nothing_found fileType d :
  fileType ∈ registeredTypes ->
  Forall (fun s => select s d = []) (locators fileType) ->
  extractBalanceValues d fileType = inr (initialValues fileType).
Proof.
  intros Hft Hnone. unfold registeredTypes in Hft.
  repeat (apply elem_of_cons in Hft as [-> | Hft]); [| | | | by apply elem_of_nil in Hft];
    unfold locators in Hnone; cbn [String.eqb Ascii.eqb Bool.eqb] in Hnone;
    repeat match goal with
           | H : Forall _ (_ :: _) |- _ => apply Forall_cons in H as [? H]
           end;
    unfold extractBalanceValues; cbn [JS.get JS.assoc FIELD_CONFIGS String.eqb Ascii.eqb Bool.eqb];
    f_equal.
  - unfold extractOpenbankValues.
    rewrite !readFirstNumeric_none, readMonthlyExpenses_none, !readSection_none,
      readAvatarName_none, readCardTitle_none by done.
    apply map_eq. intros k. vm_compute. reflexivity.
  - unfold extractDirectDebitsValues.
    rewrite !readOr_none, readAvatarName_none by done. reflexivity.
  - unfold extractCardsValues.
    rewrite !readOr_none, readAvatarName_none by done. reflexivity.
  - unfold extractTransfersValues.
    rewrite !readOr_none, readFirstNumeric_none, readAvatarName_none by done. reflexivity.
Qed.

End AnyRoundTrip3.


Ltac by_field H :=
  repeat match type of H with
         | context [String.eqb ?f ?name] =>
             is_var f; destruct (String.eqb_spec f name) as [-> | ?];
             [injection H as <-; vm_compute; reflexivity |]
         end;
  try discriminate H.
Section AnyRoundTrip4.

Context {html : RoundTrip}.


(** C2, as the code has it.  On a page of a registered type where none of
    the selectors of its extract function matches, extraction returns a
    record that holds, for every field the registry has for the page, the
    registered default, except that the monthly expenses of the main page
    come back as "0.00", the registered "0.00 â‚¬" without its currency
    part.  Extraction of a registered type never throws. *)
Theorem extract_defaults_when_nothing_found (fileType : string) (d : document) :
  fileType ∈ registeredTypes ->
  Forall (fun s => select s d = []) (locators fileType) ->
  exists balances,
    extractBalanceValues d fileType = inr balances
    /\ forall field dflt,
         registeredDefault fileType field = Some dflt ->
         balances !! field
         = Some (if String.eqb fileType "openbank" && String.eqb field "monthlyExpenses"
                 then "0.00" else dflt).
Proof.
  intros Hft Hnone. exists (initialValues fileType).
  split; [by apply extract_nothing_found |].
  clear Hnone d. intros field dflt H. unfold registeredTypes in Hft.
  repeat (apply elem_of_cons in Hft as [-> | Hft]); [| | | | by apply elem_of_nil in Hft];
    unfold registeredDefault in H;
    cbn [JS.assoc FIELD_CONFIGS String.eqb Ascii.eqb Bool.eqb] in H;
    by_field H.
Qed.

End AnyRoundTrip4.

Section Examples3.

#[local] Existing Instance exampleRoundTrip.


Lemma extract_defaults_when_nothing_found_witness :
  "cards" ∈ registeredTypes
  /\ Forall (fun s => select s maintenancePage = []) (locators "cards")
  /\ exists balances,
       extractBalanceValues maintenancePage "cards" = inr balances
       /\ balances !! "cardLastDigits" = Some "1704"
       /\ balances !! "avatarName" = Some "Alfonso".
Proof.
  assert (H1 : "cards" ∈ registeredTypes) by (unfold registeredTypes; repeat constructor).
  assert (H2 : Forall (fun s => select s maintenancePage = []) (locators "cards"))
    by (repeat constructor).
  split; [exact H1 | split; [exact H2 |]].
  destruct (extract_defaults_when_nothing_found "cards" maintenancePage H1 H2)
    as (balances & He & Hd).
  exists balances. split; [exact He |]. split.
  - apply (Hd "cardLastDigits" "1704"). reflexivity.
  - apply (Hd "avatarName" "Alfonso"). reflexivity.
Defined.

(** C2 fails as stated: on the empty main page no selector matches, and the
    monthly expenses come back as "0.00" while the registry has "0.00 â‚¬". *)
Lemma monthly_expenses_default_differs :
  Forall (fun s => select s [] = []) (locators "openbank")
  /\ registeredDefault "openbank" "monthlyExpenses" = Some ("0.00 " +:+ euro)
  /\ exists balances,
       extractBalanceValues [] "openbank" = inr balances
       /\ balances !! "monthlyExpenses" = Some "0.00"
       /\ balances !! "monthlyExpenses" <> registeredDefault "openbank" "monthlyExpenses".
Proof.
  split; [repeat constructor |]. split; [reflexivity |].
  exists (extractOpenbankValues []). split; [reflexivity |]. split; [reflexivity |].
  vm_compute. discriminate.
Qed.

End Examples3.

Section AnyRoundTrip5.

Context {html : RoundTrip}.


(** * The update route *)

Lemma updateBalanceValues_spec d nb fileType fs :
  fileType ∈ registeredTypes ->
  updateBalanceValues d nb fileType fs
  = (inr (localRules fileType d (workingSet nb fileType)), globalFiles nb fileType fs).
Proof.
  intros Hft. unfold updateBalanceValues, bind. rewrite globalSteps_spec.
  unfold registeredTypes in Hft.
  repeat (apply elem_of_cons in Hft as [-> | Hft]); [| | | | by apply elem_of_nil in Hft];
    reflexivity.
Qed.

Lemma updateBalanceValues_unknown d nb fileType fs :
  fileType ∉ registeredTypes ->
  answer (updateBalanceValues d nb fileType) fs
  = inl (Error ("Unknown file type: " +:+ fileType)).
Proof.
  intros Hft. unfold answer, updateBalanceValues, bind. rewrite globalSteps_spec.
  unfold registeredTypes in Hft.
  destruct (String.eqb_spec fileType "openbank") as [-> | H1]; [exfalso; apply Hft; set_solver |].
  destruct (String.eqb_spec fileType "directDebits") as [-> | H2];
    [exfalso; apply Hft; set_solver |].
  destruct (String.eqb_spec fileType "cards") as [-> | H3]; [exfalso; apply Hft; set_solver |].
  destruct (String.eqb_spec fileType "transfers") as [-> | H4];
    [exfalso; apply Hft; set_solver |].
  reflexivity.
Qed.

Lemma extractBalanceValues_unknown d fileType :
  JS.get FIELD_CONFIGS fileType = JS.Undefined ->
  extractBalanceValues d fileType = inl (Error ("Unknown file type: " +:+ fileType)).
Proof. intros H. unfold extractBalanceValues. by rewrite H. Qed.

Lemma registered_file fileType :
  fileType ∈ registeredTypes -> exists fileName, JS.assoc fileType HTML_FILES = Some fileName.
Proof.
  intros Hft. unfold registeredTypes in Hft.
  repeat (apply elem_of_cons in Hft as [-> | Hft]); [| | | | by apply elem_of_nil in Hft];
    by eexists.
Qed.

(** The route: the page is loaded, the global steps run on the files, the
    local rules rewrite the page that was loaded before them, and that page
    is saved over the file. *)
Lemma postUpdateBalances_spec nb fileType fileName fs :
  fileType ∈ registeredTypes ->
  JS.assoc fileType HTML_FILES = Some fileName ->
  postUpdateBalances nb fileType fs
  = match fs !! fileName with
    | Some f =>
        saveHTMLFile (localRules fileType (content f) (workingSet nb fileType)) fileType
                     (globalFiles nb fileType fs)
    | None => (inl (ReferenceError "fileName is not defined"), fs)
    end.
Proof.
  intros Hft Hname. unfold postUpdateBalances. unfold bind at 1.
  rewrite (loadHTMLFile_known _ _ _ Hname).
  destruct (fs !! fileName) as [f |]; [| reflexivity].
  unfold bind. by rewrite updateBalanceValues_spec.
Qed.

Lemma saveHTMLFile_other d fileType fileName fs other :
  JS.assoc fileType HTML_FILES = Some fileName -> fileName <> other ->
  filesAfter (saveHTMLFile d fileType) fs !! other = fs !! other.
Proof.
  intros Hname Hne. unfold filesAfter. rewrite (saveHTMLFile_known _ _ _ _ Hname).
  destruct (fs !! fileName) as [f |].
  - destruct (writable f); cbn [snd]; [by rewrite lookup_insert_ne | reflexivity].
  - cbn [snd]. by rewrite lookup_insert_ne.
Qed.

Lemma postUpdateBalances_other nb fileType fileName fs other :
  fileType ∈ registeredTypes ->
  JS.assoc fileType HTML_FILES = Some fileName ->
  is_Some (fs !! fileName) ->
  fileName <> other ->
  filesAfter (postUpdateBalances nb fileType) fs !! other
  = globalFiles nb fileType fs !! other.
Proof.
  intros Hft Hname [f Hf] Hne. unfold filesAfter.
  rewrite (postUpdateBalances_spec _ _ _ _ Hft Hname), Hf.
  by apply (saveHTMLFile_other _ _ _ _ _ Hname).
Qed.

Lemma postUpdateBalances_missing nb fileType fileName fs :
  fileType ∈ registeredTypes ->
  JS.assoc fileType HTML_FILES = Some fileName ->
  fs !! fileName = None ->
  filesAfter (postUpdateBalances nb fileType) fs = fs.
Proof.
  intros Hft Hname Hf. unfold filesAfter.
  by rewrite (postUpdateBalances_spec _ _ _ _ Hft Hname), Hf.
Qed.

(** * Where the card digits go *)

Lemma cardDigitsFiles_other v fs other :
  other <> "Openbank.html" -> other <> "Openbank-transfers.html" ->
  cardDigitsFiles v fs !! other = fs !! other.
Proof. intros H1 H2. unfold cardDigitsFiles. by rewrite !rewriteFile_other. Qed.

Lemma accountBalanceFiles_other v fs other :
  other <> "Openbank.html" -> other <> "Openbank-transfers.html" ->
  accountBalanceFiles v fs !! other = fs !! other.
Proof. intros H1 H2. unfold accountBalanceFiles. by rewrite !rewriteFile_other. Qed.

(** Without a name change the global steps touch the main and the
    transfers file only. *)
Lemma globalFiles_other nb fileType fs other :
  given nb "avatarName" = None ->
  other <> "Openbank.html" -> other <> "Openbank-transfers.html" ->
  globalFiles nb fileType fs !! other = fs !! other.
Proof.
  intros Hav H1 H2. unfold globalFiles.
  assert (Hav' : given (if propagatesDigits nb fileType
                        then delete "cardLastDigits" nb else nb) "avatarName" = None).
  { destruct (propagatesDigits nb fileType); [by rewrite given_delete_ne | done]. }
  rewrite Hav'.
  destruct (given nb "accountTotalBalance") as [bal |];
    destruct (given nb "cardLastDigits") as [digits |];
    destruct (String.eqb fileType "openbank");
    destruct (String.eqb fileType "transfers"); cbn [orb];
    rewrite ?accountBalanceFiles_other, ?cardDigitsFiles_other by done; reflexivity.
Qed.

Lemma cardDigitsIn_openbank v d :
  cardDigitsIn "openbank" v d
  = (writeGiven cardTitleSelector (Some (formattedDigits v)) d,
     negb (isEmpty (select cardTitleSelector d))).
Proof.
  unfold cardDigitsIn, writeGiven. cbn [String.eqb Ascii.eqb Bool.eqb].
  by destruct (select cardTitleSelector d).
Qed.

Lemma cardDigitsIn_transfers v d :
  cardDigitsIn "transfers" v d
  = (writeGiven dropdownIbanSelector (Some (formattedDigits v)) d,
     negb (isEmpty (select dropdownIbanSelector d))).
Proof.
  unfold cardDigitsIn, writeGiven. cbn [String.eqb Ascii.eqb Bool.eqb].
  by destruct (select dropdownIbanSelector d).
Qed.

Lemma writeGiven_nothing s w d : select s d = [] -> writeGiven s (Some w) d = d.
Proof. intros H. unfold writeGiven. by rewrite H. Qed.

(** The page of a writable file after one target of a global update. *)
Lemma pageOf_rewriteFile filePath (change : document -> document * bool) fs f :
  fs !! filePath = Some f -> writable f = true ->
  pageOf (rewriteFile filePath change fs) filePath = saved change (content f).
Proof.
  intros Hf Hw. unfold pageOf, saved. rewrite rewriteFile_same, Hf, Hw, andb_true_r.
  by destruct (snd (change (content f))).
Qed.

Lemma rewriteFile_writable filePath change fs k f :
  fs !! k = Some f -> writable f = true ->
  exists f', rewriteFile filePath change fs !! k = Some f' /\ writable f' = true.
Proof.
  intros Hf Hw. destruct (decide (filePath = k)) as [-> | Hne].
  - rewrite rewriteFile_same, Hf. destruct (_ && _); by eexists.
  - rewrite rewriteFile_other by done. by exists f.
Qed.

(** The page of the transfers file after the card digits and then, when the
    request gives one, the total balance were propagated to it. *)
Lemma globalFiles_openbank_transfers nb v fs t :
  given nb "cardLastDigits" = Some v ->
  given nb "avatarName" = None ->
  fs !! "Openbank-transfers.html" = Some t -> writable t = true ->
  pageOf (globalFiles nb "openbank" fs) "Openbank-transfers.html"
  = match given nb "accountTotalBalance" with
    | Some balance =>
        saved (accountBalanceIn "transfers" balance)
              (saved (cardDigitsIn "transfers" v) (content t))
    | None => saved (cardDigitsIn "transfers" v) (content t)
    end.
Proof.
  intros Hc Hav Ht Hw. unfold globalFiles, propagatesDigits. rewrite Hc.
  cbn [String.eqb Ascii.eqb Bool.eqb orb]. rewrite given_delete_ne, Hav by done.
  assert (H1 : pageOf (cardDigitsFiles v fs) "Openbank-transfers.html"
               = saved (cardDigitsIn "transfers" v) (content t)).
  { unfold cardDigitsFiles. apply pageOf_rewriteFile; [| exact Hw].
    by rewrite rewriteFile_other. }
  destruct (given nb "accountTotalBalance") as [balance |]; [| exact H1].
  unfold accountBalanceFiles.
  destruct (rewriteFile_writable "Openbank-transfers.html" (cardDigitsIn "transfers" v)
              (rewriteFile "Openbank.html" (cardDigitsIn "openbank" v) fs)
              "Openbank-transfers.html" t) as (t1 & Ht1 & Hw1);
    [by rewrite rewriteFile_other | exact Hw |].
  fold (cardDigitsFiles v fs) in Ht1.
  rewrite (pageOf_rewriteFile _ _ _ t1); [| by rewrite rewriteFile_other | exact Hw1].
  unfold pageOf in H1. rewrite Ht1 in H1. by rewrite H1.
Qed.

Lemma saved_cardDigitsIn_transfers v d :
  saved (cardDigitsIn "transfers" v) d
  = if isEmpty (select dropdownIbanSelector d) then d
    else reload (setTextAll (select dropdownIbanSelector d) (formattedDigits v) d).
Proof.
  unfold saved, cardDigitsIn. cbn [String.eqb Ascii.eqb Bool.eqb].
  by destruct (select dropdownIbanSelector d).
Qed.

Lemma saved_cardDigitsIn_openbank v d :
  saved (cardDigitsIn "openbank" v) d
  = if isEmpty (select cardTitleSelector d) then d
    else reload (setTextAll (select cardTitleSelector d) (formattedDigits v) d).
Proof.
  unfold saved, cardDigitsIn. cbn [String.eqb Ascii.eqb Bool.eqb].
  by destruct (select cardTitleSelector d).
Qed.

(** C1, as the code has it.  A request for the main or the transfers page
    that gives the card digits (and no new name) propagates them between
    these two pages only.  In the other page of the two every element of
    its card-digit selector is rewritten with the dotted form and the page
    is saved, when the file can be written and the page of the request
    could be loaded; a request for the main page that also gives a total
    balance then lets the balance propagation run over that saved page.
    The direct-debits and the cards file are not targets and stay as they
    are.  The cards page is written by its own rule only, which stores the
    value as it comes, with no prefix added or removed. *)
Theorem card_digits_propagation (fs : gmap string file) (nb : gmap string string)
    (v fileType : string) :
  given nb "cardLastDigits" = Some v ->
  given nb "avatarName" = None ->
  fileType = "openbank" \/ fileType = "transfers" ->
  filesAfter (postUpdateBalances nb fileType) fs !! "Openbank-cards.html"
  = fs !! "Openbank-cards.html"
  /\ filesAfter (postUpdateBalances nb fileType) fs !! "Openbank-direct-debits.html"
     = fs !! "Openbank-direct-debits.html"
  /\ (forall t,
        fileType = "openbank" -> is_Some (fs !! "Openbank.html") ->
        fs !! "Openbank-transfers.html" = Some t -> writable t = true ->
        let written :=
          if isEmpty (select dropdownIbanSelector (content t)) then content t
          else reload (setTextAll (select dropdownIbanSelector (content t))
                                  (formattedDigits v) (content t)) in
        pageOf (filesAfter (postUpdateBalances nb fileType) fs) "Openbank-transfers.html"
        = match given nb "accountTotalBalance" with
          | Some balance => saved (accountBalanceIn "transfers" balance) written
          | None => written
          end)
  /\ (forall o,
        fileType = "transfers" -> is_Some (fs !! "Openbank-transfers.html") ->
        fs !! "Openbank.html" = Some o -> writable o = true ->
        pageOf (filesAfter (postUpdateBalances nb fileType) fs) "Openbank.html"
        = if isEmpty (select cardTitleSelector (content o)) then content o
          else reload (setTextAll (select cardTitleSelector (content o))
                                  (formattedDigits v) (content o)))
  /\ (forall d, updateCardsValues d nb = writeGiven cardNumberSelector (Some v) d).
Proof.
  intros Hc Hav Hft.
  assert (Hreg : fileType ∈ registeredTypes)
    by (unfold registeredTypes; destruct Hft as [-> | ->]; repeat constructor).
  destruct (registered_file fileType Hreg) as (fileName & Hname).
  assert (Hown : fileName = "Openbank.html" \/ fileName = "Openbank-transfers.html").
  { destruct Hft as [-> | ->]; cbn in Hname; injection Hname as <-; [by left | by right]. }
  assert (Hothers : forall other,
            other <> "Openbank.html" -> other <> "Openbank-transfers.html" ->
            filesAfter (postUpdateBalances nb fileType) fs !! other = fs !! other).
  { intros other H1 H2. destruct (fs !! fileName) as [f |] eqn:Hf.
    - rewrite (postUpdateBalances_other nb fileType fileName fs other Hreg Hname);
        [by apply globalFiles_other | by eexists | destruct Hown as [-> | ->]; congruence].
    - by rewrite (postUpdateBalances_missing nb fileType fileName fs Hreg Hname Hf). }
  split; [by apply Hothers |]. split; [by apply Hothers |]. split; [| split].
  - intros t -> Ho Ht Hw. cbv zeta. unfold pageOf at 1.
    rewrite (postUpdateBalances_other nb "openbank" "Openbank.html" fs
               "Openbank-transfers.html" Hreg eq_refl Ho) by done.
    fold (pageOf (globalFiles nb "openbank" fs) "Openbank-transfers.html").
    rewrite (globalFiles_openbank_transfers nb v fs t Hc Hav Ht Hw).
    by rewrite saved_cardDigitsIn_transfers.
  - intros o -> Ht Ho Hw. unfold pageOf at 1.
    rewrite (postUpdateBalances_other nb "transfers" "Openbank-transfers.html" fs
               "Openbank.html" Hreg eq_refl Ht) by done.
    unfold globalFiles, propagatesDigits. rewrite Hc. cbn [String.eqb Ascii.eqb Bool.eqb orb].
    rewrite given_delete_ne, Hav by done.
    assert (Hskip : match given nb "accountTotalBalance" with
                    | Some _ | _ => cardDigitsFiles v fs
                    end = cardDigitsFiles v fs) by (by destruct (given nb "accountTotalBalance")).
    rewrite Hskip. unfold cardDigitsFiles. rewrite rewriteFile_other by done.
    fold (pageOf (rewriteFile "Openbank.html" (cardDigitsIn "openbank" v) fs) "Openbank.html").
    rewrite (pageOf_rewriteFile _ _ _ o Ho Hw). apply saved_cardDigitsIn_openbank.
  - intros d. unfold updateCardsValues. by rewrite Hc.
Qed.

End AnyRoundTrip5.

Section Examples4.

#[local] Existing Instance exampleRoundTrip.


Lemma card_digits_propagation_witness :
  given (<["accountTotalBalance" := "1000.50"]> {[ "cardLastDigits" := "2150" ]})
        "cardLastDigits" = Some "2150"
  /\ filesAfter (postUpdateBalances
                   (<["accountTotalBalance" := "1000.50"]> {[ "cardLastDigits" := "2150" ]})
                   "openbank") projectFiles
       !! "Openbank-cards.html" = projectFiles !! "Openbank-cards.html"
  /\ textAt [0]
       (pageOf (filesAfter (postUpdateBalances
                              (<["accountTotalBalance" := "1000.50"]>
                                 {[ "cardLastDigits" := "2150" ]})
                              "openbank") projectFiles) "Openbank-transfers.html")
     = "...2150".
Proof.
  assert (H1 : given (<["accountTotalBalance" := "1000.50"]> {[ "cardLastDigits" := "2150" ]})
                     "cardLastDigits" = Some "2150") by reflexivity.
  assert (H2 : given (<["accountTotalBalance" := "1000.50"]> {[ "cardLastDigits" := "2150" ]})
                     "avatarName" = None) by reflexivity.
  split; [exact H1 |].
  destruct (card_digits_propagation projectFiles
              (<["accountTotalBalance" := "1000.50"]> {[ "cardLastDigits" := "2150" ]})
              "2150" "openbank" H1 H2 (or_introl eq_refl)) as (Hcards & _ & Htr & _).
  split; [exact Hcards |].
  rewrite (Htr (File true transfersPage)); [reflexivity | reflexivity | by eexists | reflexivity.. ].
Defined.

(** C1 fails as stated: card digits "2150" sent for the main page reach
    the transfers page in dotted form, but the cards page and the
    direct-debits page keep their digits; and the rule of the cards page
    itself does not strip a prefix. *)
Lemma card_digits_do_not_reach_cards :
  answer (postUpdateBalances {[ "cardLastDigits" := "2150" ]} "openbank") projectFiles = inr tt
  /\ textAt [0]
       (pageOf (filesAfter (postUpdateBalances {[ "cardLastDigits" := "2150" ]} "openbank")
                  projectFiles) "Openbank-transfers.html") = "...2150"
  /\ textAt [0; 1]
       (pageOf (filesAfter (postUpdateBalances {[ "cardLastDigits" := "2150" ]} "openbank")
                  projectFiles) "Openbank-cards.html") = "9876"
  /\ textAt [1]
       (pageOf (filesAfter (postUpdateBalances {[ "cardLastDigits" := "2150" ]} "openbank")
                  projectFiles) "Openbank-direct-debits.html") = "...9999"
  /\ select cardNumberSelector cardsPage = [[0; 1]]
  /\ textAt [0; 1] (updateCardsValues cardsPage {[ "cardLastDigits" := "...2150" ]})
     = "...2150".
Proof. repeat split; vm_compute; reflexivity. Qed.

End Examples4.

Section AnyRoundTrip6.

Context {html : RoundTrip}.


(** * The name update *)

Lemma avatarChange_filter name d :
  avatarChange name d
  = (setTextAll (List.filter (stale name d) (select avatarSelector d)) name d,
     negb (isEmpty (List.filter (stale name d) (select avatarSelector d)))).
Proof. unfold avatarChange. apply eachWhere_filter. Qed.


Lemma tally_rounds change fs0 : forall l counts fs,
  NoDup l ->
  (forall p, p ∈ l -> fs !! p = fs0 !! p) ->
  fold_left (fun '(c, fs') p =>
               (tally true (outcomeOf p change fs') c, rewriteFile p change fs'))
            l (counts, fs)
  = (fold_left (fun c p => tally true (outcomeOf p change fs0) c) l counts,
     fold_left (fun fs' p => rewriteFile p change fs') l fs).
Proof.
  induction l as [| p l IH]; intros counts fs Hnd Hsame; [reflexivity |].
  apply NoDup_cons in Hnd as [Hp Hnd]. cbn [fold_left].
  rewrite IH; [| exact Hnd |].
  - do 2 f_equal. unfold outcomeOf. by rewrite Hsame by (by left).
  - intros q Hq. rewrite rewriteFile_other by (intros ->; by apply Hp).
    apply Hsame. by right.
Qed.

Lemma forOf_avatar_rounds name : forall l counts fs,
  forOf l (avatarInFile name) counts fs
  = let r := fold_left (fun '(c, fs') p =>
                          (tally true (outcomeOf p (avatarChange name) fs') c,
                           rewriteFile p (avatarChange name) fs'))
                       l (counts, fs) in
    (inr (fst r), snd r).
Proof.
  induction l as [| p l IH]; intros counts fs; [reflexivity |].
  cbn [forOf fold_left]. unfold bind at 1. rewrite avatarInFile_spec. apply IH.
Qed.

(** The counters of the name update: the files rewritten, and the others. *)
Lemma updateAvatarNameGlobally_counts name fs :
  answer (updateAvatarNameGlobally name) fs
  = inr (fold_left (fun c p => tally true (outcomeOf p (avatarChange name) fs) c)
                   (htmlFiles fs) (0, 0)).
Proof.
  unfold answer, updateAvatarNameGlobally. rewrite forOf_avatar_rounds. cbn [fst].
  by rewrite (tally_rounds (avatarChange name) fs) by (apply htmlFiles_NoDup || done).
Qed.

Lemma tally_fold (outcomes : string -> outcome) : forall l u s,
  fold_left (fun c p => tally true (outcomes p) c) l (u, s)
  = (u + length (List.filter (fun p => isRewritten (outcomes p)) l),
     s + length (List.filter (fun p => negb (isRewritten (outcomes p))) l)).
Proof.
  induction l as [| p l IH]; intros u s; cbn [fold_left List.filter length].
  - by rewrite !Nat.add_0_r.
  - destruct (outcomes p); cbn [tally fst snd isRewritten negb length]; rewrite IH;
      f_equal; lia.
Qed.

Lemma updateAvatarNameGlobally_file name fs filePath :
  filePath ∈ htmlFiles fs ->
  filesAfter (updateAvatarNameGlobally name) fs !! filePath
  = rewriteFile filePath (avatarChange name) fs !! filePath.
Proof.
  intros Hin. unfold filesAfter.
  destruct (updateAvatarNameGlobally_returns name fs) as (c & ->). cbn [snd].
  by apply fold_rewriteFile_same; [apply htmlFiles_NoDup |].
Qed.

(** C6, as the code has it.  The name update rewrites a matched element
    only when its trimmed text is not empty and differs from the new name.
    Its counters are the number of scanned files it rewrote and the number
    of the others.  A scanned, writable file with at least one such element
    is rewritten and saved: in the page that is saved each such element that
    no other such element encloses shows the new name.  A scanned file none
    of whose matched elements is such an element (there may be none at all,
    or all show the new name already, or show nothing) is counted as
    skipped and left exactly as it was. *)
Theorem name_update_per_file (name : string) (fs : gmap string file) :
  answer (updateAvatarNameGlobally name) fs
  = inr (length (List.filter
                   (fun p => isRewritten (outcomeOf p (avatarChange name) fs)) (htmlFiles fs)),
         length (List.filter
                   (fun p => negb (isRewritten (outcomeOf p (avatarChange name) fs)))
                   (htmlFiles fs)))
  /\ forall filePath f,
       filePath ∈ htmlFiles fs -> fs !! filePath = Some f ->
       ((exists p, p ∈ select avatarSelector (content f) /\ stale name (content f) p = true) ->
        writable f = true ->
        outcomeOf filePath (avatarChange name) fs = Rewritten
        /\ pageOf (filesAfter (updateAvatarNameGlobally name) fs) filePath
           = reload (fst (avatarChange name (content f)))
        /\ forall p,
             p ∈ select avatarSelector (content f) -> stale name (content f) p = true ->
             (forall q, q ∈ select avatarSelector (content f) ->
                        stale name (content f) q = true -> ~ encloses q p) ->
             textAt p (fst (avatarChange name (content f))) = name)
       /\ ((forall p, p ∈ select avatarSelector (content f) -> stale name (content f) p = false) ->
           outcomeOf filePath (avatarChange name) fs = Skipped
           /\ filesAfter (updateAvatarNameGlobally name) fs !! filePath = Some f).
Proof.
  split.
  - rewrite updateAvatarNameGlobally_counts. by rewrite tally_fold.
  - intros filePath f Hin Hf. split.
    + intros (p0 & Hp0 & Hs0) Hw.
      assert (Hhit : snd (avatarChange name (content f)) = true).
      { rewrite avatarChange_filter. cbn [snd].
        destruct (List.filter _ _) as [| x l] eqn:Hfl; [| reflexivity].
        assert (Hx : p0 ∈ List.filter (stale name (content f))
                       (select avatarSelector (content f))) by (by apply filter_In_elem).
        rewrite Hfl in Hx. by apply elem_of_nil in Hx. }
      split; [unfold outcomeOf; by rewrite Hf, Hhit, Hw |]. split.
      * unfold pageOf.
        rewrite (updateAvatarNameGlobally_file name fs filePath Hin).
        by rewrite rewriteFile_same, Hf, Hhit, Hw.
      * intros p Hp Hs Hout. rewrite avatarChange_filter. cbn [fst].
        destruct (select_elements _ _ _ Hp) as (t & a & c & ks & Hn).
        erewrite textAt_node; [apply textContent_single |].
        eapply setTextAll_written; [by apply filter_In_elem | | exact Hn].
        intros q Hq. apply filter_In_elem in Hq as [Hq1 Hq2]. by apply Hout.
    + intros Hnone.
      assert (Hmiss : avatarChange name (content f) = (content f, false)).
      { rewrite avatarChange_filter. rewrite filter_none; [reflexivity |]. exact Hnone. }
      split; [unfold outcomeOf; by rewrite Hf, Hmiss |].
      rewrite (updateAvatarNameGlobally_file name fs filePath Hin).
      by rewrite rewriteFile_same, Hf, Hmiss.
Qed.

End AnyRoundTrip6.

Section Examples5.

#[local] Existing Instance exampleRoundTrip.


Lemma name_update_per_file_witness :
  "Openbank-cards.html" ∈ htmlFiles projectFiles
  /\ (exists p, p ∈ select avatarSelector cardsPage /\ stale "Ana" cardsPage p = true)
  /\ outcomeOf "Openbank-cards.html" (avatarChange "Ana") projectFiles = Rewritten
  /\ textAt [1; 0; 0] (pageOf (filesAfter (updateAvatarNameGlobally "Ana") projectFiles)
                              "Openbank-cards.html") = "Ana".
Proof.
  assert (H1 : "Openbank-cards.html" ∈ htmlFiles projectFiles)
    by (apply list_elem_of_In; vm_compute; tauto).
  assert (H2 : [1; 0; 0] ∈ select avatarSelector cardsPage)
    by (apply list_elem_of_In; vm_compute; tauto).
  assert (H3 : stale "Ana" cardsPage [1; 0; 0] = true) by reflexivity.
  split; [exact H1 |]. split; [by exists [1; 0; 0] |].
  destruct (name_update_per_file "Ana" projectFiles) as [_ Hfile].
  destruct (Hfile "Openbank-cards.html" (File true cardsPage) H1 eq_refl) as [Hup _].
  destruct Hup as (Ho & Hpage & _); [by exists [1; 0; 0] | reflexivity |].
  split; [exact Ho |]. rewrite Hpage. reflexivity.
Defined.

(** C6 fails as stated.  With the new name "Ana": the only name element of
    [blank.html] shows nothing, so its text differs from the new name, yet
    the file is skipped and left as it was; [mixed.html] is rewritten, but
    its second name element, which shows nothing, is not. *)
Lemma blank_name_elements_not_rewritten :
  textAt [0; 0; 0] blankNamePage <> "Ana"
  /\ answer (updateAvatarNameGlobally "Ana") nameFiles = inr (1, 1)
  /\ outcomeOf "blank.html" (avatarChange "Ana") nameFiles = Skipped
  /\ filesAfter (updateAvatarNameGlobally "Ana") nameFiles !! "blank.html"
     = Some (File true blankNamePage)
  /\ outcomeOf "mixed.html" (avatarChange "Ana") nameFiles = Rewritten
  /\ select avatarSelector mixedNamesPage = [[0; 0; 0]; [1; 0; 0]]
  /\ pageOf (filesAfter (updateAvatarNameGlobally "Ana") nameFiles) "mixed.html"
     = [avatarOf "Ana"; avatarOf ""].
Proof. split; [discriminate |]. repeat split; vm_compute; reflexivity. Qed.

End Examples5.

Section AnyRoundTrip7.

Context {html : RoundTrip}.


(** * Writing every match and writing the first match *)



Lemma writeFirstNumeric_found s v d l1 p l2 :
  select s d = l1 ++ p :: l2 ->
  numericText (JS.trim (textAt p d)) = true ->
  (forall q, q ∈ l1 -> numericText (JS.trim (textAt q d)) = false) ->
  writeFirstNumeric s (Some v) d = setText p v d.
Proof.
  intros Hsel Hp Hl1. unfold writeFirstNumeric.
  by rewrite Hsel, (firstNumeric_found d l1 p l2 Hp Hl1).
Qed.


(** * Applying an update twice *)

Lemma writeGiven_found s w d :
  select s d <> [] -> writeGiven s (Some w) d = setTextAll (select s d) w d.
Proof. intros H. unfold writeGiven. by destruct (select s d). Qed.

Lemma writeGiven_idem s w d :
  structural s -> writeGiven s (Some w) (writeGiven s (Some w) d) = writeGiven s (Some w) d.
Proof.
  intros Hs. destruct (decide (select s d = [])) as [Hnil | Hsome].
  - by rewrite !(writeGiven_nothing s w d Hnil).
  - rewrite (writeGiven_found s w d Hsome).
    destruct (decide (select s (setTextAll (select s d) w d) = [])) as [Hnil' | Hsome'].
    + by apply writeGiven_nothing.
    + rewrite (writeGiven_found _ _ _ Hsome'). by apply setTextAll_select_idem.
Qed.

Lemma unnested_apart sel p q : unnested sel -> p ∈ sel -> q ∈ sel -> p <> q -> apart p q.
Proof.
  intros Hun Hp Hq Hne. apply apart_of_not_enclosing; [congruence | |]; by apply Hun.
Qed.

Lemma unnested_filter_inside sel p :
  unnested sel -> p ∈ sel -> List.filter (fun q => negb (inside p q)) sel = sel.
Proof.
  intros Hun Hp. apply filter_all. intros q Hq.
  destruct (inside p q) eqn:Hi; [| reflexivity].
  apply inside_encloses in Hi. by destruct (Hun p q Hp Hq).
Qed.

Lemma writeFirstNumeric_idem s v d :
  structural s -> unnested (select s d) -> numericText (JS.trim v) = true ->
  writeFirstNumeric s (Some v) (writeFirstNumeric s (Some v) d)
  = writeFirstNumeric s (Some v) d.
Proof.
  intros Hs Hun Hv. unfold writeFirstNumeric at 2 3.
  destruct (firstNumeric (select s d) d) as [p |] eqn:Hfirst.
  - destruct (firstNumeric_split d _ p Hfirst) as (l1 & l2 & Hsel & Hp & Hl1).
    assert (Hin : p ∈ select s d) by (rewrite Hsel; apply elem_of_app; right; by left).
    destruct (select_elements s d p Hin) as (t & a & c & ks & Hn).
    cbn [setTextOpt setTextAll fold_left].
    assert (Hsel' : select s (setText p v d) = l1 ++ p :: l2).
    { rewrite select_setText by (done || by eapply select_nonempty_paths).
      by rewrite unnested_filter_inside. }
    assert (Hnode : nodeAt p (setText p v d) = Some (Elem t a c [Text v]))
      by (by eapply nodeAt_setText_same).
    rewrite (writeFirstNumeric_found s v (setText p v d) l1 p l2 Hsel').
    + by eapply setText_again.
    + by rewrite (textAt_node _ _ _ Hnode), textContent_single.
    + intros q Hq. unfold textAt. rewrite nodeAt_setText_apart; [by apply Hl1 |].
      apply (unnested_apart (select s d)); [done | done | |].
      * rewrite Hsel. apply elem_of_app. by left.
      * intros ->. rewrite (Hl1 q Hq) in Hp. discriminate.
  - unfold writeFirstNumeric. by rewrite Hfirst.
Qed.

Lemma eachWhere_numeric_idem s v d :
  structural s -> unnested (select s d) -> numericText (JS.trim v) = true ->
  fst (eachWhere numericText (select s (fst (eachWhere numericText (select s d) v d))) v
         (fst (eachWhere numericText (select s d) v d)))
  = fst (eachWhere numericText (select s d) v d).
Proof.
  intros Hs Hun Hv. rewrite (eachWhere_filter numericText v d (select s d)). cbn [fst].
  set (hits := List.filter (fun e => numericText (JS.trim (textAt e d))) (select s d)).
  set (d' := setTextAll hits v d).
  assert (Hsub : forall p, p ∈ hits -> p ∈ select s d).
  { intros p Hp. subst hits. by apply filter_In_elem in Hp as [Hp _]. }
  assert (Hwritten : forall p, p ∈ hits ->
            exists t a c, nodeAt p d' = Some (Elem t a c [Text v])).
  { intros p Hp. destruct (select_elements s d p (Hsub p Hp)) as (t & a & c & ks & Hn).
    exists t, a, c. eapply setTextAll_written; [exact Hp | | exact Hn].
    intros q Hq. apply Hun; by apply Hsub. }
  assert (Hsel' : select s d' = select s d).
  { subst d'. rewrite select_setTextAll
      by (done || intros p Hp; eapply select_nonempty_paths; by apply Hsub).
    apply filter_all. intros q Hq. apply forallb_forall. intros p Hp.
    apply list_elem_of_In in Hp.
    destruct (inside p q) eqn:Hi; [| reflexivity].
    apply inside_encloses in Hi. destruct (Hun p q); auto. }
  rewrite eachWhere_filter, Hsel'. cbn [fst].
  apply setTextAll_again. intros p Hp. apply filter_In_elem in Hp as [Hp Hnum].
  destruct (decide (p ∈ hits)) as [Hhit | Hmiss]; [by apply Hwritten |].
  exfalso. unfold textAt in Hnum. subst d'.
  rewrite setTextAll_apart in Hnum.
  - apply Hmiss. subst hits. by apply filter_In_elem.
  - intros q Hq. apply (unnested_apart (select s d)); [done | by apply Hsub | done |].
    intros ->. by apply Hmiss.
Qed.

Lemma updateCardsValues_idem d nb :
  updateCardsValues (updateCardsValues d nb) nb = updateCardsValues d nb.
Proof.
  unfold updateCardsValues. destruct (given nb "cardLastDigits") as [v |]; [| reflexivity].
  apply writeGiven_idem. split; [reflexivity | repeat constructor].
Qed.

(** A request for the cards or the direct-debits page without a new name
    goes through no global step. *)
Lemma no_global_step nb fileType fs :
  fileType = "cards" \/ fileType = "directDebits" ->
  given nb "avatarName" = None ->
  globalFiles nb fileType fs = fs /\ workingSet nb fileType = nb.
Proof.
  intros Hft Hav. unfold globalFiles, workingSet, propagatesDigits.
  destruct Hft as [-> | ->]; cbn [String.eqb Ascii.eqb Bool.eqb orb];
    destruct (given nb "cardLastDigits"); destruct (given nb "accountTotalBalance");
    by rewrite Hav.
Qed.

Lemma same_depth_unnested (sel : list path) (n : nat) :
  (forall p, p ∈ sel -> length p = n) -> unnested sel.
Proof.
  intros Hlen p q Hp Hq (i & r & ->).
  apply Hlen in Hp, Hq. rewrite length_app in Hq. simpl in Hq. lia.
Defined.

End AnyRoundTrip7.

Section Examples6.

#[local] Existing Instance exampleRoundTrip.



End Examples6.

Section AnyRoundTrip8.

Context {html : RoundTrip}.


(** * Reading back what an update wrote *)

Lemma rewriteFile_canWrite filePath change fs k :
  canWrite fs k -> canWrite (rewriteFile filePath change fs) k.
Proof.
  intros (f & Hf & Hw). unfold canWrite, rewriteFile.
  destruct (fs !! filePath) as [g |] eqn:Hg; [| by exists f].
  destruct (_ && _); [| by exists f].
  destruct (decide (filePath = k)) as [-> | Hne].
  - rewrite lookup_insert_eq. by eexists.
  - rewrite lookup_insert_ne by done. by exists f.
Qed.

Lemma fold_rewriteFile_canWrite change k : forall l fs,
  canWrite fs k -> canWrite (fold_left (fun fs' p => rewriteFile p change fs') l fs) k.
Proof.
  induction l as [| p l IH]; intros fs H; [exact H |].
  cbn [fold_left]. by apply IH, rewriteFile_canWrite.
Qed.

(** The global steps leave a writable file writable. *)
Lemma globalFiles_canWrite nb fileType fs k :
  canWrite fs k -> canWrite (globalFiles nb fileType fs) k.
Proof.
  intros H. unfold globalFiles.
  set (fs1 := match given nb "cardLastDigits" with
              | Some digits =>
                  if String.eqb fileType "openbank" || String.eqb fileType "transfers"
                  then cardDigitsFiles digits fs else fs
              | None => fs
              end).
  assert (H1 : canWrite fs1 k).
  { subst fs1. destruct (given nb "cardLastDigits"); [| exact H].
    destruct (_ || _); [| exact H]. unfold cardDigitsFiles. by do 2 apply rewriteFile_canWrite. }
  set (fs2 := match given nb "accountTotalBalance" with
              | Some balance =>
                  if String.eqb fileType "openbank" then accountBalanceFiles balance fs1 else fs1
              | None => fs1
              end).
  assert (H2 : canWrite fs2 k).
  { subst fs2. destruct (given nb "accountTotalBalance"); [| exact H1].
    destruct (String.eqb fileType "openbank"); [| exact H1].
    unfold accountBalanceFiles. by do 2 apply rewriteFile_canWrite. }
  destruct (given _ "avatarName"); [| exact H2].
  unfold avatarFiles. by apply fold_rewriteFile_canWrite.
Qed.

(** After the route, a writable file of the request holds the page that was
    loaded at the start, rewritten by the local rules. *)
Lemma postUpdateBalances_own nb fileType fileName fs f :
  fileType ∈ registeredTypes ->
  JS.assoc fileType HTML_FILES = Some fileName ->
  fs !! fileName = Some f -> writable f = true ->
  filesAfter (postUpdateBalances nb fileType) fs !! fileName
  = Some (File true (reload (localRules fileType (content f) (workingSet nb fileType)))).
Proof.
  intros Hft Hname Hf Hw. unfold filesAfter.
  rewrite (postUpdateBalances_spec _ _ _ _ Hft Hname), Hf.
  rewrite (saveHTMLFile_known _ _ _ _ Hname).
  destruct (globalFiles_canWrite nb fileType fs fileName) as (g & Hg & Hgw); [by exists f |].
  rewrite Hg, Hgw. cbn [snd]. apply lookup_insert_eq.
Qed.

Lemma getCurrentBalances_registered fileType fileName fs f :
  JS.assoc fileType HTML_FILES = Some fileName ->
  fs !! fileName = Some f ->
  answer (getCurrentBalances fileType) fs = extractBalanceValues (content f) fileType.
Proof.
  intros Hname Hf. unfold answer, getCurrentBalances.
  assert (Hq : orElse fileType "openbank" = fileType)
    by (destruct fileType; [discriminate Hname | reflexivity]).
  rewrite Hq. unfold bind.
  rewrite (loadHTMLFile_known _ _ _ Hname), Hf.
  by destruct (extractBalanceValues (content f) fileType).
Qed.



Lemma workingSet_given nb fileType k :
  k <> "cardLastDigits" -> k <> "avatarName" ->
  given (workingSet nb fileType) k = given nb k.
Proof. intros H1 H2. unfold given. by rewrite workingSet_other. Qed.

Lemma workingSet_directDebits_digits nb :
  given (workingSet nb "directDebits") "cardLastDigits" = given nb "cardLastDigits".
Proof.
  unfold workingSet, propagatesDigits. cbn [String.eqb Ascii.eqb Bool.eqb orb].
  assert (Hsame : (if match given nb "cardLastDigits" with
                      | Some _ | _ => false
                      end then delete "cardLastDigits" nb else nb) = nb)
    by (by destruct (given nb "cardLastDigits")).
  rewrite Hsame. destruct (given nb "avatarName"); [by apply given_delete_ne | reflexivity].
Qed.


Lemma writeFirstNumeric_undefined s d : writeFirstNumeric s None d = d.
Proof. unfold writeFirstNumeric. by destruct (firstNumeric (select s d) d). Qed.

Lemma updateSection_undefined phrase d : updateSection phrase None d = d.
Proof. unfold updateSection. by destruct (negb _). Qed.

Lemma inside_self p : inside p p = false.
Proof. induction p as [| i p IH]; [reflexivity |]. cbn [inside]. by rewrite Nat.eqb_refl. Qed.

Lemma apart_not_inside e q : apart e q -> inside e q = false.
Proof.
  intros [H1 H2]. destruct (inside e q) eqn:Hi; [| reflexivity].
  apply inside_encloses in Hi as (i & r & ->). exfalso. apply H1. by eexists.
Qed.

End AnyRoundTrip8.

Section Examples7.

#[local] Existing Instance exampleRoundTrip.



End Examples7.

Section AnyRoundTrip9.

Context {html : RoundTrip}.


Lemma htmlFiles_spec fs p :
  p ∈ htmlFiles fs <-> is_Some (fs !! p) /\ globbed p && negb (ignored p) = true.
Proof.
  unfold htmlFiles. rewrite filter_In_elem.
  rewrite list_elem_of_In, in_map_iff. split.
  - intros [((k & f) & Hk & Hin%list_elem_of_In%elem_of_map_to_list) Hi].
    cbn in Hk. subst k. split; [by exists f | exact Hi].
  - intros [[f Hf] Hi]. split; [| exact Hi].
    exists (p, f). split; [reflexivity |]. by apply list_elem_of_In, elem_of_map_to_list.
Qed.

Lemma avatarFiles_lookup name fs p :
  avatarFiles name fs !! p
  = if globbed p && negb (ignored p)
    then rewriteFile p (avatarChange name) fs !! p else fs !! p.
Proof.
  unfold avatarFiles. destruct (decide (p ∈ htmlFiles fs)) as [Hin | Hout].
  - rewrite fold_rewriteFile_same by (apply htmlFiles_NoDup || done).
    apply htmlFiles_spec in Hin as [_ ->]. reflexivity.
  - rewrite fold_rewriteFile_other by done.
    destruct (globbed p && negb (ignored p)) eqn:Hi; [| reflexivity].
    unfold rewriteFile. destruct (fs !! p) as [f |] eqn:Hf; [| by rewrite Hf].
    exfalso. apply Hout, htmlFiles_spec. by split; [exists f |].
Qed.

End AnyRoundTrip9.



(** * The update route on pages that survive the round trip *)

Section Kept.

Context {html : RoundTrip}.

(** A class of pages that come back from the file as they were written and
    that a write of a non-empty text into an element of the update rules
    does not leave. *)
Variable kept : document -> Prop.
Hypothesis kept_round : forall d, kept d -> reload d = d.
Hypothesis kept_closed :
  forall d p v, kept d -> p ∈ matched writeSelectors d -> v <> "" -> kept (setText p v d).

Lemma rewriteOne_readonly change f : writable f = false -> rewriteOne change f = f.
Proof. intros Hw. unfold rewriteOne. by rewrite Hw, andb_false_r. Qed.

Lemma rewriteFile_lookup q change fs p :
  rewriteFile q change fs !! p
  = if bool_decide (p = q) then rewriteOne change <$> fs !! p else fs !! p.
Proof.
  case_bool_decide as Hp.
  - subst p. rewrite rewriteFile_same. unfold rewriteOne.
    destruct (fs !! q) as [f |]; [| reflexivity]. cbn [fmap option_fmap option_map].
    by destruct (_ && _).
  - apply rewriteFile_other. congruence.
Qed.

Lemma rewriteOne_nothing fileType v f :
  fileType <> "openbank" -> fileType <> "transfers" ->
  rewriteOne (cardDigitsIn fileType v) f = f
  /\ rewriteOne (accountBalanceIn fileType v) f = f.
Proof.
  intros H1%String.eqb_neq H2%String.eqb_neq.
  unfold rewriteOne, cardDigitsIn, accountBalanceIn. by rewrite H1, H2.
Qed.

Lemma cardDigitsFiles_lookup v fs p :
  cardDigitsFiles v fs !! p = rewriteOne (cardDigitsIn (typeOfPath p) v) <$> fs !! p.
Proof.
  unfold cardDigitsFiles, typeOfPath. rewrite !rewriteFile_lookup.
  destruct (String.eqb_spec p "Openbank.html") as [-> | H1].
  - by rewrite bool_decide_eq_false_2, bool_decide_eq_true_2.
  - rewrite (bool_decide_eq_false_2 (p = "Openbank.html")) by done.
    destruct (String.eqb_spec p "Openbank-transfers.html") as [-> | H2].
    + by rewrite bool_decide_eq_true_2.
    + rewrite bool_decide_eq_false_2 by done.
      destruct (fs !! p) as [f |]; [| reflexivity]. cbn [fmap option_fmap option_map].
      by rewrite (proj1 (rewriteOne_nothing "" v f ltac:(done) ltac:(done))).
Qed.

Lemma accountBalanceFiles_lookup v fs p :
  accountBalanceFiles v fs !! p
  = rewriteOne (accountBalanceIn (typeOfPath p) v) <$> fs !! p.
Proof.
  unfold accountBalanceFiles, typeOfPath. rewrite !rewriteFile_lookup.
  destruct (String.eqb_spec p "Openbank.html") as [-> | H1].
  - by rewrite bool_decide_eq_false_2, bool_decide_eq_true_2.
  - rewrite (bool_decide_eq_false_2 (p = "Openbank.html")) by done.
    destruct (String.eqb_spec p "Openbank-transfers.html") as [-> | H2].
    + by rewrite bool_decide_eq_true_2.
    + rewrite bool_decide_eq_false_2 by done.
      destruct (fs !! p) as [f |]; [| reflexivity]. cbn [fmap option_fmap option_map].
      by rewrite (proj2 (rewriteOne_nothing "" v f ltac:(done) ltac:(done))).
Qed.

(** The global steps go through the files one by one. *)
Lemma globalFiles_lookup nb fileType fs p :
  globalFiles nb fileType fs !! p = globalFile nb fileType p <$> fs !! p.
Proof.
  unfold globalFiles, globalFile, globalName.
  set (fs1 := match given nb "cardLastDigits" with
              | Some digits =>
                  if String.eqb fileType "openbank" || String.eqb fileType "transfers"
                  then cardDigitsFiles digits fs else fs
              | None => fs
              end).
  set (fs2 := match given nb "accountTotalBalance" with
              | Some balance =>
                  if String.eqb fileType "openbank" then accountBalanceFiles balance fs1
                  else fs1
              | None => fs1
              end).
  assert (H1 : fs1 !! p
               = (fun f => match given nb "cardLastDigits" with
                           | Some digits =>
                               if String.eqb fileType "openbank"
                                  || String.eqb fileType "transfers"
                               then rewriteOne (cardDigitsIn (typeOfPath p) digits) f else f
                           | None => f
                           end) <$> fs !! p).
  { subst fs1. destruct (given nb "cardLastDigits") as [digits |];
      [| by destruct (fs !! p)].
    destruct (_ || _); [apply cardDigitsFiles_lookup | by destruct (fs !! p)]. }
  assert (H2 : fs2 !! p
               = (fun f => match given nb "accountTotalBalance" with
                           | Some balance =>
                               if String.eqb fileType "openbank"
                               then rewriteOne (accountBalanceIn (typeOfPath p) balance) f
                               else f
                           | None => f
                           end) <$> fs1 !! p).
  { subst fs2. destruct (given nb "accountTotalBalance") as [balance |];
      [| by destruct (fs1 !! p)].
    destruct (String.eqb fileType "openbank");
      [apply accountBalanceFiles_lookup | by destruct (fs1 !! p)]. }
  destruct (given (if propagatesDigits nb fileType then delete "cardLastDigits" nb else nb)
                  "avatarName") as [name |].
  - rewrite avatarFiles_lookup. destruct (globbed p && negb (ignored p)).
    + rewrite rewriteFile_lookup, bool_decide_eq_true_2 by done.
      rewrite H2, H1. by destruct (fs !! p).
    + rewrite H2, H1. by destruct (fs !! p).
  - rewrite H2, H1. by destruct (fs !! p).
Qed.

(** A steady change made to a kept page after other writes. *)
Lemma rewriteOne_rules x ws change rs :
  tidy x = true -> kept x ->
  Forall (allowed x) ws -> Forall (steady x) rs ->
  (forall d, fst (change d) = applyRules rs d
             /\ (snd (change d) = false -> fst (change d) = d)) ->
  rewriteOne change (File true (setEach ws x))
  = File true (setEach (ws ++ writesOn x rs) x).
Proof.
  intros Htidy Hx Hws Hrs Hchange. unfold rewriteOne. cbn [content writable].
  rewrite andb_true_r. destruct (Hchange (setEach ws x)) as [Hfst Hsame].
  destruct (applyRules_after x rs ws Hrs Hws) as [Hrun Hall].
  destruct (snd (change (setEach ws x))).
  - rewrite Hfst, Hrun. f_equal. apply kept_round.
    by apply (setEach_stays kept kept_closed x Htidy Hx).
  - by rewrite <- Hrun, <- Hfst, Hsame.
Qed.

Lemma rewriteOne_name x ws name :
  tidy x = true -> kept x -> Forall (allowed x) ws -> name <> "" ->
  rewriteOne (avatarChange name) (File true (setEach ws x))
  = File true (setEach (ws ++ avatarRule name (setEach ws x)) x).
Proof.
  intros Htidy Hx Hws Hname. unfold rewriteOne. cbn [content writable].
  rewrite andb_true_r. destruct (avatarChange_rule name (setEach ws x)) as [Hfst Hsame].
  assert (Hrun : applyRule (avatarRule name) (setEach ws x)
                 = setEach (ws ++ avatarRule name (setEach ws x)) x)
    by (unfold applyRule; by rewrite setEach_app).
  destruct (snd (avatarChange name (setEach ws x))).
  - rewrite Hfst, Hrun. f_equal. apply kept_round.
    apply (setEach_stays kept kept_closed x Htidy Hx).
    apply Forall_app. split; [exact Hws | by apply avatar_allowed].
  - by rewrite <- Hrun, <- Hfst, Hsame.
Qed.

(** What the global steps make of a writable file whose page is a kept
    page after some writes. *)
Lemma globalFile_after nb fileType p x ws :
  tidy x = true -> kept x -> Forall (allowed x) ws ->
  (String.eqb fileType "openbank" = true ->
   numericIfSent (given nb "accountTotalBalance") = true) ->
  let writes := ws ++ writesOn x (globalRules nb fileType p) in
  globalFile nb fileType p (File true (setEach ws x))
  = File true (setEach (writes ++ match globalName nb fileType p with
                                  | Some name => avatarRule name (setEach writes x)
                                  | None => []
                                  end) x).
Proof.
  intros Htidy Hx Hws Hbal writes. unfold globalFile.
  set (digits := match given nb "cardLastDigits" with
                 | Some digits =>
                     if String.eqb fileType "openbank" || String.eqb fileType "transfers"
                     then cardDigitsRule (typeOfPath p) digits else []
                 | None => []
                 end).
  set (balance := match given nb "accountTotalBalance" with
                  | Some balance =>
                      if String.eqb fileType "openbank"
                      then accountBalanceRule (typeOfPath p) balance else []
                  | None => []
                  end).
  assert (Hrules : globalRules nb fileType p = digits ++ balance) by reflexivity.
  pose proof (globalRules_steady x Htidy nb fileType p Hbal) as Hsteady.
  rewrite Hrules in Hsteady. apply Forall_app in Hsteady as [Hd Hb].
  set (ws1 := ws ++ writesOn x digits).
  assert (H1 : match given nb "cardLastDigits" with
               | Some v =>
                   if String.eqb fileType "openbank" || String.eqb fileType "transfers"
                   then rewriteOne (cardDigitsIn (typeOfPath p) v) (File true (setEach ws x))
                   else File true (setEach ws x)
               | None => File true (setEach ws x)
               end = File true (setEach ws1 x)).
  { subst ws1 digits. destruct (given nb "cardLastDigits") as [v |];
      [| by rewrite app_nil_r].
    destruct (_ || _); [| by rewrite app_nil_r].
    apply rewriteOne_rules; try done. intros d. apply cardDigitsIn_rule. }
  rewrite H1.
  assert (Hws1 : Forall (allowed x) ws1).
  { subst ws1. apply Forall_app. split; [exact Hws |]. by apply (applyRules_writes x). }
  assert (H2 : match given nb "accountTotalBalance" with
               | Some v =>
                   if String.eqb fileType "openbank"
                   then rewriteOne (accountBalanceIn (typeOfPath p) v) (File true (setEach ws1 x))
                   else File true (setEach ws1 x)
               | None => File true (setEach ws1 x)
               end = File true (setEach writes x)).
  { assert (Hw : writes = ws1 ++ writesOn x balance).
    { subst writes ws1. by rewrite Hrules, writesOn_app, app_assoc. }
    rewrite Hw. subst balance. destruct (given nb "accountTotalBalance") as [v |];
      [| by rewrite app_nil_r].
    destruct (String.eqb fileType "openbank"); [| by rewrite app_nil_r].
    apply rewriteOne_rules; try done. intros d. apply accountBalanceIn_rule. }
  rewrite H2.
  assert (Hwrites : Forall (allowed x) writes).
  { subst writes. apply Forall_app. split; [exact Hws |].
    apply (applyRules_writes x). by apply globalRules_steady. }
  destruct (globalName nb fileType p) as [name |] eqn:Hname.
  - apply rewriteOne_name; try done. by eapply globalName_nonempty.
  - by rewrite app_nil_r.
Qed.

(** The global steps, run a second time over a file they have been over,
    leave it as it is. *)
Lemma globalFile_twice nb fileType p f :
  tidy (content f) = true -> kept (content f) ->
  (String.eqb fileType "openbank" = true ->
   numericIfSent (given nb "accountTotalBalance") = true) ->
  globalFile nb fileType p (globalFile nb fileType p f) = globalFile nb fileType p f.
Proof.
  intros Htidy Hx Hbal. destruct f as [[] x]; cbn [content] in *.
  - set (G := globalWrites nb fileType p x).
    set (W := writesOn x (globalRules nb fileType p)).
    assert (Hone : globalFile nb fileType p (File true x) = File true (setEach G x))
      by exact (globalFile_after nb fileType p x [] Htidy Hx (Forall_nil_2 _) Hbal).
    pose proof (globalWrites_allowed x Htidy nb fileType p Hbal) as Hall.
    assert (Htwo : globalFile nb fileType p (File true (setEach G x))
                   = File true (setEach ((G ++ W)
                                         ++ match globalName nb fileType p with
                                            | Some name => avatarRule name (setEach (G ++ W) x)
                                            | None => []
                                            end) x))
      by exact (globalFile_after nb fileType p x G Htidy Hx Hall Hbal).
    rewrite Hone, Htwo. apply (f_equal (File true)).
    rewrite setEach_app. subst G W.
    rewrite (globalWrites_again x Htidy nb fileType p Hbal).
    destruct (globalName nb fileType p) as [name |] eqn:Hname; [| reflexivity].
    apply (globalWrites_name_again x Htidy nb fileType p Hbal name Hname).
  - assert (Hsame : forall g, writable g = false -> globalFile nb fileType p g = g).
    { intros g Hg. clear Hbal. unfold globalFile. cbv zeta.
      assert (Hr : forall change, rewriteOne change g = g)
        by (intros change; by apply rewriteOne_readonly).
      repeat case_match; by rewrite ?Hr. }
    rewrite (Hsame (File false x) eq_refl). by apply Hsame.
Qed.

Lemma rewriteOne_writable change f : writable (rewriteOne change f) = writable f.
Proof.
  unfold rewriteOne. destruct (snd (change (content f))); [| reflexivity].
  by destruct (writable f) eqn:Hw.
Qed.

Lemma globalFile_writable nb fileType p f :
  writable (globalFile nb fileType p f) = writable f.
Proof.
  unfold globalFile. cbv zeta. repeat case_match; by rewrite ?rewriteOne_writable.
Qed.

(** The files after the route, one by one: the file of the request, when
    it can be written, holds the loaded page under the local rules; every
    other file is as the global steps left it. *)
Lemma postUpdateBalances_lookup nb fileType fileName fs f p :
  fileType ∈ registeredTypes ->
  JS.assoc fileType HTML_FILES = Some fileName ->
  fs !! fileName = Some f ->
  filesAfter (postUpdateBalances nb fileType) fs !! p
  = if bool_decide (p = fileName) && writable f
    then Some (File true (reload (localRules fileType (content f)
                                             (workingSet nb fileType))))
    else globalFile nb fileType p <$> fs !! p.
Proof.
  intros Hft Hname Hf. unfold filesAfter.
  rewrite (postUpdateBalances_spec _ _ _ _ Hft Hname), Hf.
  rewrite (saveHTMLFile_known _ _ _ _ Hname), globalFiles_lookup, Hf.
  cbn [fmap option_fmap option_map]. rewrite globalFile_writable.
  destruct (writable f); cbn [snd].
  - case_bool_decide as Hp; cbn [andb].
    + subst p. apply lookup_insert_eq.
    + rewrite lookup_insert_ne by done. apply globalFiles_lookup.
  - rewrite andb_false_r. apply globalFiles_lookup.
Qed.

(** The local rules on a kept page: the page they make is kept, and they
    leave it as it is when they go over it again. *)
Lemma localRules_twice fileType nb x :
  tidy x = true -> kept x -> amountsFit fileType nb x = true ->
  reload (localRules fileType x nb) = localRules fileType x nb
  /\ localRules fileType (localRules fileType x nb) nb = localRules fileType x nb.
Proof.
  intros Htidy Hx Hfit. rewrite !localRules_rules.
  pose proof (rulesOf_steady x Htidy fileType nb Hfit) as Hsteady.
  split; [| by apply applyRules_twice].
  destruct (applyRules_writes x _ Hsteady) as [-> Hall].
  apply kept_round. by apply (setEach_stays kept kept_closed x Htidy Hx).
Qed.

End Kept.

Section AnyRoundTrip10.

Context {html : RoundTrip}.


(** * The same request twice *)

Lemma amountsFit_workingSet fileType nb x :
  amountsFit fileType (workingSet nb fileType) x = amountsFit fileType nb x.
Proof.
  unfold amountsFit. rewrite !workingSet_other by done.
  by rewrite workingSet_given by done.
Qed.

Lemma numericIfSent_given (nb : gmap string string) k :
  numericIfSent (nb !! k) = true -> numericIfSent (given nb k) = true.
Proof.
  unfold given. destruct (nb !! k) as [v |]; [| done].
  by destruct (JS.truthy v).
Qed.

Lemma amountsFit_balance nb x :
  amountsFit "openbank" nb x = true ->
  numericIfSent (given nb "accountTotalBalance") = true.
Proof.
  unfold amountsFit. cbn [String.eqb Ascii.eqb Bool.eqb]. intros H.
  repeat (apply andb_true_iff in H as [H _]). by apply numericIfSent_given.
Qed.


End AnyRoundTrip10.

Section Examples8.

#[local] Existing Instance exampleRoundTrip.



End Examples8.

Section AnyRoundTrip11.

Context {html : RoundTrip}.


(** * Reading back what the route wrote *)

Lemma openbankRules_workingSet nb fileType :
  openbankRules (workingSet nb fileType) = openbankRules nb.
Proof.
  unfold openbankRules, expensesText. by rewrite !workingSet_other.
Qed.

Lemma workingSet_cards_digits nb :
  given (workingSet nb "cards") "cardLastDigits" = given nb "cardLastDigits".
Proof.
  unfold workingSet, propagatesDigits. cbn [String.eqb Ascii.eqb Bool.eqb orb].
  assert (Hsame : (if match given nb "cardLastDigits" with
                      | Some _ | _ => false
                      end then delete "cardLastDigits" nb else nb) = nb)
    by (by destruct (given nb "cardLastDigits")).
  rewrite Hsame. destruct (given nb "avatarName"); [by apply given_delete_ne | reflexivity].
Qed.

Lemma directDebitsRules_workingSet nb :
  directDebitsRules (workingSet nb "directDebits") = directDebitsRules nb.
Proof.
  unfold directDebitsRules. rewrite workingSet_directDebits_digits.
  rewrite (workingSet_given nb _ "accountsBalanceAmount") by done.
  rewrite (workingSet_given nb _ "availableAmount") by done.
  by rewrite (workingSet_given nb _ "availableCurrency") by done.
Qed.

Lemma cardsRules_workingSet nb : cardsRules (workingSet nb "cards") = cardsRules nb.
Proof. unfold cardsRules. by rewrite workingSet_cards_digits. Qed.

(** What the next extraction sees: the loaded page after the writes of the
    local rules. *)
Lemma route_answer nb fileType fileName fs f :
  fileType ∈ registeredTypes ->
  JS.assoc fileType HTML_FILES = Some fileName ->
  fs !! fileName = Some f -> writable f = true ->
  tidy (content f) = true ->
  amountsFit fileType nb (content f) = true ->
  reload (localRules fileType (content f) (workingSet nb fileType))
  = localRules fileType (content f) (workingSet nb fileType) ->
  Forall (allowed (content f))
         (writesOn (content f) (rulesOf fileType (workingSet nb fileType)))
  /\ answer (getCurrentBalances fileType) (filesAfter (postUpdateBalances nb fileType) fs)
     = extractBalanceValues
         (setEach (writesOn (content f) (rulesOf fileType (workingSet nb fileType)))
                  (content f))
         fileType.
Proof.
  intros Hft Hname Hf Hw Htidy Hfit Hback.
  rewrite <- amountsFit_workingSet in Hfit.
  pose proof (rulesOf_steady (content f) Htidy fileType _ Hfit) as Hsteady.
  destruct (applyRules_writes (content f) _ Hsteady) as [Hrun Hall].
  split; [exact Hall |].
  rewrite (getCurrentBalances_registered fileType fileName _ _ Hname
             (postUpdateBalances_own nb fileType fileName fs f Hft Hname Hf Hw)).
  cbn [content]. by rewrite Hback, localRules_rules, Hrun.
Qed.

Lemma toFirstNumeric_write s value d w :
  w ∈ toFirstNumeric s value d ->
  value = Some (snd w) /\ firstNumeric (select s d) d = Some (fst w).
Proof.
  unfold toFirstNumeric. destruct value as [v |]; [| by intros H%elem_of_nil].
  intros [<- H]%elem_of_withValue.
  destruct (firstNumeric (select s d) d) as [p |]; [| by apply elem_of_nil in H].
  cbn [option_list] in H. by apply list_elem_of_singleton in H as ->.
Qed.

Lemma toSection_write phrase value d w :
  w ∈ toSection phrase value d ->
  value = Some (snd w) /\ fst w ∈ sectionAmount phrase d.
Proof.
  unfold toSection. destruct value as [v |]; [| by intros H%elem_of_nil].
  by intros [<- H]%elem_of_withValue.
Qed.

Lemma toAll_write s value d w :
  w ∈ toAll s value d -> value = Some (snd w) /\ fst w ∈ select s d.
Proof.
  unfold toAll. destruct value as [v |]; [| by intros H%elem_of_nil].
  by intros [<- H]%elem_of_withValue.
Qed.

Lemma toEach_write test s value d w :
  w ∈ toEach test s value d -> value = Some (snd w) /\ fst w ∈ select s d.
Proof.
  unfold toEach. destruct value as [v |]; [| by intros H%elem_of_nil].
  by intros [<- [H _]%filter_In_elem]%elem_of_withValue.
Qed.

Lemma sectionAmount_single phrase d : sectionAmount phrase d <> [] ->
  exists t, sectionAmount phrase d = [t].
Proof.
  unfold sectionAmount. destruct (find _ _ d) as [| t l]; [done |]. by exists t.
Qed.

(** Where the writes of the main page's rules go and what they carry. *)
Lemma openbank_writes x nb w :
  w ∈ writesOn x (openbankRules nb) ->
  (nb !! "accountTotalBalance" = Some (snd w) /\ fst w ∈ select accountTotalSelector x)
  \/ (nb !! "individualAccountBalance" = Some (snd w)
      /\ fst w ∈ select individualAccountSelector x)
  \/ (nb !! "totalSavingsBalance" = Some (snd w)
      /\ fst w ∈ select totalBalanceAmountSelector x)
  \/ fst w ∈ select monthlyExpensesSelector x
  \/ (nb !! "savingsInvestmentsTotal" = Some (snd w)
      /\ fst w ∈ sectionAmount "Total savings and investments" x)
  \/ (nb !! "totalLending" = Some (snd w) /\ fst w ∈ sectionAmount "Total Lending" x).
Proof.
  unfold writesOn, openbankRules. cbn [flat_map]. rewrite app_nil_r. intros Hw.
  repeat (apply elem_of_app in Hw as [Hw | Hw]).
  - left. apply toFirstNumeric_targets in Hw as Ht. by apply toFirstNumeric_write in Hw as [-> _].
  - right. left. apply toFirstNumeric_targets in Hw as Ht.
    by apply toFirstNumeric_write in Hw as [-> _].
  - do 2 right. left. apply toFirstNumeric_targets in Hw as Ht.
    by apply toFirstNumeric_write in Hw as [-> _].
  - do 3 right. left. by apply toAll_targets in Hw.
  - do 4 right. left. by apply toSection_write in Hw as [-> Hw].
  - do 5 right. by apply toSection_write in Hw as [-> Hw].
Qed.

Lemma openbank_fields (x : document) (nb : gmap string string) :
  tidy x = true ->
  Forall (allowed x) (writesOn x (openbankRules nb)) ->
  let balances := extractOpenbankValues (setEach (writesOn x (openbankRules nb)) x) in
  (forall v, nb !! "accountTotalBalance" = Some v ->
     is_Some (firstNumeric (select accountTotalSelector x) x) ->
     balances !! "accountTotalBalance" = Some (JS.trim v))
  /\ (forall v, nb !! "individualAccountBalance" = Some v ->
        is_Some (firstNumeric (select individualAccountSelector x) x) ->
        balances !! "individualAccountBalance" = Some (JS.trim v))
  /\ (forall v t, nb !! "totalSavingsBalance" = Some v ->
        firstNumeric (select totalBalanceAmountSelector x) x = Some t ->
        nb !! "savingsInvestmentsTotal" = None
        \/ t ∉ sectionAmount "Total savings and investments" x ->
        nb !! "totalLending" = None \/ t ∉ sectionAmount "Total Lending" x ->
        balances !! "totalSavingsBalance" = Some (JS.trim v))
  /\ (forall v t, nb !! "savingsInvestmentsTotal" = Some v ->
        sectionAmount "Total savings and investments" x = [t] ->
        nb !! "totalLending" = None \/ t ∉ sectionAmount "Total Lending" x ->
        balances !! "savingsInvestmentsTotal" = Some (JS.trim v))
  /\ (forall v, nb !! "totalLending" = Some v ->
        sectionAmount "Total Lending" x <> [] ->
        balances !! "totalLending" = Some (JS.trim v)).
Proof.
  intros Htidy Hall balances. subst balances. unfold extractOpenbankValues.
  set (W := writesOn x (openbankRules nb)) in *.
  assert (Hsplit : W = toFirstNumeric accountTotalSelector (nb !! "accountTotalBalance") x
                       ++ toFirstNumeric individualAccountSelector
                            (nb !! "individualAccountBalance") x
                       ++ toFirstNumeric totalBalanceAmountSelector
                            (nb !! "totalSavingsBalance") x
                       ++ toAll monthlyExpensesSelector (Some (expensesText nb)) x
                       ++ toSection "Total savings and investments"
                            (nb !! "savingsInvestmentsTotal") x
                       ++ toSection "Total Lending" (nb !! "totalLending") x).
  { subst W. unfold writesOn, openbankRules. cbn [flat_map]. by rewrite app_nil_r. }
  assert (Hnum : forall s t, firstNumeric (select s x) x = Some t -> t ∈ select s x).
  { intros s t (l1 & l2 & -> & _)%firstNumeric_split. apply elem_of_app. right. by left. }
  split; [| split; [| split; [| split]]].
  - intros v Hv [t Ht]. rewrite !lookup_insert_ne by done. rewrite lookup_insert_eq.
    f_equal. rewrite (readFirstNumeric_after x Htidy W Hall _ _ t); [| by left | exact Ht].
    f_equal. apply (shown_same x Htidy W Hall).
    + rewrite Hsplit. apply elem_of_app. left. unfold toFirstNumeric.
      rewrite Hv, Ht. by left.
    + intros w Hw Hfst. apply Hnum in Ht.
      destruct (openbank_writes x nb w Hw)
        as [[H _] | [[_ H] | [[_ H] | [H | [[_ H] | [_ H]]]]]];
        try apply sectionAmount_select in H.
      * congruence.
      * exfalso. rewrite Hfst in H.
        by apply (other_selector x Htidy 0 1 accountTotalSelector individualAccountSelector t t).
      * exfalso. rewrite Hfst in H.
        by apply (other_selector x Htidy 0 2 accountTotalSelector totalBalanceAmountSelector t t).
      * exfalso. rewrite Hfst in H.
        by apply (other_selector x Htidy 0 4 accountTotalSelector monthlyExpensesSelector t t).
      * exfalso. rewrite Hfst in H.
        by apply (other_selector x Htidy 0 2 accountTotalSelector totalBalanceAmountSelector t t).
      * exfalso. rewrite Hfst in H.
        by apply (other_selector x Htidy 0 2 accountTotalSelector totalBalanceAmountSelector t t).
  - intros v Hv [t Ht]. rewrite !lookup_insert_ne by done. rewrite lookup_insert_eq.
    f_equal. rewrite (readFirstNumeric_after x Htidy W Hall _ _ t);
      [| right; by left | exact Ht].
    f_equal. apply (shown_same x Htidy W Hall).
    + rewrite Hsplit. apply elem_of_app. right. apply elem_of_app. left.
      unfold toFirstNumeric. rewrite Hv, Ht. by left.
    + intros w Hw Hfst. apply Hnum in Ht.
      destruct (openbank_writes x nb w Hw)
        as [[_ H] | [[H _] | [[_ H] | [H | [[_ H] | [_ H]]]]]];
        try apply sectionAmount_select in H.
      * exfalso. rewrite Hfst in H.
        by apply (other_selector x Htidy 1 0 individualAccountSelector accountTotalSelector t t).
      * congruence.
      * exfalso. rewrite Hfst in H.
        by apply (other_selector x Htidy 1 2 individualAccountSelector
                    totalBalanceAmountSelector t t).
      * exfalso. rewrite Hfst in H.
        by apply (other_selector x Htidy 1 4 individualAccountSelector
                    monthlyExpensesSelector t t).
      * exfalso. rewrite Hfst in H.
        by apply (other_selector x Htidy 1 2 individualAccountSelector
                    totalBalanceAmountSelector t t).
      * exfalso. rewrite Hfst in H.
        by apply (other_selector x Htidy 1 2 individualAccountSelector
                    totalBalanceAmountSelector t t).
  - intros v t Hv Ht Hsav Hlend. rewrite !lookup_insert_ne by done. rewrite lookup_insert_eq.
    f_equal. rewrite (readFirstNumeric_after x Htidy W Hall _ _ t);
      [| do 2 right; by left | exact Ht].
    f_equal. apply (shown_same x Htidy W Hall).
    + rewrite Hsplit. do 2 (apply elem_of_app; right). apply elem_of_app. left.
      unfold toFirstNumeric. rewrite Hv, Ht. by left.
    + intros w Hw Hfst. apply Hnum in Ht as Hin.
      destruct (openbank_writes x nb w Hw)
        as [[_ H] | [[_ H] | [[H _] | [H | [[Hval H] | [Hval H]]]]]].
      * exfalso. rewrite Hfst in H.
        by apply (other_selector x Htidy 2 0 totalBalanceAmountSelector accountTotalSelector t t).
      * exfalso. rewrite Hfst in H.
        by apply (other_selector x Htidy 2 1 totalBalanceAmountSelector
                    individualAccountSelector t t).
      * congruence.
      * exfalso. rewrite Hfst in H.
        by apply (other_selector x Htidy 2 4 totalBalanceAmountSelector
                    monthlyExpensesSelector t t).
      * exfalso. rewrite Hfst in H. destruct Hsav as [Hnone | Hout]; [congruence | done].
      * exfalso. rewrite Hfst in H. destruct Hlend as [Hnone | Hout]; [congruence | done].
  - intros v t Hv Ht Hlend. rewrite !lookup_insert_ne by done. rewrite lookup_insert_eq.
    f_equal. rewrite (readSection_after x Htidy W Hall _ t Ht).
    assert (Hshown : textAt t (setEach W x) = v).
    { apply (shown_last x Htidy W Hall t v
               (toFirstNumeric accountTotalSelector (nb !! "accountTotalBalance") x
                ++ toFirstNumeric individualAccountSelector
                     (nb !! "individualAccountBalance") x
                ++ toFirstNumeric totalBalanceAmountSelector (nb !! "totalSavingsBalance") x
                ++ toAll monthlyExpensesSelector (Some (expensesText nb)) x)
               (toSection "Total Lending" (nb !! "totalLending") x)).
      - rewrite Hsplit. unfold toSection at 1. rewrite Hv, Ht. cbn [withValue map].
        by rewrite <- !app_assoc.
      - intros (u & Hu)%elem_of_targets. apply toSection_write in Hu as [Hval Hu].
        cbn [fst] in Hu. destruct Hlend as [Hnone | Hout]; [congruence | done]. }
    rewrite Hshown.
    assert (Hfit : numericText (JS.trim v) = true).
    { rewrite Forall_forall in Hall. destruct (Hall (t, v)) as (_ & _ & Hn).
      - rewrite Hsplit. do 4 (apply elem_of_app; right). apply elem_of_app. left.
        unfold toSection. rewrite Hv, Ht. by left.
      - apply Hn. apply elem_of_matched. exists totalBalanceAmountSelector.
        split; [do 2 right; by left |]. apply sectionAmount_select with
          "Total savings and investments". rewrite Ht. by left. }
    by rewrite Hfit.
  - intros v Hv [t Ht]%sectionAmount_single.
    rewrite !lookup_insert_ne by done. rewrite lookup_insert_eq.
    f_equal. rewrite (readSection_after x Htidy W Hall _ t Ht).
    assert (Hshown : textAt t (setEach W x) = v).
    { apply (shown_last x Htidy W Hall t v
               (toFirstNumeric accountTotalSelector (nb !! "accountTotalBalance") x
                ++ toFirstNumeric individualAccountSelector
                     (nb !! "individualAccountBalance") x
                ++ toFirstNumeric totalBalanceAmountSelector (nb !! "totalSavingsBalance") x
                ++ toAll monthlyExpensesSelector (Some (expensesText nb)) x
                ++ toSection "Total savings and investments"
                     (nb !! "savingsInvestmentsTotal") x)
               []).
      - rewrite Hsplit. unfold toSection at 2. rewrite Hv, Ht. cbn [withValue map].
        by rewrite <- !app_assoc.
      - by intros H%elem_of_nil. }
    rewrite Hshown.
    assert (Hfit : numericText (JS.trim v) = true).
    { rewrite Forall_forall in Hall. destruct (Hall (t, v)) as (_ & _ & Hn).
      - rewrite Hsplit. do 5 (apply elem_of_app; right).
        unfold toSection. rewrite Hv, Ht. by left.
      - apply Hn. apply elem_of_matched. exists totalBalanceAmountSelector.
        split; [do 2 right; by left |]. apply sectionAmount_select with "Total Lending".
        rewrite Ht. by left. }
    by rewrite Hfit.
Qed.

(** The other pages: a field that is given goes to every element of its
    selector; with one such element the extraction reads it back. *)
Lemma written_to_all x (rs : list rule) s value v p i :
  tidy x = true -> Forall (allowed x) (writesOn x rs) ->
  writeSelectors !! i = Some s ->
  toAll s value ∈ rs -> value = Some v -> p ∈ select s x ->
  (forall r w, r ∈ rs -> w ∈ r x ->
     r = toAll s value
     \/ exists j s', writeSelectors !! j = Some s' /\ j <> i /\ fst w ∈ select s' x) ->
  textAt p (setEach (writesOn x rs) x) = v.
Proof.
  intros Htidy Hall Hi Hr Hv Hp Hothers. apply (shown_same x Htidy _ Hall).
  - unfold writesOn. apply list_elem_of_In, in_flat_map. exists (toAll s value).
    split; [by apply list_elem_of_In |]. apply list_elem_of_In. unfold toAll. rewrite Hv.
    apply elem_of_withValue. by split.
  - intros w Hw Hfst. unfold writesOn in Hw.
    apply list_elem_of_In, in_flat_map in Hw as (r & Hrin & Hw).
    apply list_elem_of_In in Hrin, Hw.
    destruct (Hothers r w Hrin Hw) as [-> | (j & s' & Hj & Hne & Hin)].
    + apply toAll_write in Hw as [Hval _]. congruence.
    + exfalso. rewrite Hfst in Hin.
      by apply (other_selector x Htidy i j s s' p p).
Qed.

Lemma orElse_nonempty a b : a <> "" -> orElse a b = a.
Proof. intros Ha. unfold orElse. apply truthy_nonempty in Ha. by rewrite Ha. Qed.

Lemma directDebits_rules_apart x nb r w :
  r ∈ directDebitsRules nb -> w ∈ r x ->
  exists j s', writeSelectors !! j = Some s' /\ fst w ∈ select s' x
               /\ (r = toAll accountsBalanceSelector (given nb "accountsBalanceAmount")
                      /\ j = 7
                   \/ r = toAll ibanSelector (formattedDigits <$> given nb "cardLastDigits")
                      /\ j = 8
                   \/ r = toAll availableAmountSelector (given nb "availableAmount") /\ j = 9
                   \/ r = toAll availableCurrencySelector (given nb "availableCurrency")
                      /\ j = 10).
Proof.
  unfold directDebitsRules. intros Hr Hw.
  repeat (apply elem_of_cons in Hr as [-> | Hr]); [| | | | by apply elem_of_nil in Hr];
    apply toAll_targets in Hw.
  - exists 7, accountsBalanceSelector. repeat split; [done |]. by left.
  - exists 8, ibanSelector. repeat split; [done |]. right. by left.
  - exists 9, availableAmountSelector. repeat split; [done |]. do 2 right. by left.
  - exists 10, availableCurrencySelector. repeat split; [done |]. by do 3 right.
Qed.

Lemma directDebits_fields (x : document) (nb : gmap string string) :
  tidy x = true ->
  Forall (allowed x) (writesOn x (directDebitsRules nb)) ->
  let balances :=
    extractDirectDebitsValues (setEach (writesOn x (directDebitsRules nb)) x) in
  (forall v p, given nb "accountsBalanceAmount" = Some v ->
     select accountsBalanceSelector x = [p] ->
     balances !! "accountsBalanceAmount" = Some (orElse (JS.trim v) "0.00"))
  /\ (forall v p, given nb "cardLastDigits" = Some v ->
        select ibanSelector x = [p] ->
        balances !! "cardLastDigits" = Some (JS.trim (formattedDigits v)))
  /\ (forall v p, given nb "availableAmount" = Some v ->
        select availableAmountSelector x = [p] ->
        balances !! "availableAmount" = Some (orElse (JS.trim v) "0.00"))
  /\ (forall v p, given nb "availableCurrency" = Some v ->
        select availableCurrencySelector x = [p] ->
        balances !! "availableCurrency" = Some (orElse (JS.trim v) euro)).
Proof.
  intros Htidy Hall balances. subst balances. unfold extractDirectDebitsValues.
  assert (Hcases : forall i s value,
            (toAll s value = toAll accountsBalanceSelector (given nb "accountsBalanceAmount")
               /\ i = 7
             \/ toAll s value
                = toAll ibanSelector (formattedDigits <$> given nb "cardLastDigits") /\ i = 8
             \/ toAll s value = toAll availableAmountSelector (given nb "availableAmount")
                /\ i = 9
             \/ toAll s value
                = toAll availableCurrencySelector (given nb "availableCurrency") /\ i = 10) ->
            forall r w, r ∈ directDebitsRules nb -> w ∈ r x ->
              r = toAll s value
              \/ exists j s', writeSelectors !! j = Some s' /\ j <> i
                              /\ fst w ∈ select s' x).
  { intros i s value Hwhich r w Hr Hw.
    destruct (directDebits_rules_apart x nb r w Hr Hw) as (j & s' & Hj & Hin & Hrule).
    destruct (decide (j = i)) as [-> | Hne]; [left | right; by exists j, s'].
    destruct Hwhich as [[-> ->] | [[-> ->] | [[-> ->] | [-> ->]]]];
      destruct Hrule as [[-> ?] | [[-> ?] | [[-> ?] | [-> ?]]]]; done. }
  split; [| split; [| split]].
  - intros v p Hv Hp. rewrite !lookup_insert_ne by done. rewrite lookup_insert_eq.
    f_equal. rewrite (readOr_single x Htidy _ Hall _ _ p);
      [| unfold writeSelectors, plainSelectors; cbn [app]; do 7 right; by left | exact Hp].
    rewrite (written_to_all x (directDebitsRules nb) accountsBalanceSelector
               (given nb "accountsBalanceAmount") v p 7 Htidy Hall eq_refl); try done.
    + unfold directDebitsRules. by left.
    + rewrite Hp. by left.
    + apply Hcases. by left.
  - intros v p Hv Hp. rewrite !lookup_insert_ne by done. rewrite lookup_insert_eq.
    f_equal. rewrite (readOr_single x Htidy _ Hall _ _ p);
      [| unfold writeSelectors, plainSelectors; cbn [app]; do 8 right; by left | exact Hp].
    rewrite (written_to_all x (directDebitsRules nb) ibanSelector
               (formattedDigits <$> given nb "cardLastDigits") (formattedDigits v) p 8
               Htidy Hall eq_refl); try done.
    + apply orElse_nonempty, trim_dotted, formattedDigits_dotted.
    + unfold directDebitsRules. right. by left.
    + by rewrite Hv.
    + rewrite Hp. by left.
    + apply Hcases. right. by left.
  - intros v p Hv Hp. rewrite !lookup_insert_ne by done. rewrite lookup_insert_eq.
    f_equal. rewrite (readOr_single x Htidy _ Hall _ _ p);
      [| unfold writeSelectors, plainSelectors; cbn [app]; do 9 right; by left | exact Hp].
    rewrite (written_to_all x (directDebitsRules nb) availableAmountSelector
               (given nb "availableAmount") v p 9 Htidy Hall eq_refl); try done.
    + unfold directDebitsRules. do 2 right. by left.
    + rewrite Hp. by left.
    + apply Hcases. do 2 right. by left.
  - intros v p Hv Hp. rewrite lookup_insert_ne by done. rewrite lookup_insert_eq.
    f_equal. rewrite (readOr_single x Htidy _ Hall _ _ p);
      [| unfold writeSelectors, plainSelectors; cbn [app]; do 10 right; by left | exact Hp].
    rewrite (written_to_all x (directDebitsRules nb) availableCurrencySelector
               (given nb "availableCurrency") v p 10 Htidy Hall eq_refl); try done.
    + unfold directDebitsRules. do 3 right. by left.
    + rewrite Hp. by left.
    + apply Hcases. by do 3 right.
Qed.

Lemma cards_fields (x : document) (nb : gmap string string) :
  tidy x = true ->
  Forall (allowed x) (writesOn x (cardsRules nb)) ->
  forall v p, given nb "cardLastDigits" = Some v ->
    select cardNumberSelector x = [p] ->
    extractCardsValues (setEach (writesOn x (cardsRules nb)) x) !! "cardLastDigits"
    = Some (orElse (JS.trim v) "1704").
Proof.
  intros Htidy Hall v p Hv Hp. unfold extractCardsValues.
  rewrite lookup_insert_ne by done. rewrite lookup_insert_eq. f_equal.
  rewrite (readOr_single x Htidy _ Hall _ _ p);
    [| unfold writeSelectors, plainSelectors; cbn [app]; do 11 right; by left | exact Hp].
  rewrite (written_to_all x (cardsRules nb) cardNumberSelector
             (given nb "cardLastDigits") v p 11 Htidy Hall eq_refl); try done.
  - unfold cardsRules. by left.
  - rewrite Hp. by left.
  - intros r w Hr Hw. left. unfold cardsRules in Hr. by apply list_elem_of_singleton in Hr.
Qed.

Lemma transfers_fields (x : document) (v : string) (digits : option string) :
  tidy x = true ->
  Forall (allowed x)
         (writesOn x [ toEach numericText dropdownAmountSelector (Some v);
                       toAll dropdownIbanSelector digits ]) ->
  is_Some (firstNumeric (select dropdownAmountSelector x) x) ->
  extractTransfersValues
    (setEach (writesOn x [ toEach numericText dropdownAmountSelector (Some v);
                           toAll dropdownIbanSelector digits ]) x) !! "accountBalance"
  = Some (JS.trim v).
Proof.
  intros Htidy Hall [t Ht]. unfold extractTransfersValues.
  rewrite lookup_insert_ne by done. rewrite lookup_insert_eq. f_equal.
  rewrite (readFirstNumeric_after x Htidy _ Hall _ _ t); [| do 3 right; by left | exact Ht].
  f_equal. apply firstNumeric_split in Ht as (l1 & l2 & Hsel & Hnum & _).
  assert (Hin : t ∈ select dropdownAmountSelector x)
    by (rewrite Hsel; apply elem_of_app; right; by left).
  apply (shown_same x Htidy _ Hall).
  - unfold writesOn. cbn [flat_map]. apply elem_of_app. left. unfold toEach.
    apply elem_of_withValue. split; [reflexivity |]. by apply filter_In_elem.
  - intros w Hw Hfst. unfold writesOn in Hw. cbn [flat_map] in Hw. rewrite app_nil_r in Hw.
    apply elem_of_app in Hw as [Hw | Hw].
    + apply toEach_write in Hw as [Hval _]. by injection Hval.
    + exfalso. apply toAll_targets in Hw. rewrite Hfst in Hw.
      by apply (other_selector x Htidy 3 12 dropdownAmountSelector dropdownIbanSelector t t).
Qed.


End AnyRoundTrip11.

Section Examples9.

#[local] Existing Instance exampleRoundTrip.



End Examples9.

Section AnyRoundTrip12.

Context {html : RoundTrip}.


(** * Writing every match and writing the first match *)


End AnyRoundTrip12.

Section Examples10.

#[local] Existing Instance exampleRoundTrip.



End Examples10.


Section AnyRoundTrip13.

Context {html : RoundTrip}.


(** * What else the code shows *)

(** ** Loading a page *)

(** Loading never changes a file.  It succeeds exactly when the type is
    registered and its file exists; every failure, whatever its cause,
    reaches the caller as the same [ReferenceError], because the handler
    reads a variable that is out of its scope. *)
Theorem load_failures_look_alike (fileType : string) (fs : gmap string file) :
  filesAfter (loadHTMLFile fileType) fs = fs
  /\ (forall d, answer (loadHTMLFile fileType) fs = inr d <->
                exists fileName f,
                  JS.assoc fileType HTML_FILES = Some fileName
                  /\ fs !! fileName = Some f /\ content f = d)
  /\ (forall e, answer (loadHTMLFile fileType) fs = inl e ->
                e = ReferenceError "fileName is not defined").
Proof.
  unfold answer, filesAfter.
  destruct (JS.assoc fileType HTML_FILES) as [fileName |] eqn:Hname.
  - rewrite (loadHTMLFile_known _ _ _ Hname).
    destruct (fs !! fileName) as [f |] eqn:Hf; cbn [fst snd].
    + split; [reflexivity |]. split; [| discriminate].
      intros d. split.
      * intros [= <-]. by exists fileName, f.
      * intros (n & g & [= <-] & Hg & <-). congruence.
    + split; [reflexivity |]. split; [| by intros e [= <-]].
      intros d. split; [discriminate |].
      intros (n & g & [= <-] & Hg & _). congruence.
  - rewrite (loadHTMLFile_unknown _ _ Hname). cbn [fst snd].
    split; [reflexivity |]. split; [| by intros e [= <-]].
    intros d. split; [discriminate |]. intros (n & g & Hn & _). discriminate.
Qed.

End AnyRoundTrip13.

Section Examples11.

#[local] Existing Instance exampleRoundTrip.


Lemma load_failures_look_alike_witness :
  answer (loadHTMLFile "cards") (delete "Openbank-cards.html" projectFiles)
  = inl (ReferenceError "fileName is not defined").
Proof.
  destruct (load_failures_look_alike "cards" (delete "Openbank-cards.html" projectFiles))
    as (_ & _ & Hfail).
  destruct (answer (loadHTMLFile "cards") (delete "Openbank-cards.html" projectFiles))
    as [e | d] eqn:Ha.
  - f_equal. by apply Hfail.
  - discriminate Ha.
Defined.

End Examples11.

Section AnyRoundTrip14.

Context {html : RoundTrip}.


(** ** A request whose own file cannot be written *)

Lemma rewriteFile_readonly filePath change fs k f :
  fs !! k = Some f -> writable f = false -> rewriteFile filePath change fs !! k = Some f.
Proof.
  intros Hf Hw. destruct (decide (filePath = k)) as [-> | Hne].
  - rewrite rewriteFile_same, Hf, Hw. by rewrite andb_false_r.
  - by rewrite rewriteFile_other.
Qed.

Lemma fold_rewriteFile_readonly change k f : forall l fs,
  fs !! k = Some f -> writable f = false ->
  fold_left (fun fs' p => rewriteFile p change fs') l fs !! k = Some f.
Proof.
  induction l as [| p l IH]; intros fs Hf Hw; [exact Hf |].
  cbn [fold_left]. apply IH; [| exact Hw]. by apply rewriteFile_readonly.
Qed.

Lemma globalFiles_readonly nb fileType fs k f :
  fs !! k = Some f -> writable f = false -> globalFiles nb fileType fs !! k = Some f.
Proof.
  intros Hf Hw. unfold globalFiles.
  set (fs1 := match given nb "cardLastDigits" with
              | Some digits =>
                  if String.eqb fileType "openbank" || String.eqb fileType "transfers"
                  then cardDigitsFiles digits fs else fs
              | None => fs
              end).
  assert (H1 : fs1 !! k = Some f).
  { subst fs1. destruct (given nb "cardLastDigits"); [| exact Hf].
    destruct (_ || _); [| exact Hf]. unfold cardDigitsFiles.
    apply rewriteFile_readonly; [| exact Hw]. by apply rewriteFile_readonly. }
  set (fs2 := match given nb "accountTotalBalance" with
              | Some balance =>
                  if String.eqb fileType "openbank" then accountBalanceFiles balance fs1 else fs1
              | None => fs1
              end).
  assert (H2 : fs2 !! k = Some f).
  { subst fs2. destruct (given nb "accountTotalBalance"); [| exact H1].
    destruct (String.eqb fileType "openbank"); [| exact H1].
    unfold accountBalanceFiles.
    apply rewriteFile_readonly; [| exact Hw]. by apply rewriteFile_readonly. }
  destruct (given _ "avatarName"); [| exact H2].
  unfold avatarFiles. by apply fold_rewriteFile_readonly.
Qed.

(** When the file of the request exists but cannot be written, the update
    route answers with the error of [saveHTMLFile], and the files are left
    as the global steps left them: what they wrote into other documents is
    not taken back. *)
Theorem failed_save_keeps_global_writes (nb : gmap string string)
    (fileType fileName : string) (fs : gmap string file) (f : file) :
  fileType ∈ registeredTypes ->
  JS.assoc fileType HTML_FILES = Some fileName ->
  fs !! fileName = Some f -> writable f = false ->
  answer (postUpdateBalances nb fileType) fs
  = inl (Error ("Failed to save " +:+ fileType +:+ " file: "
                +:+ message (SystemError "EACCES" fileName)))
  /\ filesAfter (postUpdateBalances nb fileType) fs = globalFiles nb fileType fs.
Proof.
  intros Hft Hname Hf Hw. unfold answer, filesAfter.
  rewrite (postUpdateBalances_spec _ _ _ _ Hft Hname), Hf.
  rewrite (saveHTMLFile_known _ _ _ _ Hname).
  by rewrite (globalFiles_readonly nb fileType fs fileName f Hf Hw), Hw.
Qed.

End AnyRoundTrip14.

Section Examples12.

#[local] Existing Instance exampleRoundTrip.


Lemma failed_save_keeps_global_writes_witness :
  answer (postUpdateBalances {[ "cardLastDigits" := "2150" ]} "openbank")
         (<["Openbank.html" := File false mainPage]> projectFiles)
  = inl (Error ("Failed to save openbank file: "
                +:+ message (SystemError "EACCES" "Openbank.html")))
  /\ textAt [0]
       (pageOf (filesAfter (postUpdateBalances {[ "cardLastDigits" := "2150" ]} "openbank")
                  (<["Openbank.html" := File false mainPage]> projectFiles))
               "Openbank-transfers.html") = "...2150".
Proof.
  destruct (failed_save_keeps_global_writes {[ "cardLastDigits" := "2150" ]} "openbank"
              "Openbank.html" (<["Openbank.html" := File false mainPage]> projectFiles)
              (File false mainPage)) as [Ha Hfs];
    [unfold registeredTypes; repeat constructor | reflexivity | reflexivity | reflexivity |].
  split; [exact Ha |]. rewrite Hfs. vm_compute. reflexivity.
Defined.

End Examples12.

Section AnyRoundTrip15.

Context {html : RoundTrip}.


(** ** What an extracted record looks like *)

Lemma numericText_truthy t : numericText t = true -> JS.truthy t = true.
Proof. unfold numericText. by intros [[H _]%andb_true_iff _]%andb_true_iff. Qed.

Lemma numericText_number t : numericText t = true -> JS.parseFloatIsNaN t = false.
Proof.
  unfold numericText. intros [[_ H]%andb_true_iff _]%andb_true_iff.
  by apply negb_true_iff in H.
Qed.

Lemma readFirstNumeric_numeric s initial d :
  numericText initial = true -> numericText (readFirstNumeric s initial d) = true.
Proof.
  intros Hi. unfold readFirstNumeric.
  destruct (firstNumeric (select s d) d) as [p |] eqn:Hp; [| exact Hi].
  by destruct (firstNumeric_split d _ p Hp) as (_ & _ & _ & Hnum & _).
Qed.

Lemma readSection_numeric phrase d : numericText (readSection phrase d) = true.
Proof.
  unfold readSection. destruct (negb _); [| reflexivity].
  by destruct (numericText (JS.trim (text (sectionAmount phrase d) d))) eqn:Hn.
Qed.

Lemma readMonthlyExpenses_number d :
  JS.truthy (readMonthlyExpenses d) = true
  /\ JS.parseFloatIsNaN (readMonthlyExpenses d) = false.
Proof.
  unfold readMonthlyExpenses. destruct (negb _); [| by split].
  destruct (JS.truthy _ && negb (JS.parseFloatIsNaN _)) eqn:Ht; [| by split].
  apply andb_true_iff in Ht as [H1 H2]. by apply negb_true_iff in H2.
Qed.

Lemma orElse_truthy a b : JS.truthy b = true -> JS.truthy (orElse a b) = true.
Proof. intros Hb. unfold orElse. by destruct (JS.truthy a) eqn:Ha. Qed.

Lemma readAvatarName_truthy d : JS.truthy (readAvatarName d) = true.
Proof. unfold readAvatarName. destruct (negb _); [by apply orElse_truthy | reflexivity]. Qed.

Lemma readCardTitle_truthy d : JS.truthy (readCardTitle d) = true.
Proof. unfold readCardTitle. destruct (negb _); [by apply orElse_truthy | reflexivity]. Qed.

Lemma readOr_truthy s initial d : JS.truthy initial = true -> JS.truthy (readOr s initial d) = true.
Proof. intros H. unfold readOr. by apply orElse_truthy. Qed.

End AnyRoundTrip15.


Create HintDb reads.
#[local] Hint Resolve numericText_truthy readFirstNumeric_numeric readSection_numeric
  readAvatarName_truthy readCardTitle_truthy readOr_truthy : reads.

Ltac by_key H :=
  repeat (rewrite lookup_insert in H; case_decide;
          [injection H as <-; apply truthy_nonempty; auto 6 with reads |]);
  try (rewrite lookup_empty in H; discriminate H).
Section AnyRoundTrip16.

Context {html : RoundTrip}.


(** Whatever the page, extraction for a registered type returns a record
    with exactly the fields of that type, and no field is ever empty: where
    nothing usable is found the initial value stands in. *)
Theorem extraction_record_shape (d : document) (fileType : string) :
  fileType ∈ registeredTypes ->
  exists balances,
    extractBalanceValues d fileType = inr balances
    /\ dom balances = dom (initialValues fileType)
    /\ forall k v, balances !! k = Some v -> v <> "".
Proof.
  intros Hft. unfold registeredTypes in Hft.
  repeat (apply elem_of_cons in Hft as [-> | Hft]); [| | | | by apply elem_of_nil in Hft].
  - exists (extractOpenbankValues d). split; [reflexivity |]. split.
    + unfold extractOpenbankValues, initialValues. cbn [String.eqb Ascii.eqb Bool.eqb].
      rewrite !dom_insert_L. set_solver.
    + intros k v H. unfold extractOpenbankValues in H. by_key H.
      apply (proj1 (readMonthlyExpenses_number d)).
  - exists (extractDirectDebitsValues d). split; [reflexivity |]. split.
    + unfold extractDirectDebitsValues, initialValues. cbn [String.eqb Ascii.eqb Bool.eqb].
      rewrite !dom_insert_L. set_solver.
    + intros k v H. unfold extractDirectDebitsValues in H. by_key H.
  - exists (extractCardsValues d). split; [reflexivity |]. split.
    + unfold extractCardsValues, initialValues. cbn [String.eqb Ascii.eqb Bool.eqb].
      rewrite !dom_insert_L. set_solver.
    + intros k v H. unfold extractCardsValues in H. by_key H.
  - exists (extractTransfersValues d). split; [reflexivity |]. split.
    + unfold extractTransfersValues, initialValues. cbn [String.eqb Ascii.eqb Bool.eqb].
      rewrite !dom_insert_L. set_solver.
    + intros k v H. unfold extractTransfersValues in H. by_key H.
Qed.

End AnyRoundTrip16.

Section Examples13.

#[local] Existing Instance exampleRoundTrip.


Lemma extraction_record_shape_witness :
  exists balances,
    extractBalanceValues blankNamePage "cards" = inr balances
    /\ balances !! "avatarName" = Some "Alfonso".
Proof.
  destruct (extraction_record_shape blankNamePage "cards") as (balances & He & _ & _);
    [unfold registeredTypes; repeat constructor |].
  exists balances. split; [exact He |].
  injection He as <-. reflexivity.
Defined.

End Examples13.

Section AnyRoundTrip17.

Context {html : RoundTrip}.


(** The six amounts extracted from the main page, and the account balance
    extracted from the transfers page, always read as numbers: a text that
    does not is never returned, the initial value is. *)
Theorem extracted_amounts_are_numbers (d : document) :
  Forall (fun k => exists v, extractOpenbankValues d !! k = Some v
                             /\ JS.parseFloatIsNaN v = false) mainAmounts
  /\ exists v, extractTransfersValues d !! "accountBalance" = Some v
               /\ JS.parseFloatIsNaN v = false.
Proof.
  split.
  - unfold mainAmounts, extractOpenbankValues.
    repeat apply Forall_cons_2; [| | | | | | apply Forall_nil_2];
      eexists; (split; [by rewrite ?lookup_insert_ne by done; rewrite lookup_insert_eq |]);
      first [ apply (proj2 (readMonthlyExpenses_number d))
            | apply numericText_number; auto with reads ].
  - unfold extractTransfersValues. eexists.
    split; [by rewrite ?lookup_insert_ne by done; rewrite lookup_insert_eq |].
    apply numericText_number. auto with reads.
Qed.

(** ** Amounts a request leaves out *)

(** The first matched element is never inside another matched element, so
    after every matched element was rewritten it is still the first match
    and shows the new text. *)
Lemma select_head_written s v d p l :
  structural s -> select s d = p :: l ->
  textAt p (setTextAll (select s d) v d) = v
  /\ exists l', select s (setTextAll (select s d) v d) = p :: l'.
Proof.
  intros Hs Hsel.
  assert (Hfree : forall q, q ∈ select s d -> ~ encloses q p).
  { intros q Hq. rewrite Hsel in Hq. apply elem_of_cons in Hq as [-> | Hq].
    - intros (i & r & Hp). apply (f_equal length) in Hp.
      rewrite length_app in Hp. cbn in Hp. lia.
    - by apply (select_later s d [] p l q). }
  split.
  - destruct (select_elements s d p) as (t & a & c & ks & Hn); [rewrite Hsel; by left |].
    erewrite textAt_node; [apply textContent_single |].
    eapply setTextAll_written; [rewrite Hsel; by left | exact Hfree | exact Hn].
  - rewrite select_setTextAll by (done || intros q Hq; by eapply select_nonempty_paths).
    assert (Hkeep : forallb (fun q => negb (inside q p)) (select s d) = true).
    { apply forallb_forall. intros q Hq%list_elem_of_In.
      destruct (inside q p) eqn:Hi; [| reflexivity].
      apply inside_encloses in Hi. by destruct (Hfree q). }
    set (keep := fun q => forallb (fun p0 => negb (inside p0 q)) (select s d)).
    rewrite Hsel. cbn [List.filter].
    replace (keep p) with true by (symmetry; exact Hkeep). by eexists.
Qed.

End AnyRoundTrip17.

Section Examples14.

#[local] Existing Instance exampleRoundTrip.


Lemma monthlyExpensesSelector_structural : structural monthlyExpensesSelector.
Proof. split; [reflexivity | repeat constructor]. Qed.

End Examples14.

Section AnyRoundTrip18.

Context {html : RoundTrip}.


Lemma readMonthlyExpenses_undefined d :
  readMonthlyExpenses (setTextAll (select monthlyExpensesSelector d) ("undefined " +:+ euro) d)
  = "0.00".
Proof.
  destruct (select monthlyExpensesSelector d) as [| p l] eqn:Hsel.
  - cbn [setTextAll fold_left]. by apply readMonthlyExpenses_none.
  - destruct (select_head_written monthlyExpensesSelector ("undefined " +:+ euro) d p l
                monthlyExpensesSelector_structural Hsel) as (Ht & l' & Hsel').
    rewrite Hsel in Ht, Hsel'. unfold readMonthlyExpenses. rewrite Hsel'.
    cbn [isEmpty negb first]. rewrite text_single, Ht. reflexivity.
Qed.

Lemma updateOpenbankValues_nothing_given nb d :
  Forall (fun k => nb !! k = None) mainAmounts ->
  updateOpenbankValues d nb
  = setTextAll (select monthlyExpensesSelector d) ("undefined " +:+ euro) d.
Proof.
  intros H. unfold mainAmounts in H.
  repeat (apply Forall_cons in H as [? H]).
  unfold updateOpenbankValues, updateAccountTotal, updateIndividualAccount,
    updateTotalSavings, updateMonthlyExpenses, expensesText.
  repeat match goal with Hk : nb !! _ = None |- _ => rewrite Hk; clear Hk end.
  by rewrite !writeFirstNumeric_undefined, !updateSection_undefined.
Qed.


End AnyRoundTrip18.

Section Examples15.

#[local] Existing Instance exampleRoundTrip.



End Examples15.

Section AnyRoundTrip19.

Context {html : RoundTrip}.


(** ** The page of the request and the global steps *)

Lemma updateOpenbankValues_reads nb nb' d :
  Forall (fun k => nb' !! k = nb !! k) mainAmounts ->
  updateOpenbankValues d nb' = updateOpenbankValues d nb.
Proof.
  intros H. unfold mainAmounts in H. repeat (apply Forall_cons in H as [? H]).
  unfold updateOpenbankValues, updateAccountTotal, updateIndividualAccount,
    updateTotalSavings, updateMonthlyExpenses, expensesText.
  repeat match goal with Hk : nb' !! _ = _ |- _ => rewrite Hk; clear Hk end.
  reflexivity.
Qed.

Lemma workingSet_digits_removed nb v fileType :
  given nb "cardLastDigits" = Some v ->
  fileType = "openbank" \/ fileType = "transfers" ->
  given (workingSet nb fileType) "cardLastDigits" = None.
Proof.
  intros Hv Hft. unfold workingSet, propagatesDigits. rewrite Hv.
  replace (String.eqb fileType "openbank" || String.eqb fileType "transfers") with true
    by (by destruct Hft as [-> | ->]).
  assert (Hgone : given (delete "cardLastDigits" nb) "cardLastDigits" = None).
  { unfold given. by rewrite lookup_delete_eq. }
  destruct (given (delete "cardLastDigits" nb) "avatarName"); [| exact Hgone].
  unfold given. rewrite lookup_delete_ne by done. exact Hgone.
Qed.


End AnyRoundTrip19.

Section Examples16.

#[local] Existing Instance exampleRoundTrip.



End Examples16.

Section AnyRoundTrip20.

Context {html : RoundTrip}.


(** Called for a type that is not one of the four pages, the update only
    fails after the global steps: the error is "Unknown file type", and a
    name the request carried has by then been written to every page of the
    project. *)
Theorem unknown_type_fails_after_name_update (d : document) (nb : gmap string string)
    (fileType : string) (fs : gmap string file) :
  fileType ∉ registeredTypes ->
  answer (updateBalanceValues d nb fileType) fs
  = inl (Error ("Unknown file type: " +:+ fileType))
  /\ filesAfter (updateBalanceValues d nb fileType) fs
     = match given nb "avatarName" with
       | Some name => avatarFiles name fs
       | None => fs
       end.
Proof.
  intros Hft. split; [by apply updateBalanceValues_unknown |].
  assert (Ho : String.eqb fileType "openbank" = false).
  { apply String.eqb_neq. intros ->. apply Hft. unfold registeredTypes. repeat constructor. }
  assert (Hd : String.eqb fileType "directDebits" = false).
  { apply String.eqb_neq. intros ->. apply Hft. unfold registeredTypes. repeat constructor. }
  assert (Hc : String.eqb fileType "cards" = false).
  { apply String.eqb_neq. intros ->. apply Hft. unfold registeredTypes. repeat constructor. }
  assert (Ht : String.eqb fileType "transfers" = false).
  { apply String.eqb_neq. intros ->. apply Hft. unfold registeredTypes. repeat constructor. }
  unfold filesAfter, updateBalanceValues, bind. rewrite globalSteps_spec.
  rewrite Ho, Hd, Hc, Ht. cbn [snd throw].
  unfold globalFiles, propagatesDigits. rewrite Ho, Ht. cbn [orb].
  destruct (given nb "cardLastDigits"); destruct (given nb "accountTotalBalance"); reflexivity.
Qed.

End AnyRoundTrip20.

Section Examples17.

#[local] Existing Instance exampleRoundTrip.


Lemma unknown_type_fails_after_name_update_witness :
  answer (updateBalanceValues cardsPage {[ "avatarName" := "Ana" ]} "loans") projectFiles
  = inl (Error "Unknown file type: loans")
  /\ textAt [1; 0; 0]
       (pageOf (filesAfter (updateBalanceValues cardsPage {[ "avatarName" := "Ana" ]} "loans")
                           projectFiles) "Openbank-cards.html") = "Ana".
Proof.
  destruct (unknown_type_fails_after_name_update cardsPage {[ "avatarName" := "Ana" ]}
              "loans" projectFiles) as [Ha Hf].
  - unfold registeredTypes. intros H.
    repeat (apply elem_of_cons in H as [H | H]; [discriminate H |]).
    by apply elem_of_nil in H.
  - split; [exact Ha |]. rewrite Hf. vm_compute. reflexivity.
Defined.

End Examples17.

Section AnyRoundTrip21.

Context {html : RoundTrip}.


(** ** What the global updates leave alone *)


Lemma rewriteFile_dom filePath change fs : dom (rewriteFile filePath change fs) = dom fs.
Proof.
  unfold rewriteFile. destruct (fs !! filePath) as [f |] eqn:Hf; [| reflexivity].
  destruct (snd (change (content f)) && writable f); [| reflexivity].
  rewrite dom_insert_L. apply elem_of_dom_2 in Hf.
  apply subseteq_union_1_L. by apply singleton_subseteq_l.
Qed.

Lemma fold_rewriteFile_dom change : forall l fs,
  dom (fold_left (fun fs' p => rewriteFile p change fs') l fs) = dom fs.
Proof.
  induction l as [| p l IH]; intros fs; [reflexivity |].
  cbn [fold_left]. by rewrite IH, rewriteFile_dom.
Qed.


Lemma avatarChange_nothing name d :
  select avatarSelector d = [] -> avatarChange name d = (d, false).
Proof. intros H. unfold avatarChange. by rewrite H. Qed.

(** The name update neither creates nor removes a file.  It leaves as they
    are the files of the ignore list, the files it cannot write, and the
    pages that show no name element. *)
Theorem name_update_scope (name : string) (fs : gmap string file) (p : string) :
  dom (filesAfter (updateAvatarNameGlobally name) fs) = dom fs
  /\ (ignored p = true ->
      filesAfter (updateAvatarNameGlobally name) fs !! p = fs !! p)
  /\ (forall f, fs !! p = Some f ->
        writable f = false \/ select avatarSelector (content f) = [] ->
        filesAfter (updateAvatarNameGlobally name) fs !! p = Some f).
Proof.
  destruct (updateAvatarNameGlobally_files name fs) as [counts Hrun].
  unfold filesAfter. rewrite Hrun. cbn [snd]. split; [| split].
  - apply fold_rewriteFile_dom.
  - intros Hi. by rewrite avatarFiles_lookup, Hi, andb_false_r.
  - intros f Hf Hwhy. rewrite avatarFiles_lookup.
    destruct (globbed p && negb (ignored p)); [| exact Hf].
    rewrite rewriteFile_same, Hf. destruct Hwhy as [Hw | Hsel].
    + by rewrite Hw, andb_false_r.
    + by rewrite (avatarChange_nothing name _ Hsel).
Qed.

End AnyRoundTrip21.

Section Examples18.

#[local] Existing Instance exampleRoundTrip.


Lemma name_update_scope_witness :
  filesAfter (updateAvatarNameGlobally "Ana") sideFiles !! "admin-dashboard.html"
  = Some (File true [avatarOf "Alfonso"])
  /\ filesAfter (updateAvatarNameGlobally "Ana") sideFiles !! "locked.html"
     = Some (File false [avatarOf "Alfonso"])
  /\ filesAfter (updateAvatarNameGlobally "Ana") sideFiles !! "about.html"
     = Some (File true maintenancePage).
Proof.
  split; [| split].
  - destruct (name_update_scope "Ana" sideFiles "admin-dashboard.html") as (_ & Hi & _).
    by rewrite Hi.
  - destruct (name_update_scope "Ana" sideFiles "locked.html") as (_ & _ & Hf).
    apply Hf; [reflexivity | by left].
  - destruct (name_update_scope "Ana" sideFiles "about.html") as (_ & _ & Hf).
    apply Hf; [reflexivity | by right].
Defined.

End Examples18.

Section AnyRoundTrip22.

Context {html : RoundTrip}.


Lemma tally_sum countFailure o u s :
  fst (tally countFailure o (u, s)) + snd (tally countFailure o (u, s))
  = u + s + (if countFailure then 1 else match o with Failed => 0 | _ => 1 end).
Proof. destruct o, countFailure; cbn; lia. Qed.

(** The two amount propagations write to the main and the transfers file
    only, and never create a file that is missing.  The balance propagation
    accounts for both targets, whatever happens: its two counters add up to
    two.  The card-digits propagation leaves out a target that failed, so
    its counters add up to the number of targets that could be read and,
    where something was found, written. *)
Theorem amount_propagation_scope (v : string) (fs : gmap string file) (other : string) :
  dom (filesAfter (updateCardDigitsGlobally v) fs) = dom fs
  /\ dom (filesAfter (updateAccountBalanceGlobally v) fs) = dom fs
  /\ (other <> "Openbank.html" -> other <> "Openbank-transfers.html" ->
      filesAfter (updateCardDigitsGlobally v) fs !! other = fs !! other
      /\ filesAfter (updateAccountBalanceGlobally v) fs !! other = fs !! other)
  /\ (exists updated skipped,
        answer (updateAccountBalanceGlobally v) fs = inr (updated, skipped)
        /\ updated + skipped = 2)
  /\ (exists updated skipped,
        answer (updateCardDigitsGlobally v) fs = inr (updated, skipped)
        /\ updated + skipped
           = length (List.filter
                       (fun o => match o with Failed => false | _ => true end)
                       [ outcomeOf "Openbank.html" (cardDigitsIn "openbank" v) fs;
                         outcomeOf "Openbank-transfers.html" (cardDigitsIn "transfers" v)
                           (rewriteFile "Openbank.html" (cardDigitsIn "openbank" v) fs) ])).
Proof.
  unfold filesAfter, answer.
  rewrite updateCardDigitsGlobally_spec, updateAccountBalanceGlobally_spec.
  cbn [fst snd]. split; [| split; [| split; [| split]]].
  - by rewrite !rewriteFile_dom.
  - by rewrite !rewriteFile_dom.
  - intros Ho Ht. by rewrite !rewriteFile_other.
  - eexists _, _. split; [f_equal; apply surjective_pairing |].
    destruct (tally true (outcomeOf "Openbank.html" (accountBalanceIn "openbank" v) fs) (0, 0))
      as [u s] eqn:H1.
    pose proof (tally_sum true (outcomeOf "Openbank.html" (accountBalanceIn "openbank" v) fs)
                  0 0) as Hs1.
    rewrite H1 in Hs1. cbn [fst snd] in Hs1.
    rewrite tally_sum. lia.
  - eexists _, _. split; [f_equal; apply surjective_pairing |].
    destruct (tally false (outcomeOf "Openbank.html" (cardDigitsIn "openbank" v) fs) (0, 0))
      as [u s] eqn:H1.
    pose proof (tally_sum false (outcomeOf "Openbank.html" (cardDigitsIn "openbank" v) fs)
                  0 0) as Hs1.
    rewrite H1 in Hs1. cbn [fst snd] in Hs1.
    rewrite tally_sum. cbn [List.filter].
    destruct (outcomeOf "Openbank.html" (cardDigitsIn "openbank" v) fs);
      destruct (outcomeOf "Openbank-transfers.html" (cardDigitsIn "transfers" v) _);
      cbn [length]; lia.
Qed.

End AnyRoundTrip22.

Section Examples19.

#[local] Existing Instance exampleRoundTrip.


Lemma amount_propagation_scope_witness :
  filesAfter (updateCardDigitsGlobally "2150") projectFiles !! "Openbank-cards.html"
  = Some (File true cardsPage)
  /\ filesAfter (updateAccountBalanceGlobally "1000.50") projectFiles !! "Openbank-cards.html"
     = Some (File true cardsPage).
Proof.
  destruct (amount_propagation_scope "2150" projectFiles "Openbank-cards.html")
    as (_ & _ & Hc & _); [].
  destruct (amount_propagation_scope "1000.50" projectFiles "Openbank-cards.html")
    as (_ & _ & Hb & _); [].
  split.
  - by rewrite (proj1 (Hc ltac:(done) ltac:(done))).
  - by rewrite (proj2 (Hb ltac:(done) ltac:(done))).
Defined.

(** ** Running the name update again *)

Lemma avatarSelector_structural : structural avatarSelector.
Proof. split; [reflexivity | repeat constructor]. Qed.

End Examples19.

Section AnyRoundTrip23.

Context {html : RoundTrip}.


Lemma staleName_same name : staleName name name = false.
Proof. unfold staleName. by rewrite String.eqb_refl, andb_false_r. Qed.

(** On a page whose name elements do not contain one another, the page the
    name update produces has no stale name element left. *)
Lemma avatarChange_settled name d :
  JS.trim name = name -> unnested (select avatarSelector d) ->
  avatarChange name (fst (avatarChange name d)) = (fst (avatarChange name d), false).
Proof.
  intros Htrim Hun. rewrite (avatarChange_filter name d). cbn [fst].
  set (hits := List.filter (stale name d) (select avatarSelector d)).
  set (d' := setTextAll hits name d).
  assert (Hsub : forall p, p ∈ hits -> p ∈ select avatarSelector d).
  { intros p Hp. subst hits. by apply filter_In_elem in Hp as [Hp _]. }
  assert (Hsel' : select avatarSelector d' = select avatarSelector d).
  { subst d'. rewrite select_setTextAll
      by (apply avatarSelector_structural
          || intros p Hp; eapply select_nonempty_paths; by apply Hsub).
    apply filter_all. intros q Hq. apply forallb_forall. intros p Hp.
    apply list_elem_of_In in Hp.
    destruct (inside p q) eqn:Hi; [| reflexivity].
    apply inside_encloses in Hi. destruct (Hun p q); auto. }
  rewrite avatarChange_filter, Hsel'.
  replace (List.filter (stale name d') (select avatarSelector d)) with (@nil path);
    [reflexivity |].
  symmetry. apply filter_none. intros p Hp. unfold stale.
  destruct (decide (p ∈ hits)) as [Hhit | Hmiss].
  - destruct (select_elements avatarSelector d p Hp) as (t & a & c & ks & Hn).
    erewrite textAt_node;
      [| eapply setTextAll_written; [exact Hhit | | exact Hn]].
    + rewrite textContent_single, Htrim. apply staleName_same.
    + intros q Hq. apply Hun; [by apply Hsub | done].
  - unfold textAt. subst d'. rewrite setTextAll_apart.
    + destruct (staleName name (JS.trim (textAt p d))) eqn:Hst; [| exact Hst].
      exfalso. apply Hmiss. subst hits. by apply filter_In_elem.
    + intros q Hq. apply (unnested_apart (select avatarSelector d)); [done | by apply Hsub | done |].
      intros ->. by apply Hmiss.
Qed.

Lemma avatarFiles_settled name fs p f1 :
  JS.trim name = name ->
  (forall f, fs !! p = Some f ->
     unnested (select avatarSelector (content f))
     /\ reload (fst (avatarChange name (content f))) = fst (avatarChange name (content f))) ->
  avatarFiles name fs !! p = Some f1 ->
  globbed p && negb (ignored p) = true ->
  snd (avatarChange name (content f1)) && writable f1 = false.
Proof.
  intros Htrim Hok Hf1 Hi. rewrite avatarFiles_lookup, Hi, rewriteFile_same in Hf1.
  destruct (fs !! p) as [f |] eqn:Hf; [| discriminate Hf1].
  destruct (Hok f eq_refl) as [Hun Hback].
  destruct (snd (avatarChange name (content f)) && writable f) eqn:Hc.
  - injection Hf1 as <-. cbn [content writable]. rewrite Hback.
    by rewrite avatarChange_settled.
  - by injection Hf1 as <-.
Qed.


End AnyRoundTrip23.

Section Examples20.

#[local] Existing Instance exampleRoundTrip.



End Examples20.

Section AnyRoundTrip24.

Context {html : RoundTrip}.


(** ** What the local rules leave alone *)

Lemma select_after_setTextAll s l v d p :
  structural s -> (forall x, x ∈ l -> x <> []) ->
  p ∈ select s (setTextAll l v d) -> p ∈ select s d.
Proof.
  intros Hs Hl Hp. rewrite select_setTextAll in Hp by done.
  by apply filter_In_elem in Hp as [Hp _].
Qed.

Lemma select_after_writeGiven s' s v d p :
  structural s' -> p ∈ select s' (writeGiven s v d) -> p ∈ select s' d.
Proof.
  intros Hs Hp. destruct v as [w |]; [| exact Hp]. cbn [writeGiven] in Hp.
  destruct (negb (isEmpty (select s d))); [| exact Hp].
  eapply select_after_setTextAll; [exact Hs | | exact Hp].
  intros x Hx. by eapply select_nonempty_paths.
Qed.

Lemma writeGiven_frame s v d q :
  (forall p, p ∈ select s d -> apart p q) -> nodeAt q (writeGiven s v d) = nodeAt q d.
Proof.
  intros Hq. destruct v as [w |]; [| reflexivity]. cbn [writeGiven].
  destruct (negb (isEmpty (select s d))); [| reflexivity].
  by apply setTextAll_apart.
Qed.

Lemma updateAccountAmounts_frame nb d q :
  (forall p, p ∈ select dropdownAmountSelector d -> apart p q) ->
  nodeAt q (updateAccountAmounts nb d) = nodeAt q d.
Proof.
  intros Hq. unfold updateAccountAmounts.
  destruct (given nb "accountBalance") as [v |]; [| reflexivity].
  rewrite eachWhere_filter. cbn [fst]. apply setTextAll_apart.
  intros p Hp. apply filter_In_elem in Hp as [Hp _]. by apply Hq.
Qed.

Lemma select_after_updateAccountAmounts s nb d p :
  structural s -> p ∈ select s (updateAccountAmounts nb d) -> p ∈ select s d.
Proof.
  intros Hs Hp. unfold updateAccountAmounts in Hp.
  destruct (given nb "accountBalance") as [v |]; [| exact Hp].
  rewrite eachWhere_filter in Hp. cbn [fst] in Hp.
  eapply select_after_setTextAll; [exact Hs | | exact Hp].
  intros x Hx. apply filter_In_elem in Hx as [Hx _]. by eapply select_nonempty_paths.
Qed.

End AnyRoundTrip24.


Ltac structural_selector := split; [reflexivity | repeat constructor].
Section AnyRoundTrip25.

Context {html : RoundTrip}.


(** The local rules of the direct-debits, cards and transfers pages change
    nothing outside the elements their selectors match on the page as it was
    loaded: every part of the page that neither contains such an element
    nor lies inside one is the same after the update, whatever the request
    holds. *)
Theorem local_rules_frame (fileType : string) (d : document) (nb : gmap string string)
    (q : path) :
  (forall s p, s ∈ rewrittenBy fileType -> p ∈ select s d -> apart p q) ->
  fileType = "directDebits" \/ fileType = "cards" \/ fileType = "transfers" ->
  nodeAt q (localRules fileType d nb) = nodeAt q d.
Proof.
  intros Hq [-> | [-> | ->]]; unfold localRules, rewrittenBy in *;
    cbn [String.eqb Ascii.eqb Bool.eqb] in *.
  - unfold updateDirectDebitsValues.
    assert (H1 : forall p, p ∈ select accountsBalanceSelector d -> apart p q)
      by (intros p; apply Hq; repeat constructor).
    assert (H2 : forall p, p ∈ select ibanSelector d -> apart p q)
      by (intros p; apply Hq; repeat constructor).
    assert (H3 : forall p, p ∈ select availableAmountSelector d -> apart p q)
      by (intros p; apply Hq; repeat constructor).
    assert (H4 : forall p, p ∈ select availableCurrencySelector d -> apart p q)
      by (intros p; apply Hq; repeat constructor).
    rewrite writeGiven_frame.
    + rewrite writeGiven_frame.
      * rewrite writeGiven_frame; [by apply writeGiven_frame |].
        intros p Hp. apply H2.
        eapply select_after_writeGiven; [structural_selector | exact Hp].
      * intros p Hp. apply H3.
        do 2 (eapply select_after_writeGiven; [structural_selector |]). exact Hp.
    + intros p Hp. apply H4.
      do 3 (eapply select_after_writeGiven; [structural_selector |]). exact Hp.
  - unfold updateCardsValues. apply writeGiven_frame.
    intros p. apply Hq. repeat constructor.
  - unfold updateTransfersValues.
    assert (H1 : forall p, p ∈ select dropdownAmountSelector d -> apart p q)
      by (intros p; apply Hq; repeat constructor).
    assert (H2 : forall p, p ∈ select dropdownIbanSelector d -> apart p q)
      by (intros p; apply Hq; repeat constructor).
    rewrite writeGiven_frame; [by apply updateAccountAmounts_frame |].
    intros p Hp. apply H2.
    eapply select_after_updateAccountAmounts; [structural_selector | exact Hp].
Qed.

End AnyRoundTrip25.

Section Examples21.

#[local] Existing Instance exampleRoundTrip.


Lemma local_rules_frame_witness :
  nodeAt [3] (localRules "transfers" transfersPage
                (<["cardLastDigits" := "2150"]> {[ "accountBalance" := "1000.50" ]}))
  = Some (avatarOf "Alfonso").
Proof.
  rewrite (local_rules_frame "transfers" transfersPage _ [3]).
  - reflexivity.
  - intros s p Hs Hp. unfold rewrittenBy in Hs. cbn [String.eqb Ascii.eqb Bool.eqb] in Hs.
    repeat (apply elem_of_cons in Hs as [-> | Hs]);
      [| | by apply elem_of_nil in Hs];
      vm_compute in Hp;
      repeat (apply elem_of_cons in Hp as [-> | Hp]);
      try (by apply elem_of_nil in Hp);
      split; intros [k Hk]; discriminate Hk.
  - by right; right.
Defined.

End Examples21.

Section AnyRoundTrip26.

Context {html : RoundTrip}.


(** ** Monthly expenses written and read back *)


Lemma digit_plain c :
  JS.isDigit c = true -> Ascii.eqb c "+" || Ascii.eqb c "-" = false.
Proof. destruct c as [[] [] [] [] [] [] [] []]; cbn; intros H; by try discriminate H. Qed.


Lemma trimEnd_plain v t :
  digitsAndDots v = true -> JS.trimEnd t = t -> JS.trimEnd (v +:+ t) = v +:+ t.
Proof.
  intros Hv Ht. induction v as [| c v IH]; [by rewrite append_empty_l |].
  cbn [digitsAndDots] in Hv. apply andb_true_iff in Hv as [Hc Hv].
  rewrite append_cons. cbn [JS.trimEnd]. unfold JS.blank.
  rewrite (trimStart_plain c _ Hc). by rewrite IH.
Qed.

Lemma removeFirst_currency v :
  digitsAndDots v = true -> JS.removeFirst (String " " euro) (v +:+ String " " euro) = v.
Proof.
  induction v as [| c v IH]; intros Hv; [reflexivity |].
  cbn [digitsAndDots] in Hv. apply andb_true_iff in Hv as [Hc Hv].
  destruct (digit_or_dot_plain c Hc) as (_ & Hsp & _).
  rewrite (append_cons c v).
  change (JS.removeFirst (String " " euro) (String c (v +:+ String " " euro)))
    with (if JS.startsWith (String " " euro) (String c (v +:+ String " " euro))
          then JS.dropPrefix (String " " euro) (String c (v +:+ String " " euro))
          else String c (JS.removeFirst (String " " euro) (v +:+ String " " euro))).
  cbn [JS.startsWith]. rewrite Hsp. by rewrite IH.
Qed.

Lemma plainAmount_number v :
  plainAmount v = true -> v <> "" /\ JS.trimStart v = v /\ JS.parseFloatIsNaN v = false.
Proof.
  unfold plainAmount. intros [Hd _]%andb_true_iff.
  destruct v as [| c v]; [discriminate Hd |]. cbn [JS.startsWithDigit] in Hd.
  assert (Htrim : JS.trimStart (String c v) = String c v)
    by (apply trimStart_plain; by rewrite Hd).
  split; [done |]. split; [exact Htrim |].
  unfold JS.parseFloatIsNaN. rewrite Htrim. cbn [JS.dropSign]. rewrite (digit_plain c Hd).
  cbn [JS.startsWithDigit]. rewrite Hd. by rewrite orb_true_r.
Qed.

Lemma expensesText_trim v :
  plainAmount v = true -> JS.trim (v +:+ " " +:+ euro) = v +:+ " " +:+ euro.
Proof.
  intros Hv. unfold JS.trim.
  assert (Hstart : JS.trimStart (v +:+ " " +:+ euro) = v +:+ " " +:+ euro).
  { apply andb_true_iff in Hv as [Hd _].
    destruct v as [| c v]; [discriminate Hd |]. cbn [JS.startsWithDigit] in Hd.
    rewrite (append_cons c v). apply trimStart_plain. by rewrite Hd. }
  rewrite Hstart. apply trimEnd_plain; [| reflexivity].
  by apply andb_true_iff in Hv as [_ Hv].
Qed.

Lemma updateOpenbankValues_expenses_only nb d :
  Forall (fun k => nb !! k = None) otherAmounts ->
  updateOpenbankValues d nb
  = setTextAll (select monthlyExpensesSelector d) (expensesText nb) d.
Proof.
  intros H. unfold otherAmounts in H. repeat (apply Forall_cons in H as [? H]).
  unfold updateOpenbankValues, updateAccountTotal, updateIndividualAccount,
    updateTotalSavings, updateMonthlyExpenses.
  repeat match goal with Hk : nb !! _ = None |- _ => rewrite Hk; clear Hk end.
  by rewrite !writeFirstNumeric_undefined, !updateSection_undefined.
Qed.


End AnyRoundTrip26.

Section Examples22.

#[local] Existing Instance exampleRoundTrip.



End Examples22.

Section AnyRoundTrip27.

Context {html : RoundTrip}.


(** ** The recipients route *)

Lemma pretty_N_go_digits x : forall s, digitsOnly s = true -> digitsOnly (pretty_N_go x s) = true.
Proof.
  induction (N.lt_wf_0 x) as [x _ IH]. intros s Hs.
  assert (x = 0 \/ 0 < x)%N as [-> | Hpos] by lia; [by rewrite pretty_N_go_0 |].
  rewrite pretty_N_go_step by done. apply IH; [by apply N.div_lt |].
  cbn [digitsOnly]. rewrite Hs, andb_true_r.
  unfold pretty_N_char. by repeat case_match.
Qed.

Lemma pretty_nat_digits (n : nat) : digitsOnly (pretty n) = true.
Proof.
  unfold pretty, pretty_nat, pretty, pretty_N.
  case_decide; [reflexivity |]. by apply pretty_N_go_digits.
Qed.

Lemma append_inj_prefix p x y : p +:+ x = p +:+ y -> x = y.
Proof.
  induction p as [| c p IH]; [by rewrite !append_empty_l |].
  rewrite !append_cons. intros [= H]. by apply IH.
Qed.

Lemma underscore_splits x : forall x' y y',
  digitsOnly x = true -> digitsOnly x' = true ->
  x +:+ "_" +:+ y = x' +:+ "_" +:+ y' -> y = y'.
Proof.
  induction x as [| c x IH]; intros [| c' x'] y y' Hx Hx'.
  - rewrite !append_empty_l. by apply append_inj_prefix.
  - rewrite append_empty_l, append_cons. intros [= <- _].
    cbn [digitsOnly] in Hx'. discriminate Hx'.
  - rewrite append_empty_l, append_cons. intros [= -> _].
    cbn [digitsOnly] in Hx. discriminate Hx.
  - rewrite !append_cons. intros [= _ H].
    cbn [digitsOnly] in Hx, Hx'.
    apply andb_true_iff in Hx as [_ Hx]. apply andb_true_iff in Hx' as [_ Hx'].
    by apply (IH x' y y').
Qed.

Lemma recipientId_index now now' i j : recipientId now i = recipientId now' j -> i = j.
Proof.
  unfold recipientId. intros H%append_inj_prefix.
  apply underscore_splits in H; [| apply pretty_nat_digits ..].
  by apply (inj pretty) in H.
Qed.

Lemma recipientOfRow_complete now i row d r :
  recipientOfRow now i row d = Some r ->
  r_id r = recipientId now i
  /\ r_alias r <> "" /\ r_account r <> "" /\ r_currency r <> "" /\ r_country r <> "".
Proof.
  unfold recipientOfRow.
  destruct (JS.truthy (cellText aliasSelector row d)) eqn:Ha; [| discriminate].
  destruct (JS.truthy (cellText accountSelector row d)) eqn:Hb; [| discriminate].
  cbn [andb]. intros [= <-]. cbn [r_id r_alias r_account r_currency r_country].
  split; [reflexivity |].
  repeat split; apply truthy_nonempty; try done; by apply orElse_truthy.
Qed.

Lemma eachRow_from clock d : forall rows i r,
  r ∈ eachRow clock i rows d ->
  exists j, i <= j < i + length rows
            /\ r_id r = recipientId (clock j) j
            /\ r_alias r <> "" /\ r_account r <> ""
            /\ r_currency r <> "" /\ r_country r <> "".
Proof.
  induction rows as [| row rows IH]; intros i r Hr; [by apply elem_of_nil in Hr |].
  cbn [eachRow] in Hr.
  assert (Hlater : r ∈ eachRow clock (S i) rows d ->
            exists j, i <= j < i + length (row :: rows)
                      /\ r_id r = recipientId (clock j) j
                      /\ r_alias r <> "" /\ r_account r <> ""
                      /\ r_currency r <> "" /\ r_country r <> "").
  { intros (j & Hj & Hrest)%IH. exists j. split; [cbn [length]; lia | exact Hrest]. }
  destruct (recipientOfRow (clock i) i row d) as [rec |] eqn:Hrow; [| by apply Hlater].
  apply elem_of_cons in Hr as [-> | Hr]; [| by apply Hlater].
  exists i. split; [cbn [length]; lia |]. by apply recipientOfRow_complete in Hrow.
Qed.

Lemma eachRow_length clock d : forall rows i, length (eachRow clock i rows d) <= length rows.
Proof.
  induction rows as [| row rows IH]; intros i; [reflexivity |].
  cbn [eachRow length]. specialize (IH (S i)).
  destruct (recipientOfRow (clock i) i row d); cbn [length]; lia.
Qed.

Lemma eachRow_ids clock d : forall rows i, NoDup (r_id <$> eachRow clock i rows d).
Proof.
  induction rows as [| row rows IH]; intros i; [constructor |].
  cbn [eachRow].
  destruct (recipientOfRow (clock i) i row d) as [rec |] eqn:Hrow; [| apply IH].
  rewrite fmap_cons. constructor; [| apply IH].
  intros (r & Hid & Hr)%list_elem_of_fmap.
  apply eachRow_from in Hr as (j & Hj & Hidj & _).
  apply recipientOfRow_complete in Hrow as [Hidi _].
  rewrite Hidi, Hidj in Hid. apply recipientId_index in Hid. lia.
Qed.

(** Whatever the page holds, every recipient the route returns has an
    alias, an account, a currency and a country that are not empty, no two
    recipients of one answer share an id, whatever the clock says, and there
    are at most as many as the first summary of the page read has rows; the
    page read is the one of the type in the query, or the transfers page
    when the query gives none or an empty one.  The route writes to no
    file. *)
Theorem recipients_answer (clock : nat -> nat) (query : string)
    (fs : gmap string file) (recipients : list recipient) :
  answer (getTransferRecipients clock query) fs = inr recipients ->
  Forall (fun r => r_alias r <> "" /\ r_account r <> ""
                   /\ r_currency r <> "" /\ r_country r <> "") recipients
  /\ NoDup (r_id <$> recipients)
  /\ (exists fileName f,
        JS.assoc (orElse query "transfers") HTML_FILES = Some fileName
        /\ fs !! fileName = Some f
        /\ length recipients <= length (recipientRows (content f)))
  /\ filesAfter (getTransferRecipients clock query) fs = fs.
Proof.
  unfold answer, filesAfter, getTransferRecipients, bind.
  generalize (orElse query "transfers"). intros fileType.
  destruct (JS.assoc fileType HTML_FILES) as [fileName |] eqn:Hname.
  - rewrite (loadHTMLFile_known _ _ _ Hname).
    destruct (fs !! fileName) as [f |] eqn:Hf; cbn [fst snd ret]; [| discriminate].
    intros [= <-]. split; [| split; [| split]].
    + apply Forall_forall. intros r Hr.
      by apply eachRow_from in Hr as (j & _ & _ & Hr).
    + apply eachRow_ids.
    + exists fileName, f. repeat split; [done |]. apply eachRow_length.
    + reflexivity.
  - rewrite (loadHTMLFile_unknown _ _ Hname). cbn [fst]. discriminate.
Qed.

End AnyRoundTrip27.

Section Examples23.

#[local] Existing Instance exampleRoundTrip.


Lemma recipients_answer_witness :
  answer (getTransferRecipients (fun i => 1700 + i) "transfers") agendaFiles
  = inr [ Recipient "recipient_1700_0" "Ana" "ES12 3456" "EUR" "ES";
          Recipient "recipient_1702_2" "Luis" "PT50 0002" euro "ES" ]
  /\ NoDup ["recipient_1700_0"; "recipient_1702_2"].
Proof.
  assert (H : answer (getTransferRecipients (fun i => 1700 + i) "transfers") agendaFiles
              = inr [ Recipient "recipient_1700_0" "Ana" "ES12 3456" "EUR" "ES";
                      Recipient "recipient_1702_2" "Luis" "PT50 0002" euro "ES" ])
    by (vm_compute; reflexivity).
  split; [exact H |].
  by destruct (recipients_answer _ _ _ _ H) as (_ & Hids & _).
Defined.

End Examples23.

Section AnyRoundTrip28.

Context {html : RoundTrip}.


Lemma findIn_below s d ctx q : q ∈ findIn s d ctx -> encloses ctx q.
Proof.
  unfold findIn. destruct (nodeAt ctx d) as [[| t a c ks] |]; try (by intros H%elem_of_nil).
  intros (rel & -> & Hrel)%list_elem_of_fmap.
  apply walkAll_nonempty in Hrel. destruct rel as [| i r]; [done |]. by exists i, r.
Qed.

(** Only the first summary of the page is read: a page without a summary
    gives no recipient, and every row the route goes through lies inside
    the first summary, also when the page repeats the agenda further down. *)
Theorem recipients_come_from_first_summary (clock : nat -> nat) (d : document) :
  (select summarySelector d = [] -> eachRow clock 0 (recipientRows d) d = [])
  /\ (forall row, row ∈ recipientRows d ->
        exists summary later,
          select summarySelector d = summary :: later /\ encloses summary row).
Proof.
  unfold recipientRows. split.
  - intros ->. cbn [first]. unfold find. cbn [existsb].
    by rewrite filter_none.
  - intros row Hrow. destruct (select summarySelector d) as [| summary later].
    + exfalso. cbn [first] in Hrow. unfold find in Hrow. cbn [existsb] in Hrow.
      rewrite filter_none in Hrow by done. by apply elem_of_nil in Hrow.
    + exists summary, later. split; [reflexivity |].
      cbn [first] in Hrow. unfold find in Hrow.
      apply filter_In_elem in Hrow as [_ Hin]. cbn [existsb] in Hin.
      rewrite orb_false_r in Hin. apply bool_decide_eq_true_1 in Hin.
      by apply (findIn_below rowSelector d).
Qed.

End AnyRoundTrip28.

Section Examples24.

#[local] Existing Instance exampleRoundTrip.


Lemma recipients_come_from_first_summary_witness :
  eachRow (fun i => i) 0 (recipientRows maintenancePage) maintenancePage = []
  /\ exists summary later,
       select summarySelector agendaPage = summary :: later
       /\ encloses summary [0; 0; 0; 2].
Proof.
  destruct (recipients_come_from_first_summary (fun i => i) maintenancePage) as [Hnone _].
  destruct (recipients_come_from_first_summary (fun i => i) agendaPage) as [_ Hrows].
  split; [by apply Hnone |].
  apply Hrows. vm_compute. repeat constructor.
Defined.

End Examples24.

Section AnyRoundTrip29.

Context {html : RoundTrip}.


(** ** Dates and categories *)

Lemma splitOn_none sep s : occurrences sep s = 0 -> splitOn sep s = [s].
Proof.
  induction s as [| c s IH]; [reflexivity |]. cbn [occurrences splitOn].
  destruct (Ascii.eqb c sep); [discriminate |]. intros H. by rewrite IH.
Qed.

Lemma splitOn_length sep s : length (splitOn sep s) = S (occurrences sep s).
Proof.
  induction s as [| c s IH]; [reflexivity |]. cbn [occurrences splitOn].
  destruct (Ascii.eqb c sep); [cbn [length]; by rewrite IH |].
  destruct (splitOn sep s) as [| p ps]; [discriminate IH | exact IH].
Qed.

Lemma splitOn_first sep m rest :
  occurrences sep m = 0 -> splitOn sep (m +:+ String sep rest) = m :: splitOn sep rest.
Proof.
  induction m as [| c m IH].
  - intros _. rewrite append_empty_l. cbn [splitOn]. by rewrite Ascii.eqb_refl.
  - cbn [occurrences]. rewrite append_cons. cbn [splitOn].
    destruct (Ascii.eqb c sep); [discriminate |]. intros H. by rewrite IH.
Qed.

Lemma splitOn_two sep s month day :
  splitOn sep s = [month; day] ->
  s = month +:+ String sep day /\ occurrences sep month = 0 /\ occurrences sep day = 0.
Proof.
  revert month. induction s as [| c s IH]; intros month; [discriminate |].
  cbn [splitOn]. destruct (Ascii.eqb_spec c sep) as [-> | Hc].
  - intros [= <- Hrest]. rewrite append_empty_l.
    pose proof (splitOn_length sep s) as Hlen. rewrite Hrest in Hlen.
    cbn [length] in Hlen. injection Hlen as Hlen.
    rewrite splitOn_none in Hrest by done. injection Hrest as ->. by repeat split.
  - destruct (splitOn sep s) as [| p ps] eqn:Hs; [discriminate |].
    intros [= <- ->]. destruct (IH p eq_refl) as (-> & Hp & Hd).
    rewrite append_cons. repeat split; [| exact Hd].
    cbn [occurrences]. apply Ascii.eqb_neq in Hc. by rewrite Hc.
Qed.

(** The date conversion, case by case.  A text that does not hold exactly
    one space gives the fallback "01-01".  A text with exactly one space is
    cut there: the part before it is looked up as it is (a name that is no
    month gives the text "undefined"), the part after it is not checked and
    is only padded to two characters.  For one of the twelve month names
    and a day of two characters the result is the number of the month, a
    dash, and the day. *)
Theorem convert_date_cases (builtinText : string -> string) (dateText : string) :
  ((occurrences " " dateText <> 1 /\ convertDateToISO builtinText dateText = "01-01")
   \/ (exists month day,
         dateText = month +:+ " " +:+ day
         /\ occurrences " " month = 0 /\ occurrences " " day = 0
         /\ convertDateToISO builtinText dateText
            = monthText builtinText month +:+ "-" +:+ padStart2 day))
  /\ (forall month number day,
        JS.assoc month months = Some number ->
        occurrences " " day = 0 -> jsLength day = 2 ->
        convertDateToISO builtinText (month +:+ " " +:+ day) = number +:+ "-" +:+ day)
  /\ (forall name day,
        JS.get months name = JS.Undefined -> occurrences " " name = 0 ->
        occurrences " " day = 0 ->
        convertDateToISO builtinText (name +:+ " " +:+ day)
        = "undefined-" +:+ padStart2 day).
Proof.
  assert (Hcut : forall month day,
            occurrences " " month = 0 -> occurrences " " day = 0 ->
            convertDateToISO builtinText (month +:+ " " +:+ day)
            = monthText builtinText month +:+ "-" +:+ padStart2 day).
  { intros month day Hm Hd. unfold convertDateToISO.
    change (" " +:+ day) with (String " " day).
    by rewrite splitOn_first, splitOn_none. }
  split; [| split].
  - unfold convertDateToISO.
    destruct (splitOn " " dateText) as [| month [| day [| extra rest]]] eqn:Hs.
    + left. split; [| reflexivity].
      pose proof (splitOn_length " " dateText) as Hl. rewrite Hs in Hl. discriminate Hl.
    + left. split; [| reflexivity].
      pose proof (splitOn_length " " dateText) as Hl. rewrite Hs in Hl.
      cbn [length] in Hl. lia.
    + right. exists month, day. apply splitOn_two in Hs as (-> & Hm & Hd).
      by repeat split.
    + left. split; [| reflexivity].
      pose proof (splitOn_length " " dateText) as Hl. rewrite Hs in Hl.
      cbn [length] in Hl. lia.
  - intros month number day Hmonth Hday Hlen.
    assert (Hm : occurrences " " month = 0).
    { unfold months in Hmonth. cbn [JS.assoc] in Hmonth.
      repeat match type of Hmonth with
             | (if String.eqb ?a ?b then _ else _) = _ =>
                 destruct (String.eqb_spec a b) as [-> | _]; [reflexivity |]
             end.
      discriminate Hmonth. }
    rewrite Hcut by done. unfold monthText, JS.get. rewrite Hmonth.
    unfold padStart2. by rewrite Hlen.
  - intros name day Hname Hn Hd. rewrite Hcut by done.
    unfold monthText. by rewrite Hname.
Qed.

End AnyRoundTrip29.

Section Examples25.

#[local] Existing Instance exampleRoundTrip.


Lemma convert_date_cases_witness :
  convertDateToISO (fun key => key) "Jul 14" = "07-14"
  /\ convertDateToISO (fun key => key) "Julio 4" = "undefined-04".
Proof.
  destruct (convert_date_cases (fun key => key) "Jul 14") as (_ & Hknown & Hother).
  split.
  - by apply (Hknown "Jul" "07" "14").
  - by apply (Hother "Julio" "4").
Defined.

End Examples25.

Section AnyRoundTrip30.

Context {html : RoundTrip}.


(** The address of an icon and the category read off it.  For one of the
    four categories that have an icon the address leads back to the
    category; every other category gets the icon of category 9 and so reads
    back as "category_9".  A key of [Object.prototype] gives no address at
    all: the built-in found there is returned. *)
Theorem category_icon_read_back (category : string) :
  match getCategoryIconUrl category with
  | Icon url =>
      categoryOfIcon (Some url)
      = (if bool_decide (category ∈ (fst <$> categoryMap)) then category else "category_9")
  | Builtin key => key = category /\ category ∈ JS.objectPrototypeKeys
  end.
Proof.
  unfold getCategoryIconUrl, JS.get, categoryMap. cbn [JS.assoc].
  destruct (String.eqb_spec category "category_1") as [-> | H1]; [reflexivity |].
  destruct (String.eqb_spec category "category_5") as [-> | H5]; [reflexivity |].
  destruct (String.eqb_spec category "category_9") as [-> | H9]; [reflexivity |].
  destruct (String.eqb_spec category "category_12") as [-> | H12]; [reflexivity |].
  destruct (existsb (String.eqb category) JS.objectPrototypeKeys) eqn:Hproto.
  - split; [reflexivity |].
    apply existsb_exists in Hproto as (k & Hk & ->%String.eqb_eq).
    by apply list_elem_of_In.
  - rewrite bool_decide_eq_false_2; [reflexivity |].
    cbn [fmap list_fmap fst]. intros H.
    repeat (apply elem_of_cons in H as [H | H]; [done |]). by apply elem_of_nil in H.
Qed.

(** ** Fields sent empty *)

Lemma given_blank (nb : gmap string string) k :
  (forall k v, nb !! k = Some v -> v = "") -> given nb k = None.
Proof.
  intros Hblank. unfold given. destruct (nb !! k) as [v |] eqn:Hk; [| reflexivity].
  by rewrite (Hblank k v Hk).
Qed.

(** On the direct-debits, cards and transfers pages a field sent as the
    empty text counts as not sent: a request whose fields are all empty
    runs no global step and changes no page.  The file of the request, when
    it can be written, is saved again with the page it was loaded with;
    every other file keeps its page as it was. *)
Theorem blank_fields_change_no_page (nb : gmap string string) (fileType : string)
    (fs : gmap string file) (p : string) :
  (forall k v, nb !! k = Some v -> v = "") ->
  fileType = "directDebits" \/ fileType = "cards" \/ fileType = "transfers" ->
  pageOf (filesAfter (postUpdateBalances nb fileType) fs) p
  = match fs !! p with
    | Some f =>
        if writable f && bool_decide (JS.assoc fileType HTML_FILES = Some p)
        then reload (content f)
        else content f
    | None => []
    end.
Proof.
  intros Hblank Hft.
  assert (Hreg : fileType ∈ registeredTypes).
  { unfold registeredTypes. destruct Hft as [-> | [-> | ->]]; repeat constructor. }
  destruct (registered_file fileType Hreg) as [fileName Hname].
  assert (Hglobal : globalFiles nb fileType fs = fs).
  { unfold globalFiles, propagatesDigits.
    rewrite (given_blank nb "cardLastDigits"), (given_blank nb "accountTotalBalance") by done.
    cbv iota. by rewrite (given_blank nb "avatarName"). }
  assert (Hworking : workingSet nb fileType = nb).
  { unfold workingSet, propagatesDigits.
    rewrite (given_blank nb "cardLastDigits") by done.
    cbv iota. by rewrite (given_blank nb "avatarName"). }
  assert (Hlocal : forall d, localRules fileType d nb = d).
  { intros d. unfold localRules.
    destruct Hft as [-> | [-> | ->]]; cbn [String.eqb Ascii.eqb Bool.eqb];
      unfold updateDirectDebitsValues, updateCardsValues, updateTransfersValues,
        updateAccountAmounts;
      by rewrite !(given_blank nb). }
  assert (Hother : fileName <> p ->
            match fs !! p with
            | Some f =>
                if writable f && bool_decide (JS.assoc fileType HTML_FILES = Some p)
                then reload (content f) else content f
            | None => []
            end = pageOf fs p).
  { intros Hne. unfold pageOf. destruct (fs !! p) as [g |]; [| reflexivity].
    rewrite bool_decide_eq_false_2, andb_false_r; [reflexivity |].
    rewrite Hname. by intros [= ?]. }
  unfold filesAfter. rewrite (postUpdateBalances_spec nb fileType fileName fs Hreg Hname).
  destruct (fs !! fileName) as [f |] eqn:Hf.
  - rewrite Hglobal, Hworking, Hlocal, (saveHTMLFile_known _ _ _ _ Hname), Hf.
    destruct (writable f) eqn:Hw; cbn [snd].
    + destruct (decide (fileName = p)) as [<- | Hne].
      * unfold pageOf. rewrite lookup_insert_eq, Hf, Hw.
        by rewrite bool_decide_eq_true_2.
      * rewrite (Hother Hne). unfold pageOf. by rewrite lookup_insert_ne.
    + destruct (decide (fileName = p)) as [<- | Hne]; [| by rewrite (Hother Hne)].
      unfold pageOf. by rewrite Hf, Hw.
  - cbn [snd]. destruct (decide (fileName = p)) as [<- | Hne]; [| by rewrite (Hother Hne)].
    unfold pageOf. by rewrite Hf.
Qed.

End AnyRoundTrip30.

Section Examples26.

#[local] Existing Instance exampleRoundTrip.


Lemma blank_fields_change_no_page_witness :
  pageOf (filesAfter (postUpdateBalances {[ "cardLastDigits" := "" ]} "transfers")
                     projectFiles) "Openbank.html"
  = mainPage.
Proof.
  rewrite (blank_fields_change_no_page {[ "cardLastDigits" := "" ]} "transfers"
             projectFiles "Openbank.html").
  - reflexivity.
  - intros k v [_ <-]%lookup_singleton_Some. reflexivity.
  - by right; right.
Defined.

End Examples26.

